(** * wp-landing-slimmer: a shallow embedding of [cli.mjs]

    The command-line tool reads an HTML landing page, gathers its CSS,
    prunes and minifies it, re-embeds it as one style block and can compare
    the rendering of the original and the slimmed page.

    Modelling choices, valid for the whole development:
    - JavaScript strings are [string]s of bytes, the UTF-8 form of the
      text.  [\s] and [trim] take the white space of ECMAScript, also
      outside of the ASCII range; the [i] flag and [toLowerCase] are
      modelled on the ASCII range: outside of it the regular expressions of
      the source match no letter and the comparison with the word all is
      unaffected.
    - Collaborators (node-fetch, URL, path, jsdom parsing, reporting and
      printing, the regular expression engine, PurgeCSS, cssnano, puppeteer,
      pngjs, pixelmatch) are the fields of the record [Collab]; a
      collaborator that can reject or raise returns a [result].
    - The page is a tree of elements and text.  A selector is a test on an
      element; tag names are the lower-case names the parser gives, and
      attribute values are compared as written, but for those of [rel],
      which the selector engine of jsdom compares without regard to the
      case of ASCII letters.
    - The file system and the console are the [world]; code that awaits,
      raises and catches is written in the monad [io]. *)

From Stdlib Require Import Ascii String List NArith Bool Lia DecimalString.
From stdpp Require Import base option list strings gmap.

Local Open Scope list_scope.
#[local] Set Warnings "-register-all".
#[local] Arguments String.append !s1 s2 / : simpl nomatch.

(** ** Characters and strings *)

Definition dquote : ascii := "034"%char.
Definition squote : ascii := "039"%char.
Definition nl : string := String "010"%char "".

(** The character class of the two quote characters in the extractor's
    expressions. *)
Definition is_quote (c : ascii) : bool :=
  Ascii.eqb c dquote || Ascii.eqb c squote.

(** [\s] on the ASCII range: the codes 9 to 13 and 32. *)
Definition is_space (c : ascii) : bool := Ascii.is_space c.

(** The text of a list of byte values. *)
Definition bytes (l : list nat) : string :=
  string_of_list_ascii (map ascii_of_nat l).

(** The white space of ECMAScript, which is [\s] in a regular expression and
    what [trim] cuts: the six ASCII characters, then U+00A0, U+1680, U+2000
    to U+200A, U+2028, U+2029, U+202F, U+205F, U+3000 and U+FEFF, each by
    its bytes. *)
Definition white_space : list string :=
  Eval cbv in
  map bytes
    [[9]; [10]; [11]; [12]; [13]; [32];
     [194; 160];
     [225; 154; 128];
     [226; 128; 128]; [226; 128; 129]; [226; 128; 130]; [226; 128; 131];
     [226; 128; 132]; [226; 128; 133]; [226; 128; 134]; [226; 128; 135];
     [226; 128; 136]; [226; 128; 137]; [226; 128; 138];
     [226; 128; 168]; [226; 128; 169];
     [226; 128; 175];
     [226; 129; 159];
     [227; 128; 128];
     [239; 187; 191]].

Definition is_upper (c : ascii) : bool :=
  (65 <=? nat_of_ascii c)%nat && (nat_of_ascii c <=? 90)%nat.
Definition is_lower (c : ascii) : bool :=
  (97 <=? nat_of_ascii c)%nat && (nat_of_ascii c <=? 122)%nat.
Definition is_digit (c : ascii) : bool :=
  (48 <=? nat_of_ascii c)%nat && (nat_of_ascii c <=? 57)%nat.

Definition lower_char (c : ascii) : ascii :=
  if is_upper c then ascii_of_nat (nat_of_ascii c + 32) else c.

(** [String.prototype.toLowerCase], on the ASCII range. *)
Fixpoint toLowerCase (s : string) : string :=
  match s with
  | "" => ""
  | String c s' => String (lower_char c) (toLowerCase s')
  end.

(** The class [[a-z0-9-]] under the [i] flag. *)
Definition is_name_char (c : ascii) : bool :=
  is_lower c || is_upper c || is_digit c || Ascii.eqb c "-"%char.

(** [s.startsWith(p)], and a regular expression [/^p/] for a literal [p]. *)
Fixpoint startsWith (p s : string) : bool :=
  match p, s with
  | "", _ => true
  | String a p', String b s' => Ascii.eqb a b && startsWith p' s'
  | String _ _, "" => false
  end.

(** [/^p/i] for a literal lower-case [p]. *)
Fixpoint startsWith_ci (p s : string) : bool :=
  match p, s with
  | "", _ => true
  | String a p', String b s' => Ascii.eqb a (lower_char b) && startsWith_ci p' s'
  | String _ _, "" => false
  end.

Fixpoint drop (n : nat) (s : string) : string :=
  match n, s with
  | O, _ => s
  | S n', String _ s' => drop n' s'
  | S _, "" => ""
  end.

Fixpoint take (n : nat) (s : string) : string :=
  match n, s with
  | O, _ => ""
  | S n', String c s' => String c (take n' s')
  | S _, "" => ""
  end.

(** [s.endsWith(c)] for a one-character [c]. *)
Fixpoint endsWith_char (c : ascii) (s : string) : bool :=
  match s with
  | "" => false
  | String a "" => Ascii.eqb a c
  | String _ s' => endsWith_char c s'
  end.

(** [s.replace(/c$/, empty)]: the last character goes when it is [c]. *)
Fixpoint strip_last_char (c : ascii) (s : string) : string :=
  match s with
  | "" => ""
  | String a "" => if Ascii.eqb a c then "" else s
  | String a s' => String a (strip_last_char c s')
  end.

(** [s.replace(/suffix$/, empty)] for a literal [suffix]. *)
Fixpoint strip_suffix (suffix s : string) : string :=
  if String.eqb s suffix then ""
  else match s with
       | "" => ""
       | String a s' => String a (strip_suffix suffix s')
       end.

(** The number of bytes of the white-space character a text starts with,
    0 when it starts with none. *)
Definition space_width (s : string) : nat :=
  match List.find (fun c => startsWith c s) white_space with
  | Some c => String.length c
  | None => 0
  end.

(** [s.trimStart()]; [skip] counts the bytes still to pass of the
    white-space character being read. *)
Fixpoint trimStart_from (skip : nat) (s : string) : string :=
  match s with
  | "" => ""
  | String _ s' =>
      match skip with
      | S k => trimStart_from k s'
      | O =>
          match space_width s with
          | S k => trimStart_from k s'
          | O => s
          end
      end
  end.

Definition trimStart (s : string) : string := trimStart_from O s.

(** [s.trimEnd()]: what is cut is the longest end of the text that holds
    white space only. *)
Fixpoint trimEnd (s : string) : string :=
  match s with
  | "" => ""
  | String c s' =>
      if String.eqb (trimStart s) "" then "" else String c (trimEnd s')
  end.

(** [String.prototype.trim]. *)
Definition trim (s : string) : string := trimEnd (trimStart s).

(** JavaScript truthiness of a string. *)
Definition truthy (s : string) : bool := negb (String.eqb s "").

Definition cons_head (c : ascii) (l : list string) : list string :=
  match l with
  | [] => [String c ""]
  | h :: t => String c h :: t
  end.

(** [s.split(sep)] for a one-character separator. *)
Fixpoint split (sep : ascii) (s : string) : list string :=
  match s with
  | "" => [""]
  | String c s' =>
      if Ascii.eqb c sep then "" :: split sep s' else cons_head c (split sep s')
  end.

(** [s.split(/\s+/)]; [skip] counts the bytes still to pass of the
    white-space character being read, and [in_sep] tells that the previous
    character was part of the separator being read. *)
Fixpoint split_ws_from (skip : nat) (in_sep : bool) (s : string) : list string :=
  match s with
  | "" => [""]
  | String c s' =>
      match skip with
      | S k => split_ws_from k in_sep s'
      | O =>
          match space_width s with
          | S k =>
              if in_sep then split_ws_from k true s'
              else "" :: split_ws_from k true s'
          | O => cons_head c (split_ws_from O false s')
          end
      end
  end.

Definition split_ws (s : string) : list string := split_ws_from O false s.

(** [parts.join(sep)]. *)
Fixpoint join (sep : string) (parts : list string) : string :=
  match parts with
  | [] => ""
  | [p] => p
  | p :: rest => p +:+ sep +:+ join sep rest
  end.

(** [s.includes(sub)], the test behind the selector [[attr*=sub]]. *)
Fixpoint includes (sub s : string) : bool :=
  startsWith sub s ||
  match s with
  | "" => false
  | String _ s' => includes sub s'
  end.

(** The longest run of characters satisfying [p], and what follows it: a
    greedy [[class]*]. *)
Fixpoint span (p : ascii -> bool) (s : string) : string * string :=
  match s with
  | "" => ("", "")
  | String c s' =>
      if p c then let '(run, rest) := span p s' in (String c run, rest)
      else ("", s)
  end.

(** ** Results and the [io] monad *)

Inductive result (A : Type) : Type :=
| Ok (a : A)
| Throw (e : string).
Arguments Ok {A} a.
Arguments Throw {A} e.

Inductive event : Type :=
| ConsoleLog (msg : string)
| ConsoleWarn (msg : string)
| ConsoleError (msg : string)
| ConsoleErrorObject (e : string) (** [console.error(e)] for the exception
                                      with the message [e]: its stack *)
| Uncaught (e : string)           (** the report of an exception that
                                      nothing catches *)
| Launched
| Snapped (vp file : string)
| Compared (vp : string) (n : N)
| Closed.

(** The file system maps resolved paths to contents; [trace] is the record of
    console output and of the calls to the rendering collaborators, oldest
    first. *)
Record world : Type := World {
  files : gmap string string;
  trace : list event
}.

Definition io (A : Type) : Type := world -> world * result A.

Definition ret {A} (a : A) : io A := fun w => (w, Ok a).
Definition throw {A} (e : string) : io A := fun w => (w, Throw e).
Definition lift {A} (r : result A) : io A := fun w => (w, r).

Definition bind {A B} (m : io A) (k : A -> io B) : io B :=
  fun w =>
    match m w with
    | (w1, Ok a) => k a w1
    | (w1, Throw e) => (w1, Throw e)
    end.

(** [try { m } catch { h }]. *)
Definition try_catch {A} (m : io A) (h : string -> io A) : io A :=
  fun w =>
    match m w with
    | (w1, Ok a) => (w1, Ok a)
    | (w1, Throw e) => h e w1
    end.

Notation "'do' x <- m ; k" := (bind m (fun x => k))
  (at level 10, x pattern, m at level 99, k at level 200).
Notation "m ;; k" := (bind m (fun _ => k))
  (at level 100, k at level 200, right associativity).

Definition emit (e : event) : io unit :=
  fun w => (World (files w) (trace w ++ [e]), Ok tt).

(** [for (const x of xs) body(x)]. *)
Fixpoint for_each {A} (xs : list A) (body : A -> io unit) : io unit :=
  match xs with
  | [] => ret tt
  | x :: xs' => body x ;; for_each xs' body
  end.

(** ** The document tree *)

(** An element carries its lower-case tag name, its attributes in source
    order and its children; every other node is text. *)
Inductive node : Type :=
| Element (tag : string) (attrs : list (string * string)) (children : list node)
| Text (data : string).

(** A document is the list of the children of the [Document] node. *)
Definition document : Type := list node.

Definition is_element (n : node) : bool :=
  match n with Element _ _ _ => true | Text _ => false end.

Definition tag_of (n : node) : string :=
  match n with Element t _ _ => t | Text _ => "" end.

Definition children_of (n : node) : list node :=
  match n with Element _ _ cs => cs | Text _ => [] end.

Fixpoint assoc (k : string) (l : list (string * string)) : option string :=
  match l with
  | [] => None
  | (k', v) :: l' => if String.eqb k' k then Some v else assoc k l'
  end.

(** [el.getAttribute(name)], [None] for [null]. *)
Definition getAttribute (name : string) (n : node) : option string :=
  match n with
  | Element _ attrs _ => assoc name attrs
  | Text _ => None
  end.

(** [el.getAttribute(name) || empty]. *)
Definition attr_or_empty (name : string) (n : node) : string :=
  match getAttribute name n with Some v => v | None => "" end.

(** [el.textContent]. *)
Fixpoint textContent (n : node) : string :=
  match n with
  | Text d => d
  | Element _ _ cs => String.concat "" (map textContent cs)
  end.

(** [querySelectorAll] for a selector given as a test on elements: the
    matching elements among [n] and its descendants, in document order. *)
Fixpoint select (sel : node -> bool) (n : node) : list node :=
  match n with
  | Text _ => []
  | Element _ _ cs =>
      (if sel n then [n] else []) ++ flat_map (select sel) cs
  end.

Definition querySelectorAll (sel : node -> bool) (doc : document) : list node :=
  flat_map (select sel) doc.

(** [[attr~=word]] for an attribute whose value is compared without regard
    to letter case, and a lower-case [word]: jsdom tests the value with
    [/(^|\s)word(\s|$)/i], so the attribute is a white-space separated list
    that holds [word] in some letter case. *)
Definition attr_has_word_ci (name word : string) (n : node) : bool :=
  match getAttribute name n with
  | Some v => existsb (fun x => String.eqb (toLowerCase x) word) (split_ws v)
  | None => false
  end.

(** [[attr*=sub]]. *)
Definition attr_includes (name sub : string) (n : node) : bool :=
  match getAttribute name n with
  | Some v => includes sub v
  | None => false
  end.

(** [[attr=v]]. *)
Definition attr_is (name v : string) (n : node) : bool :=
  match getAttribute name n with
  | Some v' => String.eqb v' v
  | None => false
  end.

(** [[attr=v]] for an attribute whose value is compared without regard to
    letter case, and a lower-case [v]. *)
Definition attr_is_ci (name v : string) (n : node) : bool :=
  match getAttribute name n with
  | Some v' => String.eqb (toLowerCase v') v
  | None => false
  end.

Definition has_tag (t : string) (n : node) : bool :=
  is_element n && String.eqb (tag_of n) t.

(** [link[rel~=stylesheet]] *)
Definition sel_stylesheet_link (n : node) : bool :=
  has_tag "link" n && attr_has_word_ci "rel" "stylesheet" n.

(** [style] *)
Definition sel_style (n : node) : bool := has_tag "style" n.

(** ** Collaborators and configuration *)

(** A decoded PNG image. *)
Record Png : Type := MkPng {
  png_width : N;
  png_height : N;
  png_data : string
}.

(** The safelist handed to PurgeCSS; a [RegExp] is kept by its source. *)
Inductive RegExp : Type := MkRegExp (source : string).

Record Safelist : Type := MkSafelist {
  standard : list string;
  deep : list RegExp;
  greedy : list RegExp
}.

Record Collab : Type := MkCollab {
  (** [fetch(url, ...)] followed by [res.text()] *)
  fetch_text : string -> result string;
  (** [new URL(u, base).href] *)
  url_href : string -> string -> result string;
  (** [new URL(base).protocol] *)
  url_protocol : string -> result string;
  (** [new URL(u).origin] *)
  url_origin : string -> result string;
  (** [path.resolve(...segments)] *)
  path_resolve : list string -> string;
  (** [path.dirname(p)] *)
  path_dirname : string -> string;
  (** whether [fs.writeFile] may write at a resolved path *)
  fs_writable : string -> bool;
  (** [new JSDOM(html).window.document] *)
  jsdom_parse : string -> document;
  (** what [new JSDOM(html)] reports while it parses the page (a style
      block it cannot parse, for one): jsdom hands each report to
      [console.error] *)
  jsdom_errors : string -> list string;
  (** what jsdom reports when a style element with the given content is
      put into the document *)
  jsdom_style_errors : string -> list string;
  (** [dom.serialize()] *)
  jsdom_serialize : document -> string;
  (** [new RegExp(source)]: the message of the [SyntaxError] when the
      engine refuses the source *)
  regexp_error : string -> option string;
  (** [new PurgeCSS().purge(...)], reduced to [res[0]?.css] *)
  purgecss : string -> string -> Safelist -> (string -> list string) ->
             result (option string);
  (** [postcss([cssnano(...)]).process(css, ...)], reduced to [out.css] *)
  cssnano : string -> result string;
  (** whether puppeteer, pixelmatch and pngjs can be imported *)
  deps_installed : bool;
  (** [puppeteer.launch(...)] and [browser.newPage()] *)
  puppeteer_launch : result unit;
  (** [page.setViewport], [page.goto] and [page.screenshot] for a viewport
      text and the content of the page file: the bytes of the picture *)
  page_screenshot : string -> string -> result string;
  (** [PNG.sync.read(bytes)] *)
  png_read : string -> result Png;
  (** [pixelmatch(a, b, out, width, height, ...)]: the number of differing
      pixels and the data written into [out] *)
  pixelmatch : string -> string -> N -> N -> result (N * string);
  (** [PNG.sync.write(png)] *)
  png_write : Png -> string
}.

(** The constants of lines 42 to 56 of the script. *)
Record Config : Type := MkConfig {
  inputPath : option string;
  pageUrl : option string;
  outPath : string;
  doVisual : bool;
  keepFontLinks : bool;
  vpsArg : string;
  safelistExtra : list string;
  verbose : bool;
  baseUrl : string
}.

(** ** Command line (lines 29 to 56) *)

(** A flag holds the text that follows it, or [true]. *)
Inductive argval : Type :=
| ATrue
| AStr (s : string).

(** [args[key] = v] on the plain object [args]: the key [__proto__] names
    the accessor of the prototype, and giving it a text or [true] changes
    nothing. *)
Definition set_arg (key : string) (v : argval) (args : gmap string argval)
  : gmap string argval :=
  if String.eqb key "__proto__" then args else <[key := v]> args.

(** The loop of [parseArgs] over what is left of [argv]. *)
Fixpoint parseArgs_from (argv : list string) (args : gmap string argval)
  : gmap string argval :=
  match argv with
  | [] => args
  | k :: rest =>
      if startsWith "--" k then
        let key := drop 2 k in
        match rest with
        | v :: rest' =>
            if truthy v && negb (startsWith "--" v)
            then parseArgs_from rest' (set_arg key (AStr v) args)
            else parseArgs_from rest (set_arg key ATrue args)
        | [] => set_arg key ATrue args
        end
      else parseArgs_from rest args
  end.

Definition parseArgs (argv : list string) : gmap string argval :=
  parseArgs_from (skipn 2 argv) ∅.

(** [args[k] || ...]: the value of a flag when it is truthy. *)
Definition flag_value (args : gmap string argval) (k : string) : option argval :=
  match args !! k with
  | Some (AStr s) => if truthy s then Some (AStr s) else None
  | Some ATrue => Some ATrue
  | None => None
  end.

(** [!!args[k]] and [!args[k]]: a stored value is never the empty text. *)
Definition flag_set (args : gmap string argval) (k : string) : bool :=
  match args !! k with
  | Some _ => true
  | None => false
  end.

(** The text a value is read as where a text is expected: the address of
    the page and the base go to [new URL] and to [fetch], which turn [true]
    into the text true. *)
Definition text_of (v : argval) : string :=
  match v with
  | ATrue => "true"
  | AStr s => s
  end.

(** The text of a flag that holds one. *)
Definition as_text (v : option argval) : option string :=
  match v with
  | Some (AStr s) => Some s
  | _ => None
  end.

Definition holds_true (v : option argval) : bool :=
  match v with
  | Some ATrue => true
  | _ => false
  end.

(** [x || null] and [x || d] on texts. *)
Definition or_null (x : option string) : option string :=
  match x with
  | Some s => if truthy s then Some s else None
  | None => None
  end.

Definition or_default (x : option string) (d : string) : string :=
  match or_null x with
  | Some s => s
  | None => d
  end.

(** [(args.safelist || empty).split(",").map(s=>s.trim()).filter(Boolean)] *)
Definition parse_safelist (s : string) : list string :=
  List.filter truthy (map trim (split ","%char s)).

(** The message of the [TypeError] of line 48 when [--safelist] holds
    [true]. *)
Definition error_safelist : string :=
  "(args.safelist || " +:+ String dquote (String dquote "") +:+
  ").split is not a function".

Inductive startup : Type :=
| Started (cfg : Config)
| UsageExit            (** the message of line 52 and [process.exit(1)] *)
| Crashed (e : string) (** an exception outside of any [try] *)
| Untyped.             (** the script starts with [true] in the place of
                           the input path, of the output path or of the
                           viewport list: its steps are not modelled *)

(** Lines 42 to 56, in their order: the safelist is split on line 48, the
    usage test is on line 51 and the base is computed on line 56. *)
Definition configure (env : Collab) (args : gmap string argval) : startup :=
  let a_in := flag_value args "in" in
  let a_url := flag_value args "url" in
  let a_out := flag_value args "out" in
  let a_vps := flag_value args "viewports" in
  let a_safe := flag_value args "safelist" in
  let a_base := flag_value args "base" in
  if holds_true a_safe then Crashed error_safelist
  else
    match a_in, a_url with
    | None, None => UsageExit
    | _, _ =>
        let pageUrl := option_map text_of a_url in
        let mk base :=
          if holds_true a_in || holds_true a_out || holds_true a_vps
          then Untyped
          else
            Started {| inputPath := as_text a_in;
                       pageUrl := pageUrl;
                       outPath := or_default (as_text a_out) "slim.html";
                       doVisual := negb (flag_set args "no-visual");
                       keepFontLinks := flag_set args "keep-font-links";
                       vpsArg := or_default (as_text a_vps)
                                   "1440x900,1024x768,768x1024,390x844";
                       safelistExtra :=
                         parse_safelist (or_default (as_text a_safe) "");
                       verbose := flag_set args "verbose";
                       baseUrl := base |} in
        match a_base with
        | Some b => mk (text_of b)
        | None =>
            match pageUrl with
            | Some u =>
                match url_origin env u with
                | Ok o => mk o
                | Throw e => Crashed e
                end
            | None => mk "https://example.com"
            end
        end
    end.

(** ** The extractor of [purgeCss] (lines 142 to 148) *)

(** One match of a regular expression: the whole match and the first
    group. *)
Record rmatch : Type := MkMatch {
  whole : string;
  group1 : string
}.

(** [content.matchAll(re)] for an expression given by its matcher at the
    start of a text; [skip] counts the characters still covered by the
    previous match. *)
Fixpoint matchAll_from (re : string -> option rmatch) (skip : nat) (s : string)
  : list rmatch :=
  match s with
  | "" =>
      match skip, re "" with
      | O, Some m => [m]
      | _, _ => []
      end
  | String _ s' =>
      match skip with
      | S k => matchAll_from re k s'
      | O =>
          match re s with
          | Some m => m :: matchAll_from re (Nat.pred (String.length (whole m))) s'
          | None => matchAll_from re O s'
          end
      end
  end.

Definition matchAll (re : string -> option rmatch) (s : string) : list rmatch :=
  matchAll_from re O s.

(** [/name=[quote]([^quote]+)[quote]/] at the start of [s], for
    [/class=.../] and [/id=.../]. *)
Definition re_quoted_attr (name : string) (s : string) : option rmatch :=
  if startsWith (name +:+ "=") s then
    match drop (String.length name + 1) s with
    | String q r =>
        if is_quote q then
          match span (fun c => negb (is_quote c)) r with
          | (String c v, String q' _) =>
              Some (MkMatch (name +:+ "=" +:+ String q (String c v +:+ String q' ""))
                            (String c v))
          | _ => None
          end
        else None
    | "" => None
    end
  else None.

(** [/<\/?([a-z0-9-]+)/i] at the start of [s]. *)
Definition re_tag (s : string) : option rmatch :=
  match s with
  | String "<" r =>
      let '(slash, r') :=
        match r with
        | String "/" r' => ("/", r')
        | _ => ("", r)
        end in
      match span is_name_char r' with
      | (String c name, _) =>
          Some (MkMatch ("<" +:+ slash +:+ String c name) (String c name))
      | _ => None
      end
  | _ => None
  end.

(** The optional group [(?:=[quote][^quote]*[quote])?] at the start of
    [s]: the text it takes. *)
Definition re_data_value (s : string) : string :=
  match s with
  | String "=" (String q r) =>
      if is_quote q then
        match span (fun c => negb (is_quote c)) r with
        | (v, String q' _) => String "=" (String q (v +:+ String q' ""))
        | _ => ""
        end
      else ""
  | _ => ""
  end.

(** [/\sdata-[a-z0-9-]+(?:=[quote][^quote]*[quote])?/i] at the start of
    [s]. *)
Definition re_data (s : string) : option rmatch :=
  match space_width s with
  | S k =>
      let r := drop (S k) s in
      if startsWith_ci "data-" r then
        match span is_name_char (drop 5 r) with
        | (String c name, rest) =>
            Some (MkMatch (take (S k) s +:+ take 5 r +:+ String c name +:+
                           re_data_value rest)
                          "")
        | _ => None
        end
      else None
  | O => None
  end.

(** [new Set(arr)]: the first occurrence of each value, in order. *)
Fixpoint set_of (l : list string) : list string :=
  match l with
  | [] => []
  | x :: l' => x :: List.filter (fun y => negb (String.eqb y x)) (set_of l')
  end.

(** [uniques] (line 117). *)
Definition uniques (arr : list string) : list string :=
  List.filter truthy (set_of arr).

Definition extract_classes (content : string) : list string :=
  flat_map (fun m => split_ws (group1 m)) (matchAll (re_quoted_attr "class") content).

Definition extract_ids (content : string) : list string :=
  map group1 (matchAll (re_quoted_attr "id") content).

Definition extract_tags (content : string) : list string :=
  map group1 (matchAll re_tag content).

Definition extract_data (content : string) : list string :=
  map (fun m => trim (whole m)) (matchAll re_data content).

Definition defaultExtractor (content : string) : list string :=
  uniques (extract_classes content ++ extract_ids content ++
           extract_tags content ++ extract_data content).

(** ** The safelist (lines 119 to 133) *)

Definition SAFE_PREFIXES : list string :=
  ["elementor"; "e-"; "woocommerce"; "cartflows"; "wcf"; "ast-"; "wp-";
   "swiper"; "select2"; "dashicons"; "uagb"; "cfp-"; "wpcf7"].

(** [new RegExp(source)]. *)
Definition new_RegExp (env : Collab) (source : string) : result RegExp :=
  match regexp_error env source with
  | None => Ok (MkRegExp source)
  | Some msg => Throw msg
  end.

(** [sources.map(s => new RegExp(s))]: the first source the engine refuses
    ends the mapping. *)
Fixpoint new_RegExps (env : Collab) (sources : list string)
  : result (list RegExp) :=
  match sources with
  | [] => Ok []
  | src :: rest =>
      match new_RegExp env src with
      | Throw e => Throw e
      | Ok r =>
          match new_RegExps env rest with
          | Throw e => Throw e
          | Ok rs => Ok (r :: rs)
          end
      end
  end.

(** The texts of the prefixes of line 127. *)
Definition safelist_prefixes (extra : list string) : list string :=
  SAFE_PREFIXES ++
  map (strip_last_char "-") (List.filter (endsWith_char "-") extra).

Definition buildSafelist (env : Collab) (extra : list string) : result Safelist :=
  let standard :=
    SAFE_PREFIXES ++ List.filter (fun s => negb (endsWith_char "-" s)) extra in
  match new_RegExps env (map (fun p => "^" +:+ p) (safelist_prefixes extra)) with
  | Throw e => Throw e
  | Ok patterns =>
      Ok {| standard := standard; deep := patterns; greedy := patterns |}
  end.

(** Line 214: the path of the picture of the page [file] at the viewport
    [vp]. *)
Definition png_path (file vp : string) : string :=
  strip_suffix ".html" file +:+ "." +:+ vp +:+ ".png".

(** ** Removal and insertion in the document tree *)

(** [querySelectorAll(sel).forEach(el => el.remove())] below one node: a
    matching element goes with everything under it. *)
Fixpoint remove_in (sel : node -> bool) (n : node) : list node :=
  if sel n then []
  else match n with
       | Text _ => [n]
       | Element t a cs => [Element t a (flat_map (remove_in sel) cs)]
       end.

Definition remove_all (sel : node -> bool) (doc : document) : document :=
  flat_map (remove_in sel) doc.

(** [doc.querySelector(sel)] is not [null]. *)
Definition exists_match (sel : node -> bool) (doc : document) : bool :=
  match querySelectorAll sel doc with
  | [] => false
  | _ :: _ => true
  end.

(** [doc.documentElement]. *)
Definition documentElement (doc : document) : option node :=
  List.find is_element doc.

(** [doc.head]: the first head child of the html element. *)
Definition doc_head (doc : document) : option node :=
  match documentElement doc with
  | Some (Element t _ cs) =>
      if String.eqb t "html" then List.find (has_tag "head") cs else None
  | _ => None
  end.

Fixpoint update_first (p : node -> bool) (f : node -> node) (l : list node)
  : list node :=
  match l with
  | [] => []
  | n :: l' => if p n then f n :: l' else n :: update_first p f l'
  end.

Definition map_children (f : list node -> list node) (n : node) : node :=
  match n with
  | Element t a cs => Element t a (f cs)
  | Text _ => n
  end.

(** A change of the children of [doc.head]; a [TypeError] when [doc.head]
    is [null]. *)
Definition with_head (f : list node -> list node) (doc : document)
  : result document :=
  match doc_head doc with
  | Some _ =>
      Ok (update_first is_element
            (map_children (update_first (has_tag "head") (map_children f)))
            doc)
  | None => Throw "TypeError: Cannot read properties of null"
  end.

(** [doc.head.prepend(n)] and [doc.head.append(n)]. *)
Definition head_prepend (n : node) : document -> result document :=
  with_head (fun cs => n :: cs).
Definition head_append (n : node) : document -> result document :=
  with_head (fun cs => cs ++ [n]).

(** The selectors of [serializeWithStyle]. *)
Definition sel_font_link (n : node) : bool :=
  sel_stylesheet_link n && attr_includes "href" "fonts.googleapis" n.

Definition sel_other_link (n : node) : bool :=
  sel_stylesheet_link n && negb (attr_includes "href" "fonts.googleapis" n).

Definition sel_script_or_hint (n : node) : bool :=
  has_tag "script" n
  || (has_tag "link" n && attr_is_ci "rel" "preload" n)
  || (has_tag "link" n && attr_is_ci "rel" "prefetch" n)
  || (has_tag "link" n && attr_is_ci "rel" "dns-prefetch" n).

Definition sel_script (n : node) : bool := has_tag "script" n.

Definition sel_meta_charset (n : node) : bool :=
  has_tag "meta" n &&
  match getAttribute "charset" n with Some _ => true | None => false end.

Definition sel_meta_viewport (n : node) : bool :=
  has_tag "meta" n && attr_is "name" "viewport" n.

Definition meta_charset : node :=
  Element "meta" [("charset", "utf-8")] [].

Definition meta_viewport : node :=
  Element "meta"
    [("name", "viewport"); ("content", "width=device-width, initial-scale=1")] [].

(** [createElement("style")] with [textContent] set to [css]. *)
Definition style_block (css : string) : node :=
  Element "style" [] (if truthy css then [Text css] else []).

(** Lines 162 to 184: the changes [serializeWithStyle] makes to the parsed
    document. *)
Definition assemble (keepFonts : bool) (doc : document) (finalCss : string)
  : result document :=
  let doc1 := if keepFonts then doc else remove_all sel_font_link doc in
  let doc2 := remove_all sel_other_link doc1 in
  let doc3 := remove_all sel_script_or_hint doc2 in
  match (if exists_match sel_meta_charset doc3 then Ok doc3
         else head_prepend meta_charset doc3) with
  | Throw e => Throw e
  | Ok doc4 =>
      match (if exists_match sel_meta_viewport doc4 then Ok doc4
             else head_append meta_viewport doc4) with
      | Throw e => Throw e
      | Ok doc5 => head_append (style_block finalCss) doc5
      end
  end.

(** ** The pipeline *)

Section Pipeline.
Variable env : Collab.
Variable cfg : Config.

(** [log] (line 58). *)
Definition log (msg : string) : io unit :=
  if verbose cfg then emit (ConsoleLog msg) else ret tt.

(** The key of a path in the file system. *)
Definition file_key (p : string) : string := path_resolve env [p].

(** [fs.readFile(p, ...)]. *)
Definition readFile (p : string) : io string :=
  fun w =>
    match files w !! file_key p with
    | Some c => (w, Ok c)
    | None => (w, Throw ("ENOENT: no such file or directory, open " +:+ p))
    end.

(** [fs.writeFile(p, c, ...)]. *)
Definition writeFile (p c : string) : io unit :=
  fun w =>
    if fs_writable env (file_key p)
    then (World (<[file_key p := c]> (files w)) (trace w), Ok tt)
    else (w, Throw ("EACCES: permission denied, open " +:+ p)).

(** *** Aggregator (lines 60 to 115) *)

(** [/^https?:\/\//i] and [/^https?:/i]. *)
Definition re_http_slashes (u : string) : bool :=
  startsWith_ci "http://" u || startsWith_ci "https://" u.
Definition re_http (u : string) : bool :=
  startsWith_ci "http:" u || startsWith_ci "https:" u.

Definition absUrl (u base : string) : result (option string) :=
  if negb (truthy u) then Ok None
  else if startsWith "data:" u then Ok None
  else if re_http_slashes u then Ok (Some u)
  else if startsWith "//" u then
    match url_protocol env base with
    | Ok p => Ok (Some (p +:+ u))
    | Throw e => Throw e
    end
  else
    match (if startsWith "/" u then url_href env u base else url_href env u base) with
    | Ok h => Ok (Some h)
    | Throw e => Throw e
    end.

(** Lines 93 to 103: the text of one linked stylesheet. *)
Definition read_stylesheet (href url : string) : io string :=
  match (if re_http url then None else or_null (inputPath cfg)) with
  | Some inp =>
      let diskPath :=
        path_resolve env [path_dirname env inp; hd "" (split "?"%char href)] in
      log ("Reading local CSS: " +:+ diskPath) ;;
      try_catch (readFile diskPath) (fun _ => ret "")
  | None =>
      log ("Fetching CSS: " +:+ url) ;;
      lift (fetch_text env url)
  end.

(** Lines 88 to 104: the text one link contributes, [None] where the loop
    says [continue]. *)
Definition load_link (link : node) : io (option string) :=
  let href := attr_or_empty "href" link in
  do url <- lift (absUrl href (baseUrl cfg));
  match url with
  | None => ret None
  | Some url =>
      if truthy url then
        do css <- read_stylesheet href url;
        if truthy css then ret (Some css) else ret None
      else ret None
  end.

(** Line 89. *)
Definition media_of (link : node) : string :=
  trim (attr_or_empty "media" link).

(** Lines 105 to 109: the part pushed for a stylesheet. *)
Definition media_part (media css : string) : string :=
  if truthy media && negb (String.eqb (toLowerCase media) "all")
  then "@media " +:+ media +:+ "{" +:+ nl +:+ css +:+ nl +:+ "}"
  else css.

(** The loop of lines 87 to 110. *)
Fixpoint gather_linked (links : list node) (cssParts : list string)
  : io (list string) :=
  match links with
  | [] => ret cssParts
  | link :: rest =>
      do r <- load_link link;
      match r with
      | None => gather_linked rest cssParts
      | Some css =>
          gather_linked rest (cssParts ++ [media_part (media_of link) css])
      end
  end.

(** Lines 81 to 114, on the parsed document. *)
Definition gatherCss (doc : document) : io string :=
  let linked := querySelectorAll sel_stylesheet_link doc in
  let inlines := querySelectorAll sel_style doc in
  do cssParts <- gather_linked linked [];
  ret (join (nl +:+ nl) (cssParts ++ map textContent inlines)).

(** What jsdom reports goes to [console.error], one call for each
    report. *)
Fixpoint report (msgs : list string) : io unit :=
  match msgs with
  | [] => ret tt
  | msg :: rest => emit (ConsoleError msg) ;; report rest
  end.

(** [new JSDOM(html)] and its document (lines 78 and 159). *)
Definition new_JSDOM (html : string) : io document :=
  report (jsdom_errors env html) ;;
  ret (jsdom_parse env html).

Definition loadHtmlAndCss : io (string * string) :=
  do html <-
    match or_null (pageUrl cfg) with
    | Some u => log ("Fetching page: " +:+ u) ;; lift (fetch_text env u)
    | None =>
        match inputPath cfg with
        | Some p => readFile p
        | None => throw "TypeError: the path argument must be a string"
        end
    end;
  do doc <- new_JSDOM html;
  do css <- gatherCss doc;
  ret (html, css).

(** *** Pruner and minifier (lines 135 to 156) *)

Definition purgeCss (html css : string) (extraSafe : list string) : io string :=
  do safelist <- lift (buildSafelist env extraSafe);
  do res <- lift (purgecss env html css safelist defaultExtractor);
  ret (match or_null res with Some c => c | None => css end).

Definition minifyCss (css : string) : io string := lift (cssnano env css).

(** *** Assembler (lines 158 to 187) *)

(** The new style block is parsed by jsdom when line 184 puts it into the
    document. *)
Definition serializeWithStyle (originalHtml finalCss : string) : io string :=
  do parsed <- new_JSDOM originalHtml;
  do doc <- lift (assemble (keepFontLinks cfg) parsed finalCss);
  report (jsdom_style_errors env finalCss) ;;
  ret ("<!DOCTYPE html>" +:+ nl +:+ jsdom_serialize env doc).

(** *** Visual guard (lines 189 to 236) *)

Definition warn_missing_deps : string :=
  "Visual guard requested but optional deps not installed. Install puppeteer, pixelmatch, pngjs or use --no-visual.".

(** The budget of line 235. *)
Definition budget : N := 500.

(** [snap] (lines 210 to 217); the page is the file at [file], the picture
    is written at [pngPath]. *)
Definition snap (vp file : string) : io string :=
  do html <- readFile file;
  do png <- lift (page_screenshot env vp html);
  let pngPath := png_path file vp in
  writeFile pngPath png ;;
  emit (Snapped vp file) ;;
  ret pngPath.

Definition show_N (n : N) : string :=
  DecimalString.NilEmpty.string_of_uint (N.to_uint n).

(** The body of the loop of lines 219 to 231; the result is the new value
    of [worst]. *)
Definition compare_viewport (tmp1 tmp2 vp : string) (worst : N) : io N :=
  do o <- snap vp tmp1;
  do s <- snap vp tmp2;
  do obytes <- readFile o;
  do origPng <- lift (png_read env obytes);
  do sbytes <- readFile s;
  do slimPng <- lift (png_read env sbytes);
  let width := png_width origPng in
  let height := png_height origPng in
  do r <- lift (pixelmatch env (png_data origPng) (png_data slimPng) width height);
  let n := fst r in
  emit (Compared vp n) ;;
  let worst' := N.max worst n in
  writeFile ("diff." +:+ vp +:+ ".png")
            (png_write env (MkPng width height (snd r))) ;;
  log ("Viewport " +:+ vp +:+ " pixel diff: " +:+ show_N n) ;;
  ret worst'.

Fixpoint guard_loop (tmp1 tmp2 : string) (vps : list string) (worst : N)
  : io N :=
  match vps with
  | [] => ret worst
  | vp :: rest =>
      do worst' <- compare_viewport tmp1 tmp2 vp worst;
      guard_loop tmp1 tmp2 rest worst'
  end.

(** Line 207. *)
Definition parse_viewports (viewportsCsv : string) : list string :=
  List.filter truthy (map trim (split ","%char viewportsCsv)).

Definition tmp_orig : string := path_resolve env [".orig__tmp.html"].
Definition tmp_slim : string := path_resolve env [".slim__tmp.html"].

Definition visualGuard (originalHtml slimHtml viewportsCsv : string) : io bool :=
  if deps_installed env then
    lift (puppeteer_launch env) ;;
    emit Launched ;;
    writeFile tmp_orig originalHtml ;;
    writeFile tmp_slim slimHtml ;;
    do worst <- guard_loop tmp_orig tmp_slim (parse_viewports viewportsCsv) 0%N;
    emit Closed ;;
    ret (worst <=? budget)%N
  else
    emit (ConsoleWarn warn_missing_deps) ;;
    ret true.

(** *** The run (lines 238 to 267) *)

Definition error_visual : string :=
  "❌ Visual diff too large. Re-run with --safelist to keep more selectors, or use --no-visual if you accept diffs.".

(** Steps 1 to 3: the original page and the slimmed page. *)
Definition slim_stages : io (string * string) :=
  do loaded <- loadHtmlAndCss;
  do purged <- purgeCss (fst loaded) (snd loaded) (safelistExtra cfg);
  do minimized <- minifyCss purged;
  do slimHtmlString <- serializeWithStyle (fst loaded) minimized;
  ret (fst loaded, slimHtmlString).

(** Steps 4 and 5 inside the [try]: the exit code that is reached without
    an exception, 2 by [process.exit(2)]. *)
Definition guard_and_write (html slimHtmlString : string) : io nat :=
  do ok <- (if doVisual cfg
            then visualGuard html slimHtmlString (vpsArg cfg)
            else ret true);
  if ok then
    writeFile (outPath cfg) slimHtmlString ;;
    emit (ConsoleLog ("✔ Wrote " +:+ outPath cfg)) ;;
    ret 0%nat
  else
    emit (ConsoleError error_visual) ;;
    ret 2%nat.

(** The body of the asynchronous function of line 238: the world it leaves
    and the exit code of the process. *)
Definition main (w : world) : world * nat :=
  match (do pages <- slim_stages;
         guard_and_write (fst pages) (snd pages)) w with
  | (w', Ok code) => (w', code)
  | (w', Throw e) =>
      (World (files w')
             (trace w' ++ [ConsoleError ("Failed: " +:+ e)]
                       ++ (if verbose cfg then [ConsoleErrorObject e] else [])),
       1%nat)
  end.
End Pipeline.

(** The whole script on a command line: the world it leaves and its exit
    code; [None] for the runs that are not modelled. *)
Definition usage_error : string :=
  "Provide --in <index.html> OR --url <https://...>".

Definition run (env : Collab) (argv : list string) (w : world)
  : option (world * nat) :=
  match configure env (parseArgs argv) with
  | Started cfg => Some (main env cfg w)
  | UsageExit =>
      Some (World (files w) (trace w ++ [ConsoleError usage_error]), 1%nat)
  | Crashed e => Some (World (files w) (trace w ++ [Uncaught e]), 1%nat)
  | Untyped => None
  end.

(** ** Concrete collaborators and pages for the examples *)

Fixpoint print_attrs (a : list (string * string)) : string :=
  match a with
  | [] => ""
  | (k, v) :: a' => " " +:+ k +:+ "='" +:+ v +:+ "'" +:+ print_attrs a'
  end.

Fixpoint print_node (n : node) : string :=
  match n with
  | Text d => d
  | Element t a cs =>
      "<" +:+ t +:+ print_attrs a +:+ ">" +:+
      String.concat "" (map print_node cs) +:+ "</" +:+ t +:+ ">"
  end.

Definition page (head body : list node) : document :=
  [Element "html" [] [Element "head" [] head; Element "body" [] body]].

Definition stylesheet_link (href : string) (more : list (string * string)) : node :=
  Element "link" ([("rel", "stylesheet"); ("href", href)] ++ more) [].

(** A page with two linked stylesheets and one style block. *)
Definition two_links_page : document :=
  page [stylesheet_link "a.css" []; Element "style" [] [Text "p{margin:0}"];
        stylesheet_link "b.css" [("media", "print")]]
       [Element "p" [("class", "lead")] [Text "hello"]].

(** A page with a web-font link, a plain stylesheet link, a script and a
    style block. *)
Definition font_page : document :=
  page [stylesheet_link "https://fonts.googleapis.com/css?family=Roboto" [];
        stylesheet_link "b.css" [];
        Element "style" [] [Text "p{margin:0}"];
        Element "script" [("src", "app.js")] []]
       [Element "p" [] [Text "hello"]].

(** A page with a style block before its two links and one after them. *)
Definition order_page : document :=
  page [Element "style" [] [Text "p{margin:0}"];
        stylesheet_link "b.css" [("media", "print")];
        stylesheet_link "c.css" []]
       [Element "style" [] [Text "i{top:0}"]].

(** Pages with one stylesheet link that declares a medium. *)
Definition media_page (media : string) : document :=
  page [stylesheet_link "b.css" [("media", media)]] [].

Definition demo_resolve (segments : list string) : string :=
  fold_left (fun cur seg =>
               if startsWith "/" seg then seg
               else if String.eqb seg "." then cur
               else cur +:+ "/" +:+ seg)
            segments "/cwd".

(** Collaborators for the examples: [a.css] cannot be fetched, any other
    stylesheet holds one rule; [parse] reads a page and jsdom reports
    nothing; the engine refuses an expression with an opening and no closing
    parenthesis; the pruner and the minifier change nothing; a picture is
    the viewport and the page, and [diff] is the number of pixels by which
    two unequal pictures differ. *)
Definition demo_env (parse : string -> document) (installed : bool) (diff : N)
  : Collab :=
  {| fetch_text := fun url =>
       if String.eqb url "https://example.com/a.css"
       then Throw "request to https://example.com/a.css failed"
       else if String.eqb url "https://example.com/landing" then Ok "<html>"
       else if String.eqb url "https://example.com/c.css" then Ok "c{color:blue}"
       else Ok "b{color:red}";
     url_href := fun u base =>
       Ok (if startsWith "/" u then base +:+ u else base +:+ "/" +:+ u);
     url_protocol := fun _ => Ok "https:";
     url_origin := fun _ => Ok "https://example.com";
     path_resolve := demo_resolve;
     path_dirname := fun _ => ".";
     fs_writable := fun _ => true;
     jsdom_parse := parse;
     jsdom_errors := fun _ => [];
     jsdom_style_errors := fun _ => [];
     jsdom_serialize := fun doc => String.concat "" (map print_node doc);
     regexp_error := fun source =>
       if includes "(" source && negb (includes ")" source)
       then Some ("Invalid regular expression: /" +:+ source +:+
                  "/: Unterminated group")
       else None;
     purgecss := fun _ css _ _ => Ok (Some css);
     cssnano := fun css => Ok css;
     deps_installed := installed;
     puppeteer_launch := Ok tt;
     page_screenshot := fun vp html => Ok (vp +:+ ":" +:+ html);
     png_read := fun bytes => Ok (MkPng 1 1 bytes);
     pixelmatch := fun a b _ _ =>
       Ok (if String.eqb a b then 0%N else diff, "diff");
     png_write := png_data |}.

Definition demo_cfg (visual : bool) (out : string) : Config :=
  {| inputPath := None;
     pageUrl := Some "https://example.com/landing";
     outPath := out;
     doVisual := visual;
     keepFontLinks := false;
     vpsArg := "800x600,390x844";
     safelistExtra := [];
     verbose := false;
     baseUrl := "https://example.com" |}.

(** A page read from a local file, with a base that is no web address. *)
Definition local_cfg : Config :=
  {| inputPath := Some "index.html";
     pageUrl := None;
     outPath := "slim.html";
     doVisual := false;
     keepFontLinks := false;
     vpsArg := "800x600";
     safelistExtra := [];
     verbose := false;
     baseUrl := "file:///cwd" |}.

Definition empty_world : world := World ∅ [].

(** ** Vocabulary of the statements *)

(** The text ends in no white-space character: none of its ends is one. *)
Fixpoint ends_nonspace (s : string) : bool :=
  match s with
  | "" => true
  | String _ s' =>
      negb (existsb (String.eqb s) white_space) && ends_nonspace s'
  end.

(** The text starts with no white-space character. *)
Definition starts_nonspace (s : string) : bool :=
  Nat.eqb (space_width s) 0.

(** The text is made of white-space characters only. *)
Inductive blank : string -> Prop :=
| blank_empty : blank ""
| blank_more (c s : string) : In c white_space -> blank s -> blank (c +:+ s).

(** The text starts with a white-space character followed by [data-] in
    whatever letter case: a match of the expression for data attributes can
    start here. *)
Definition data_start (s : string) : bool :=
  match space_width s with
  | S k => startsWith_ci "data-" (drop (S k) s)
  | O => false
  end.

(** No white-space character of the text is followed by [data-]. *)
Fixpoint no_data_start (s : string) : bool :=
  negb (data_start s) &&
  match s with
  | "" => true
  | String _ s' => no_data_start s'
  end.

(** Every character of the text passes the test [p]. *)
Definition chars_all (p : ascii -> bool) (s : string) : bool :=
  forallb p (list_ascii_of_string s).

(** The parts pushed by the loop over the links, given what each link
    loaded ([None] for a link that is passed over). *)
Fixpoint contributed (links : list node) (texts : list (option string))
  : list string :=
  match links, texts with
  | l :: ls, Some css :: ts => media_part (media_of l) css :: contributed ls ts
  | _ :: ls, None :: ts => contributed ls ts
  | _, _ => []
  end.

(** The texts [parts] occur in [s] one after the other, without overlap. *)
Fixpoint occurs_in_order (parts : list string) (s : string) : Prop :=
  match parts with
  | [] => True
  | p :: ps => exists pre post, s = pre +:+ p +:+ post /\ occurs_in_order ps post
  end.

(** A computation that only reads the file system: its result depends on the
    files alone and it leaves them as they are. *)
Definition reads_only {A} (m : io A) : Prop :=
  forall w1 w2, files w1 = files w2 ->
    snd (m w1) = snd (m w2) /\ files (fst (m w1)) = files w1.

(** A selector that looks at the tag and the attributes of an element
    only. *)
Definition shallow (sel : node -> bool) : Prop :=
  (forall d, sel (Text d) = false) /\
  (forall t a cs cs', sel (Element t a cs) = sel (Element t a cs')).

(** [link] and [script] elements have no element below them, as in every
    parsed page: [link] is void and [script] holds text. *)
Fixpoint void_links_and_scripts (n : node) : bool :=
  match n with
  | Text _ => true
  | Element t a cs =>
      (if String.eqb t "link" || String.eqb t "script"
       then forallb (fun c => negb (is_element c)) cs
       else true)
      && forallb void_links_and_scripts cs
  end.

(** The number of elements of the document that match a selector. *)
Definition count (sel : node -> bool) (doc : document) : nat :=
  length (querySelectorAll sel doc).

(** The shape of a document that has a head: text before the html element,
    and no head element before the head among its children. *)
Inductive head_at : document -> node -> Prop :=
| HeadAt (pre : list node) (a : list (string * string))
         (before : list node) (h : node) (after post : list node) :
    forallb (fun y => negb (is_element y)) pre = true ->
    forallb (fun y => negb (has_tag "head" y)) before = true ->
    has_tag "head" h = true ->
    head_at (pre ++ Element "html" a (before ++ h :: after) :: post) h.

(** The three removals of [assemble]. *)
Definition stripped (keepFonts : bool) (doc : document) : document :=
  remove_all sel_script_or_hint
    (remove_all sel_other_link
       (if keepFonts then doc else remove_all sel_font_link doc)).

(** The events of a trace that report a picture or a comparison. *)
Definition render_events (t : list event) : list event :=
  List.filter (fun e => match e with
                        | Snapped _ _ | Compared _ _ => true
                        | _ => false
                        end) t.

(** The paths the visual guard writes for a list of viewports. *)
Definition guard_paths (env : Collab) (vps : list string) : list string :=
  tmp_orig env :: tmp_slim env ::
  flat_map (fun vp => [png_path (tmp_orig env) vp; png_path (tmp_slim env) vp;
                       "diff." +:+ vp +:+ ".png"]) vps.

(** A computation that leaves the file at the key [k] as it is, however it
    ends. *)
Definition keeps_file (k : string) {A} (m : io A) : Prop :=
  forall w, files (fst (m w)) !! k = files w !! k.

(** The slimmed page of a run, empty when the first three steps fail. *)
Definition slim_of (env : Collab) (cfg : Config) (w : world) : string :=
  match snd (slim_stages env cfg w) with
  | Ok pages => snd pages
  | Throw _ => ""
  end.

(** ** Vocabulary of the further properties *)

(** The text holds no character [c]. *)
Definition no_char (c : ascii) (s : string) : bool :=
  forallb (fun x => negb (Ascii.eqb x c)) (list_ascii_of_string s).

(** Every text held by a flag is not empty and does not look like a flag. *)
Definition values_wellformed (args : gmap string argval) : Prop :=
  forall k s, args !! k = Some (AStr s) ->
              truthy s = true /\ startsWith "--" s = false.

(** The configuration the example collaborators give for a command line,
    the example configuration where the script does not start. *)
Definition demo_cfg_of_args (argv : list string) : Config :=
  match configure (demo_env (fun _ => font_page) true 0) (parseArgs argv) with
  | Started cfg => cfg
  | _ => demo_cfg true "slim.html"
  end.

(** A line that jsdom reports, for a page or for a style block. *)
Definition jsdom_report (env : Collab) (msg : string) : Prop :=
  exists text, In msg (jsdom_errors env text) \/
               In msg (jsdom_style_errors env text).

(** A computation that, however it ends, leaves the files as they are and
    prints nothing but reports of jsdom, which go to [console.error]. *)
Definition reports_only (env : Collab) {A} (m : io A) : Prop :=
  forall w, exists msgs,
    fst (m w) = World (files w) (trace w ++ map ConsoleError msgs) /\
    Forall (jsdom_report env) msgs.

(** The counts of differing pixels reported in a trace, in order. *)
Definition compared_counts (t : list event) : list N :=
  flat_map (fun e => match e with Compared _ n => [n] | _ => [] end) t.

(** A computation that adds to the trace, and never the closing of the
    browser, however it ends. *)
Definition never_closes {A} (m : io A) : Prop :=
  forall w, exists t, trace (fst (m w)) = trace w ++ t /\ ~ In Closed t.

(** A computation that has not closed the browser when it ends with an
    exception. *)
Definition open_on_throw {A} (m : io A) : Prop :=
  forall w w' e, m w = (w', Throw e) ->
    exists t, trace w' = trace w ++ t /\ ~ In Closed t.

(** The example collaborators with a browser that takes no picture. *)
Definition blind_env : Collab :=
  let e := demo_env (fun _ => font_page) true 700 in
  {| fetch_text := fetch_text e;
     url_href := url_href e;
     url_protocol := url_protocol e;
     url_origin := url_origin e;
     path_resolve := path_resolve e;
     path_dirname := path_dirname e;
     fs_writable := fs_writable e;
     jsdom_parse := jsdom_parse e;
     jsdom_errors := jsdom_errors e;
     jsdom_style_errors := jsdom_style_errors e;
     jsdom_serialize := jsdom_serialize e;
     regexp_error := regexp_error e;
     purgecss := purgecss e;
     cssnano := cssnano e;
     deps_installed := true;
     puppeteer_launch := Ok tt;
     page_screenshot := fun _ _ => Throw "Protocol error: target closed";
     png_read := png_read e;
     pixelmatch := pixelmatch e;
     png_write := png_write e |}.

(** ** Vocabulary of the visual guard *)

(** What the collaborators give for the two pages at one viewport: the two
    pictures, the count of differing pixels and the picture of the
    differences. *)
Record comparison : Type := MkComparison {
  cmp_orig : string;
  cmp_slim : string;
  cmp_count : N;
  cmp_diff : string
}.

(** The comparison of the two pages at a viewport, from the collaborators
    alone: both pictures are taken, both are decoded, and they are compared
    with the width and the height of the first. *)
Definition compare_pages (env : Collab) (html slim vp : string)
  : result comparison :=
  match page_screenshot env vp html with
  | Throw e => Throw e
  | Ok o =>
      match page_screenshot env vp slim with
      | Throw e => Throw e
      | Ok s =>
          match png_read env o with
          | Throw e => Throw e
          | Ok op =>
              match png_read env s with
              | Throw e => Throw e
              | Ok sp =>
                  match pixelmatch env (png_data op) (png_data sp)
                                   (png_width op) (png_height op) with
                  | Throw e => Throw e
                  | Ok r =>
                      Ok (MkComparison o s (fst r)
                            (png_write env
                               (MkPng (png_width op) (png_height op) (snd r))))
                  end
              end
          end
      end
  end.

(** What one turn of the loop of the guard records: the two pictures, the
    comparison and, under [--verbose], the line about the count. *)
Definition viewport_events (cfg : Config) (tmp1 tmp2 vp : string) (n : N)
  : list event :=
  [Snapped vp tmp1; Snapped vp tmp2; Compared vp n] ++
  (if verbose cfg
   then [ConsoleLog ("Viewport " +:+ vp +:+ " pixel diff: " +:+ show_N n)]
   else []).

(** An entry of a comma-separated list that is taken as it is written: it
    is not empty, has no white space around it and holds no comma. *)
Definition plain_entry (e : string) : Prop :=
  e <> "" /\ trim e = e /\ no_char "," e = true.

(** The three files of a viewport are no temporary page, and its two
    pictures are two files. *)
Definition viewport_files_apart (env : Collab) (vp : string) : Prop :=
  file_key env (png_path (tmp_orig env) vp)
  <> file_key env (png_path (tmp_slim env) vp) /\
  Forall (fun p => file_key env p <> file_key env (tmp_orig env) /\
                   file_key env p <> file_key env (tmp_slim env))
         [png_path (tmp_orig env) vp; png_path (tmp_slim env) vp;
          "diff." +:+ vp +:+ ".png"].

(** The files of the guard can be written, and what the guard reads back is
    what it wrote: the two temporary pages are two files, and the files of
    every viewport are apart from them. *)
Definition guard_files_apart (env : Collab) (vps : list string) : Prop :=
  Forall (fun p => fs_writable env (file_key env p) = true) (guard_paths env vps) /\
  file_key env (tmp_orig env) <> file_key env (tmp_slim env) /\
  Forall (viewport_files_apart env) vps.

(** The comparisons of the example pages at the two example viewports. *)
Definition demo_comparisons : list comparison :=
  Eval vm_compute in
  let env := demo_env (fun _ => font_page) true 700 in
  let cfg := demo_cfg true "slim.html" in
  flat_map (fun vp =>
              match compare_pages env "<html>" (slim_of env cfg empty_world) vp with
              | Ok c => [c]
              | Throw _ => []
              end)
           ["800x600"; "390x844"].

(** * Properties *)

(** ** Strings *)

Lemma append_assoc (a b c : string) : (a +:+ b) +:+ c = a +:+ (b +:+ c).
Proof. induction a as [|x a IH]; simpl; [reflexivity | now rewrite IH]. Qed.

Lemma append_empty_r (a : string) : a +:+ "" = a.
Proof. induction a as [|x a IH]; simpl; [reflexivity | now rewrite IH]. Qed.

Lemma length_append (a b : string) :
  String.length (a +:+ b) = String.length a + String.length b.
Proof. induction a as [|x a IH]; simpl; [reflexivity | now rewrite IH]. Qed.

Lemma truthy_true (s : string) : truthy s = true <-> s <> "".
Proof.
  unfold truthy. destruct (String.eqb_spec s ""); simpl; split; intros; congruence.
Qed.

Lemma endsWith_char_app (c : ascii) (p : string) :
  endsWith_char c (p +:+ String c "") = true.
Proof.
  induction p as [|x p IH]; simpl.
  - apply Ascii.eqb_refl.
  - destruct (p +:+ String c "") eqn:E; [destruct p; discriminate | exact IH].
Qed.

Lemma endsWith_char_inv (c : ascii) (s : string) :
  endsWith_char c s = true -> exists p, s = p +:+ String c "".
Proof.
  induction s as [|x s IH]; simpl; [discriminate |].
  destruct s as [|y s'].
  - intros H. apply Ascii.eqb_eq in H. subst. now exists "".
  - intros H. destruct (IH H) as [p Hp]. exists (String x p). simpl. now rewrite Hp.
Qed.

Lemma strip_last_char_app (c : ascii) (p : string) :
  strip_last_char c (p +:+ String c "") = p.
Proof.
  induction p as [|x p IH]; simpl.
  - now rewrite Ascii.eqb_refl.
  - destruct (p +:+ String c "") eqn:E; [destruct p; discriminate |].
    now rewrite IH.
Qed.


(** ** C7: the safelist *)

Lemma new_RegExps_accepted (env : Collab) (sources : list string) :
  Forall (fun src => regexp_error env src = None) sources ->
  new_RegExps env sources = Ok (map MkRegExp sources).
Proof.
  induction 1 as [|src rest Hsrc _ IH]; simpl; [reflexivity |].
  unfold new_RegExp. now rewrite Hsrc, IH.
Qed.

Lemma new_RegExps_refused (env : Collab) (sources : list string) (src : string) :
  In src sources -> regexp_error env src <> None ->
  exists e, new_RegExps env sources = Throw e.
Proof.
  induction sources as [|s rest IH]; intros Hin Hsrc; [destruct Hin |].
  simpl. unfold new_RegExp.
  destruct (regexp_error env s) as [msg |] eqn:E; [now exists msg |].
  destruct Hin as [-> | Hin]; [congruence |].
  destruct (IH Hin Hsrc) as [e ->]. now exists e.
Qed.

(** What [buildSafelist] does with the entries, for every list of user
    entries.  When the engine accepts the patterns, the exact names of the
    safelist are the baseline names and the entries that do not end in [-],
    and its patterns, the same for [deep] and [greedy], are [^p] for the
    baseline prefixes and for every [p] such that [p-] is an entry; when the
    engine refuses one of these patterns there is no safelist: the
    construction raises the [SyntaxError]. *)
Lemma safelist_entries_classified (env : Collab) (extra : list string) :
  (Forall (fun p => regexp_error env ("^" +:+ p) = None) (safelist_prefixes extra) ->
   exists sl,
     buildSafelist env extra = Ok sl /\
     (forall s, In s (standard sl) <->
                In s SAFE_PREFIXES \/ (In s extra /\ ~ exists p, s = p +:+ "-")) /\
     (forall r, In r (deep sl) <->
                exists p, r = MkRegExp ("^" +:+ p) /\
                          (In p SAFE_PREFIXES \/ In (p +:+ "-") extra)) /\
     greedy sl = deep sl) /\
  (forall p, (In p SAFE_PREFIXES \/ In (p +:+ "-") extra) ->
             regexp_error env ("^" +:+ p) <> None ->
             exists e, buildSafelist env extra = Throw e).
Proof.
  assert (Hpre : forall p, In p (safelist_prefixes extra) <->
                           In p SAFE_PREFIXES \/ In (p +:+ "-") extra).
  { intros p. unfold safelist_prefixes. rewrite in_app_iff, in_map_iff. split.
    - intros [H | [e [<- He]]]; [now left | right].
      apply filter_In in He as [He1 He2].
      destruct (endsWith_char_inv _ _ He2) as [p' ->].
      now rewrite strip_last_char_app.
    - intros [H | H]; [now left | right]. exists (p +:+ "-"). split.
      + apply strip_last_char_app.
      + apply filter_In. split; [exact H | apply endsWith_char_app]. }
  split.
  - intros Hok. unfold buildSafelist.
    rewrite new_RegExps_accepted
      by (apply List.Forall_map; exact Hok).
    eexists. split; [reflexivity |]. cbn [standard deep greedy].
    split; [| split; [| reflexivity]].
    + intros s. rewrite in_app_iff, filter_In. split.
      * intros [H | [H1 H2]]; [now left | right]. split; [exact H1 |].
        intros [p ->]. now rewrite endsWith_char_app in H2.
      * intros [H | [H1 H2]]; [now left | right]. split; [exact H1 |].
        destruct (endsWith_char "-" s) eqn:E; [| reflexivity].
        exfalso. apply H2. now apply endsWith_char_inv.
    + intros r. rewrite !in_map_iff. split.
      * intros [src [<- Hsrc]]. apply in_map_iff in Hsrc as [p [<- Hp]].
        exists p. split; [reflexivity | now apply Hpre].
      * intros [p [-> Hp]]. exists ("^" +:+ p). split; [reflexivity |].
        apply in_map_iff. exists p. split; [reflexivity | now apply Hpre].
  - intros p Hp Href. unfold buildSafelist.
    destruct (new_RegExps_refused env
                (map (fun p => "^" +:+ p) (safelist_prefixes extra)) ("^" +:+ p))
      as [e ->]; [| exact Href | now exists e].
    apply in_map_iff. exists p. split; [reflexivity | now apply Hpre].
Qed.

(** C7, at a failing input.  The entry [a(-] of the extension text ends in
    [-], and the prefix [a(] goes as it is into [new RegExp]: the engine
    refuses the expression, no safelist is built and the run ends with the
    exit code 1 of a failure, nothing written.  For the extension text
    [my-prefix-,exact-keep] of the claim the safelist is built, with
    [my-prefix] as a pattern and [exact-keep] as an exact name. *)
Theorem safelist_entry_breaks_run :
  parse_safelist "a(-" = ["a(-"] /\
  safelist_prefixes ["a(-"] = SAFE_PREFIXES ++ ["a("] /\
  buildSafelist (demo_env (fun _ => font_page) true 0) (parse_safelist "a(-")
  = Throw "Invalid regular expression: /^a(/: Unterminated group" /\
  (exists cfg,
     configure (demo_env (fun _ => font_page) true 0)
               (parseArgs ["node"; "cli.mjs"; "--url"; "https://example.com/landing";
                           "--no-visual"; "--safelist"; "a(-"])
     = Started cfg /\
     safelistExtra cfg = ["a(-"] /\
     main (demo_env (fun _ => font_page) true 0) cfg empty_world
     = (World ∅ [ConsoleError
                   "Failed: Invalid regular expression: /^a(/: Unterminated group"],
        1)) /\
  (exists sl,
     buildSafelist (demo_env (fun _ => font_page) true 0)
                   (parse_safelist "my-prefix-,exact-keep") = Ok sl /\
     In (MkRegExp "^my-prefix") (deep sl) /\
     In (MkRegExp "^my-prefix") (greedy sl) /\
     In "exact-keep" (standard sl) /\
     ~ In "my-prefix" (standard sl) /\
     ~ In "my-prefix-" (standard sl) /\
     ~ In (MkRegExp "^exact-keep") (deep sl)).
Proof.
  split; [vm_compute; reflexivity |]. split; [reflexivity |].
  split; [vm_compute; reflexivity |]. split.
  - eexists. split; [vm_compute; reflexivity |].
    split; vm_compute; reflexivity.
  - eexists. split; [vm_compute; reflexivity |]. cbn [standard deep greedy].
    repeat split.
    + do 13 right. now left.
    + do 13 right. now left.
    + do 13 right. now left.
    + intros H. repeat (destruct H as [H | H]; [discriminate |]). exact H.
    + intros H. repeat (destruct H as [H | H]; [discriminate |]). exact H.
    + intros H. repeat (destruct H as [H | H]; [discriminate |]). exact H.
Qed.

Lemma append_cancel_l (a b c : string) : a +:+ b = a +:+ c -> b = c.
Proof.
  induction a as [|x a IH]; simpl; [trivial |]. intros [= H]. now apply IH.
Qed.

Lemma append_cancel_r (a b c : string) : a +:+ c = b +:+ c -> a = b.
Proof.
  revert b. induction a as [|x a IH]; intros [|y b] H.
  - reflexivity.
  - exfalso. apply (f_equal String.length) in H. simpl in H.
    rewrite length_append in H. lia.
  - exfalso. apply (f_equal String.length) in H. simpl in H.
    rewrite length_append in H. lia.
  - simpl in H. injection H as -> H. f_equal. now apply IH.
Qed.

(** ** Splitting and joining *)

Lemma split_nonempty (c : ascii) (s : string) : split c s <> [].
Proof.
  destruct s as [|x s]; simpl; [discriminate |].
  destruct (Ascii.eqb x c); [discriminate |].
  destruct (split c s); discriminate.
Qed.

Lemma join_cons_head (sep : string) (x : ascii) (l : list string) :
  l <> [] -> join sep (cons_head x l) = String x (join sep l).
Proof.
  destruct l as [|h t]; [congruence |]. intros _. simpl.
  destruct t; reflexivity.
Qed.

Lemma no_char_cons_head (c x : ascii) (l : list string) :
  Ascii.eqb x c = false ->
  Forall (fun p => no_char c p = true) l ->
  Forall (fun p => no_char c p = true) (cons_head x l).
Proof.
  intros Hx Hl. destruct l as [|h t]; simpl.
  - constructor; [| constructor]. unfold no_char. simpl. now rewrite Hx.
  - inversion Hl; subst. constructor; [| assumption].
    unfold no_char in *. simpl. now rewrite Hx.
Qed.

Lemma split_no_separator (c : ascii) (s : string) :
  no_char c s = true -> split c s = [s].
Proof.
  unfold no_char. induction s as [|x s IH]; simpl; [reflexivity |].
  intros H. apply andb_true_iff in H as [Hx Hs].
  destruct (Ascii.eqb x c); [discriminate |]. now rewrite (IH Hs).
Qed.

Lemma split_hd_app (c : ascii) (p q : string) :
  no_char c p = true -> hd "" (split c (p +:+ String c q)) = p.
Proof.
  unfold no_char. induction p as [|x p IH]; simpl.
  - now rewrite Ascii.eqb_refl.
  - intros H. apply andb_true_iff in H as [Hx Hp].
    destruct (Ascii.eqb x c); [discriminate |].
    specialize (IH Hp).
    destruct (split c (p +:+ String c q)) as [|h t] eqn:E.
    + now destruct (split_nonempty c _ E).
    + simpl in *. now subst.
Qed.

Lemma join_split (c : ascii) (s : string) : join (String c "") (split c s) = s.
Proof.
  induction s as [|x s IH]; simpl; [reflexivity |].
  destruct (Ascii.eqb_spec x c) as [-> | Hne].
  - destruct (split c s) as [|h t] eqn:E; [now destruct (split_nonempty c s) |].
    now rewrite <- IH.
  - rewrite join_cons_head by apply split_nonempty. now rewrite IH.
Qed.

Lemma split_parts_no_char (c : ascii) (s : string) :
  Forall (fun p => no_char c p = true) (split c s).
Proof.
  induction s as [|x s IH]; simpl.
  - now constructor.
  - destruct (Ascii.eqb x c) eqn:E.
    + now constructor.
    + now apply no_char_cons_head.
Qed.

(** ** White space *)

Lemma startsWith_app (c r : string) : startsWith c (c +:+ r) = true.
Proof.
  induction c as [|x c IH]; simpl; [reflexivity |].
  now rewrite Ascii.eqb_refl.
Qed.

Lemma startsWith_inv (c s : string) :
  startsWith c s = true -> exists r, s = c +:+ r.
Proof.
  revert s. induction c as [|x c IH]; intros s H; simpl in *.
  - now exists s.
  - destruct s as [|y s]; [discriminate |].
    apply andb_true_iff in H as [Hx Hs]. apply Ascii.eqb_eq in Hx. subst y.
    destruct (IH s Hs) as [r ->]. now exists r.
Qed.

Lemma drop_app (c r : string) : drop (String.length c) (c +:+ r) = r.
Proof. induction c as [|x c IH]; simpl; [now destruct r | exact IH]. Qed.

Lemma take_app (c r : string) : take (String.length c) (c +:+ r) = c.
Proof. induction c as [|x c IH]; simpl; [now destruct r | now rewrite IH]. Qed.

Lemma take_drop (n : nat) (s : string) : take n s +:+ drop n s = s.
Proof.
  revert s. induction n as [|n IH]; intros [|c s]; simpl; try reflexivity.
  now rewrite IH.
Qed.

(** No white-space character is the start of another one. *)
Lemma white_space_prefix_free (c c' r r' : string) :
  In c white_space -> In c' white_space -> c +:+ r = c' +:+ r' -> c = c'.
Proof.
  intros Hc Hc' E.
  assert (Hs : startsWith c' (c +:+ r) = true) by (rewrite E; apply startsWith_app).
  clear E. unfold white_space in Hc, Hc'.
  repeat (destruct Hc as [<- | Hc]; [
    repeat (destruct Hc' as [<- | Hc']; [first [reflexivity | discriminate Hs] |]);
    destruct Hc' |]).
  destruct Hc.
Qed.

Lemma white_space_length (c : string) :
  In c white_space -> exists k, String.length c = S k.
Proof.
  unfold white_space. intros H.
  repeat (destruct H as [<- | H]; [eexists; reflexivity |]). destruct H.
Qed.

Lemma space_width_app (c r : string) :
  In c white_space -> space_width (c +:+ r) = String.length c.
Proof.
  intros Hc. unfold space_width.
  destruct (List.find (fun c' => startsWith c' (c +:+ r)) white_space) as [c' |] eqn:E.
  - apply find_some in E as [Hc' Hs]. apply startsWith_inv in Hs as [r' Hr].
    now rewrite (white_space_prefix_free c c' r r' Hc Hc' Hr).
  - apply (find_none _ _ E) in Hc. now rewrite startsWith_app in Hc.
Qed.

Lemma space_width_pos (s : string) (k : nat) :
  space_width s = S k ->
  exists c r, In c white_space /\ s = c +:+ r /\ String.length c = S k.
Proof.
  unfold space_width.
  destruct (List.find (fun c => startsWith c s) white_space) as [c |] eqn:E;
    [| discriminate].
  apply find_some in E as [Hc Hs]. apply startsWith_inv in Hs as [r ->].
  intros H. now exists c, r.
Qed.

Lemma space_width_zero (s c r : string) :
  space_width s = 0 -> In c white_space -> s <> c +:+ r.
Proof.
  intros H Hc ->. rewrite (space_width_app c r Hc) in H.
  destruct (white_space_length c Hc) as [k Hk]. congruence.
Qed.

Lemma trimStart_from_drop (s : string) :
  forall k, trimStart_from k s = trimStart (drop k s).
Proof.
  induction s as [|x s IH]; intros [|k]; try reflexivity.
  simpl. apply IH.
Qed.

Lemma trimStart_cons (x : ascii) (s : string) :
  trimStart (String x s) =
  match space_width (String x s) with
  | S k => trimStart (drop k s)
  | O => String x s
  end.
Proof.
  unfold trimStart at 1. simpl trimStart_from.
  destruct (space_width (String x s)); [reflexivity | apply trimStart_from_drop].
Qed.

Lemma trimStart_space (c r : string) :
  In c white_space -> trimStart (c +:+ r) = trimStart r.
Proof.
  intros Hc. destruct (white_space_length c Hc) as [k Hk].
  destruct c as [|x c]; [discriminate |].
  change (String x c +:+ r) with (String x (c +:+ r)).
  rewrite trimStart_cons.
  change (String x (c +:+ r)) with (String x c +:+ r).
  rewrite (space_width_app _ r Hc), Hk.
  simpl in Hk. injection Hk as <-. now rewrite drop_app.
Qed.

Lemma trimStart_id (s : string) : starts_nonspace s = true -> trimStart s = s.
Proof.
  unfold starts_nonspace. intros H. apply Nat.eqb_eq in H.
  destruct s as [|x s]; [reflexivity |]. now rewrite trimStart_cons, H.
Qed.

(** A text is empty, or starts with a white-space character, or starts with
    a byte that starts none. *)
Lemma white_space_ind (P : string -> Prop) :
  P "" ->
  (forall c r, In c white_space -> P r -> P (c +:+ r)) ->
  (forall x r, space_width (String x r) = 0 -> P r -> P (String x r)) ->
  forall s, P s.
Proof.
  intros Hnil Hsp Hch s.
  assert (H : forall n s, String.length s <= n -> P s).
  { clear s. induction n as [|n IH]; intros [|x s] Hlen; try exact Hnil.
    - simpl in Hlen. lia.
    - simpl in Hlen.
      destruct (space_width (String x s)) as [|k] eqn:E.
      + apply Hch; [exact E | apply IH; lia].
      + destruct (space_width_pos _ _ E) as (c & r & Hc & Hs & Hk).
        rewrite Hs. apply Hsp; [exact Hc |]. apply IH.
        apply (f_equal String.length) in Hs. rewrite length_append in Hs.
        simpl in Hs. lia. }
  apply (H (String.length s)). lia.
Qed.

Lemma blank_app (a b : string) : blank a -> blank b -> blank (a +:+ b).
Proof.
  induction 1 as [|c s Hc _ IH]; intros Hb; [exact Hb |].
  rewrite append_assoc. apply blank_more; [exact Hc | now apply IH].
Qed.

Lemma trimStart_blank (a s : string) : blank a -> trimStart (a +:+ s) = trimStart s.
Proof.
  induction 1 as [|c a Hc _ IH]; [reflexivity |].
  now rewrite append_assoc, trimStart_space.
Qed.

Lemma trimStart_decompose (s : string) :
  exists a, s = a +:+ trimStart s /\ blank a.
Proof.
  induction s as [| c r Hc [a [Ha Hb]] | x r Hx _] using white_space_ind.
  - exists "". split; [reflexivity | constructor].
  - exists (c +:+ a). rewrite trimStart_space by exact Hc.
    rewrite append_assoc, <- Ha. split; [reflexivity | now constructor].
  - exists "". rewrite trimStart_cons, Hx. split; [reflexivity | constructor].
Qed.

Lemma trimStart_starts (s : string) : starts_nonspace (trimStart s) = true.
Proof.
  induction s as [| c r Hc IH | x r Hx _] using white_space_ind.
  - reflexivity.
  - now rewrite trimStart_space.
  - rewrite trimStart_cons, Hx. unfold starts_nonspace. now rewrite Hx.
Qed.

Lemma trimStart_empty_blank (s : string) : trimStart s = "" <-> blank s.
Proof.
  split.
  - intros H. destruct (trimStart_decompose s) as [a [Ha Hb]].
    rewrite H, append_empty_r in Ha. now subst.
  - intros H. rewrite <- (append_empty_r s). now rewrite trimStart_blank.
Qed.

Lemma trimEnd_cons (x : ascii) (s : string) :
  trimEnd (String x s) =
  if String.eqb (trimStart (String x s)) "" then "" else String x (trimEnd s).
Proof. reflexivity. Qed.

Lemma trimEnd_decompose (s : string) :
  exists b, s = trimEnd s +:+ b /\ blank b.
Proof.
  induction s as [|x s [b [Hb Hsp]]].
  - exists "". split; [reflexivity | constructor].
  - rewrite trimEnd_cons.
    destruct (String.eqb_spec (trimStart (String x s)) "") as [E | E].
    + exists (String x s). split; [reflexivity | now apply trimStart_empty_blank].
    + exists b. simpl. now rewrite <- Hb.
Qed.

(** A blank text that is not empty ends in a white-space character. *)
Lemma blank_end (s : string) :
  blank s -> s <> "" -> exists r c, s = r +:+ c /\ In c white_space.
Proof.
  induction 1 as [|c s Hc Hs IH]; [congruence |]. intros _.
  destruct s as [|y s'].
  - exists "", c. now rewrite append_empty_r.
  - destruct IH as (r & c' & -> & Hc'); [discriminate |].
    exists (c +:+ r), c'. now rewrite append_assoc.
Qed.

Lemma ends_nonspace_cons (x : ascii) (s : string) :
  ends_nonspace (String x s) =
  negb (existsb (String.eqb (String x s)) white_space) && ends_nonspace s.
Proof. reflexivity. Qed.

Lemma ends_nonspace_space (r c : string) :
  In c white_space -> ends_nonspace (r +:+ c) = false.
Proof.
  intros Hc. destruct (white_space_length c Hc) as [k Hk].
  induction r as [|x r IH].
  - destruct c as [|y c]; [discriminate |]. simpl append.
    rewrite ends_nonspace_cons.
    replace (existsb (String.eqb (String y c)) white_space) with true; [reflexivity |].
    symmetry. apply existsb_exists. exists (String y c). split; [exact Hc |].
    apply String.eqb_refl.
  - change (String x r +:+ c) with (String x (r +:+ c)).
    rewrite ends_nonspace_cons, IH. apply andb_false_r.
Qed.

Lemma ends_nonspace_not_blank (s : string) :
  ends_nonspace s = true -> s <> "" -> ~ blank s.
Proof.
  intros He Hne Hb. destruct (blank_end s Hb Hne) as (r & c & -> & Hc).
  now rewrite ends_nonspace_space in He.
Qed.

Lemma trimEnd_id (s : string) : ends_nonspace s = true -> trimEnd s = s.
Proof.
  induction s as [|x s IH]; [reflexivity |]. intros H.
  rewrite trimEnd_cons.
  destruct (String.eqb_spec (trimStart (String x s)) "") as [E | E].
  - apply trimStart_empty_blank in E.
    now destruct (ends_nonspace_not_blank _ H).
  - rewrite ends_nonspace_cons in H. apply andb_true_iff in H as [_ H].
    now rewrite (IH H).
Qed.

Lemma trimEnd_ends (s : string) : ends_nonspace (trimEnd s) = true.
Proof.
  induction s as [|x s IH]; [reflexivity |].
  rewrite trimEnd_cons.
  destruct (String.eqb_spec (trimStart (String x s)) "") as [E | E]; [reflexivity |].
  rewrite ends_nonspace_cons, IH, andb_true_r. apply negb_true_iff.
  destruct (existsb (String.eqb (String x (trimEnd s))) white_space) eqn:Ex;
    [| reflexivity].
  exfalso. apply E. apply trimStart_empty_blank.
  apply existsb_exists in Ex as (c & Hc & Heq). apply String.eqb_eq in Heq.
  destruct (trimEnd_decompose s) as [b [Hb Hsp]].
  rewrite Hb. change (blank (String x (trimEnd s) +:+ b)). rewrite Heq.
  now constructor.
Qed.

Lemma trimEnd_starts (s : string) :
  starts_nonspace s = true -> starts_nonspace (trimEnd s) = true.
Proof.
  unfold starts_nonspace. intros H. apply Nat.eqb_eq in H. apply Nat.eqb_eq.
  destruct (space_width (trimEnd s)) as [|k] eqn:E; [reflexivity |].
  destruct (space_width_pos _ _ E) as (c & r & Hc & Hs & _).
  destruct (trimEnd_decompose s) as [b [Hb _]].
  rewrite Hs, append_assoc in Hb.
  now destruct (space_width_zero s c (r +:+ b) H Hc).
Qed.

Lemma trim_decompose (s : string) :
  exists a b, s = a +:+ trim s +:+ b /\ blank a /\ blank b.
Proof.
  destruct (trimStart_decompose s) as [a [Ha Hsa]].
  destruct (trimEnd_decompose (trimStart s)) as [b [Hb Hsb]].
  exists a, b. unfold trim. now rewrite <- Hb.
Qed.

Lemma trim_starts (s : string) : starts_nonspace (trim s) = true.
Proof. apply trimEnd_starts, trimStart_starts. Qed.

Lemma trim_ends (s : string) : ends_nonspace (trim s) = true.
Proof. apply trimEnd_ends. Qed.

Lemma trim_id (s : string) :
  starts_nonspace s = true -> ends_nonspace s = true -> trim s = s.
Proof. intros H1 H2. unfold trim. now rewrite trimStart_id, trimEnd_id. Qed.

Lemma trim_idempotent (s : string) : trim (trim s) = trim s.
Proof. apply trim_id; [apply trim_starts | apply trim_ends]. Qed.

(** White space before a text that neither starts nor ends with white space
    is all that [trim] cuts. *)
Lemma trim_after_space (c t : string) :
  In c white_space -> starts_nonspace t = true -> ends_nonspace t = true ->
  trim (c +:+ t) = t.
Proof.
  intros Hc H1 H2. unfold trim. rewrite trimStart_space by exact Hc.
  now rewrite trimStart_id, trimEnd_id.
Qed.

(** ** C3: tokens of data attributes *)

Lemma span_app (p : ascii -> bool) (run : string) (c : ascii) (rest : string) :
  forallb p (list_ascii_of_string run) = true ->
  p c = false ->
  span p (run +:+ String c rest) = (run, String c rest).
Proof.
  intros Hrun Hc. induction run as [|x run IH]; simpl in *.
  - now rewrite Hc.
  - apply andb_true_iff in Hrun as [Hx Hrun]. rewrite Hx.
    now rewrite (IH Hrun).
Qed.

Lemma span_all (p : ascii -> bool) (run : string) :
  chars_all p run = true -> span p run = (run, "").
Proof.
  unfold chars_all. induction run as [|x run IH]; simpl; [reflexivity |].
  intros H. apply andb_true_iff in H as [Hx Hrun]. now rewrite Hx, IH.
Qed.

Lemma span_run (p : ascii -> bool) (s run rest : string) :
  span p s = (run, rest) -> chars_all p run = true.
Proof.
  unfold chars_all. revert run rest. induction s as [|c s IH]; intros run rest; simpl.
  - now intros [= <- <-].
  - destruct (p c) eqn:E.
    + destruct (span p s) as [run' rest']. intros [= <- <-]. simpl.
      rewrite E. exact (IH run' rest' eq_refl).
    + now intros [= <- <-].
Qed.

Lemma span_stop (p : ascii -> bool) (s run : string) (c : ascii) (rest : string) :
  span p s = (run, String c rest) -> p c = false.
Proof.
  revert run. induction s as [|x s IH]; intros run; simpl.
  - discriminate.
  - destruct (p x) eqn:E.
    + destruct (span p s) as [run' rest'] eqn:Es. intros [= <- ->].
      exact (IH run' eq_refl).
    + now intros [= <- -> ->].
Qed.

Lemma span_whole (p : ascii -> bool) (s run rest : string) :
  span p s = (run, rest) -> s = run +:+ rest.
Proof.
  revert run rest. induction s as [|x s IH]; intros run rest; simpl.
  - now intros [= <- <-].
  - destruct (p x).
    + destruct (span p s) as [run' rest']. intros [= <- <-]. simpl.
      now rewrite <- (IH run' rest' eq_refl).
    + now intros [= <- <-].
Qed.

(** The characters covered by a match are passed over. *)
Lemma matchAll_from_skip (re : string -> option rmatch) (m post : string) :
  matchAll_from re (String.length m) (m +:+ post) = matchAll_from re O post.
Proof.
  induction m as [|x m IH]; simpl.
  - reflexivity.
  - exact IH.
Qed.

Lemma matchAll_from_cons (re : string -> option rmatch) (c : ascii) (s : string) :
  matchAll_from re O (String c s) =
  match re (String c s) with
  | Some m => m :: matchAll_from re (Nat.pred (String.length (whole m))) s
  | None => matchAll_from re O s
  end.
Proof. reflexivity. Qed.

(** A match at the start of a text, and the scan of what follows it. *)
Lemma matchAll_match (re : string -> option rmatch) (m : rmatch) (post : string) :
  whole m <> "" ->
  re (whole m +:+ post) = Some m ->
  matchAll re (whole m +:+ post) = m :: matchAll re post.
Proof.
  intros Hne H. unfold matchAll. destruct (whole m) as [|x w] eqn:E; [congruence |].
  change (String x w +:+ post) with (String x (w +:+ post)) in *.
  rewrite matchAll_from_cons, H, E. simpl. f_equal. apply matchAll_from_skip.
Qed.

(** *** The ends of a token *)

Lemma starts_nonspace_byte (x : ascii) (r : string) :
  forallb (fun w => negb (startsWith (String x "") w)) white_space = true ->
  starts_nonspace (String x r) = true.
Proof.
  intros H. unfold starts_nonspace. apply Nat.eqb_eq.
  destruct (space_width (String x r)) as [|k] eqn:E; [reflexivity |].
  destruct (space_width_pos _ _ E) as (c & r' & Hc & Hs & Hk).
  rewrite forallb_forall in H. specialize (H c Hc).
  destruct c as [|y c]; [discriminate |]. simpl in Hs. injection Hs as <- _.
  simpl in H. now rewrite Ascii.eqb_refl in H.
Qed.

Lemma ends_nonspace_byte (a : string) (c : ascii) :
  forallb (fun w => negb (endsWith_char c w)) white_space = true ->
  ends_nonspace (a +:+ String c "") = true.
Proof.
  intros H. rewrite forallb_forall in H.
  assert (Hno : forall y, existsb (String.eqb (y +:+ String c "")) white_space = false).
  { intros y. destruct (existsb _ white_space) eqn:Ex; [| reflexivity].
    apply existsb_exists in Ex as (w & Hw & Heq). apply String.eqb_eq in Heq.
    specialize (H w Hw). now rewrite <- Heq, endsWith_char_app in H. }
  induction a as [|x a IH].
  - simpl append. rewrite ends_nonspace_cons.
    change (String c "") with ("" +:+ String c ""). now rewrite Hno.
  - change (String x a +:+ String c "") with (String x (a +:+ String c "")).
    rewrite ends_nonspace_cons, IH.
    change (String x (a +:+ String c "")) with (String x a +:+ String c "").
    now rewrite Hno.
Qed.

Lemma name_char_not_space_end (c : ascii) :
  is_name_char c = true ->
  forallb (fun w => negb (endsWith_char c w)) white_space = true.
Proof.
  destruct c as [[] [] [] [] [] [] [] []]; vm_compute; congruence.
Qed.

Lemma quote_not_space_end (c : ascii) :
  is_quote c = true ->
  forallb (fun w => negb (endsWith_char c w)) white_space = true.
Proof.
  destruct c as [[] [] [] [] [] [] [] []]; vm_compute; congruence.
Qed.

Lemma letter_d_not_space_start (c : ascii) :
  lower_char c = "d"%char ->
  forallb (fun w => negb (startsWith (String c "") w)) white_space = true.
Proof.
  destruct c as [[] [] [] [] [] [] [] []]; vm_compute; congruence.
Qed.

Lemma chars_all_app (p : ascii -> bool) (a b : string) :
  chars_all p (a +:+ b) = chars_all p a && chars_all p b.
Proof.
  unfold chars_all. induction a as [|x a IH]; simpl; [reflexivity |].
  now rewrite IH, andb_assoc.
Qed.

Lemma last_char (s : string) :
  s <> "" -> exists a c, s = a +:+ String c "".
Proof.
  induction s as [|x s IH]; [congruence |]. intros _.
  destruct s as [|y s'].
  - now exists "", x.
  - destruct IH as (a & c & ->); [discriminate |]. now exists (String x a), c.
Qed.

(** A name ends as a text that [trimEnd] leaves alone. *)
Lemma ends_nonspace_name (pre name : string) :
  name <> "" ->
  chars_all is_name_char name = true ->
  ends_nonspace (pre +:+ name) = true.
Proof.
  intros Hne Hname. destruct (last_char name Hne) as (a & c & ->).
  rewrite chars_all_app in Hname. apply andb_true_iff in Hname as [_ Hc].
  unfold chars_all in Hc. simpl in Hc. rewrite andb_true_r in Hc.
  rewrite <- append_assoc. now apply ends_nonspace_byte, name_char_not_space_end.
Qed.

(** *** The value of a data attribute *)

Lemma re_data_value_quoted (q q' : ascii) (value post : string) :
  is_quote q = true -> is_quote q' = true ->
  chars_all (fun c => negb (is_quote c)) value = true ->
  re_data_value ("=" +:+ String q value +:+ String q' post)
  = "=" +:+ String q value +:+ String q' "".
Proof.
  intros Hq Hq' Hv. simpl. rewrite Hq.
  rewrite (span_app _ value q' post Hv); [reflexivity | now rewrite Hq'].
Qed.

Lemma re_data_value_none (rest : string) :
  (forall q value q' post, is_quote q = true -> is_quote q' = true ->
     rest <> "=" +:+ String q value +:+ String q' post) ->
  re_data_value rest = "".
Proof.
  intros H. unfold re_data_value. destruct rest as [|a rest]; [reflexivity |].
  destruct (Ascii.eqb_spec a "="%char) as [-> | Hne].
  - destruct rest as [|q r]; [reflexivity |].
    destruct (is_quote q) eqn:Hq; [| reflexivity].
    destruct (span (fun c => negb (is_quote c)) r) as [v rest'] eqn:E.
    destruct rest' as [|q' post]; [reflexivity |]. exfalso.
    pose proof (span_stop _ _ _ _ _ E) as Hq'. apply negb_false_iff in Hq'.
    apply (H q v q' post Hq Hq'). simpl. now rewrite (span_whole _ _ _ _ E).
  - destruct a as [[] [] [] [] [] [] [] []]; try reflexivity. now destruct Hne.
Qed.

Lemma re_data_value_prefix (rest : string) :
  rest = re_data_value rest +:+ drop (String.length (re_data_value rest)) rest.
Proof.
  unfold re_data_value. destruct rest as [|a rest]; [reflexivity |].
  destruct (Ascii.eqb_spec a "="%char) as [-> | Hne].
  - destruct rest as [|q r]; [reflexivity |].
    destruct (is_quote q); [| reflexivity].
    destruct (span (fun c => negb (is_quote c)) r) as [v rest'] eqn:E.
    destruct rest' as [|q' post]; [reflexivity |].
    rewrite (span_whole _ _ _ _ E).
    change (String "=" (String q (v +:+ String q' post)))
      with (("=" +:+ String q v) +:+ String q' post).
    change (String "=" (String q (v +:+ String q' "")))
      with (("=" +:+ String q v) +:+ String q' "").
    rewrite !append_assoc. simpl.
    rewrite length_append. simpl.
    replace (String.length v + 1) with (String.length (v +:+ String q' ""))
      by (rewrite length_append; reflexivity).
    do 2 f_equal. replace (v +:+ String q' post)
      with ((v +:+ String q' "") +:+ post)
      by (rewrite append_assoc; reflexivity).
    rewrite drop_app. now rewrite append_assoc.
  - destruct a as [[] [] [] [] [] [] [] []]; try reflexivity. now destruct Hne.
Qed.

Lemma re_data_value_ends (pre rest : string) :
  re_data_value rest <> "" -> ends_nonspace (pre +:+ re_data_value rest) = true.
Proof.
  unfold re_data_value. destruct rest as [|a rest]; [congruence |].
  destruct (Ascii.eqb_spec a "="%char) as [-> | Hne].
  - destruct rest as [|q r]; [congruence |].
    destruct (is_quote q); [| congruence].
    destruct (span (fun c => negb (is_quote c)) r) as [v rest'] eqn:E.
    destruct rest' as [|q' post]; [congruence |]. intros _.
    apply span_stop in E. apply negb_false_iff in E.
    change (String "=" (String q (v +:+ String q' "")))
      with (("=" +:+ String q v) +:+ String q' "").
    rewrite <- append_assoc. now apply ends_nonspace_byte, quote_not_space_end.
  - intros H. exfalso. apply H.
    destruct a as [[] [] [] [] [] [] [] []]; try reflexivity. now destruct Hne.
Qed.

(** *** A match of the expression *)

Lemma toLowerCase_length (s : string) :
  String.length (toLowerCase s) = String.length s.
Proof. induction s as [|x s IH]; simpl; [reflexivity | now rewrite IH]. Qed.

Lemma startsWith_ci_lower (d r : string) :
  startsWith_ci (toLowerCase d) (d +:+ r) = true.
Proof.
  induction d as [|x d IH]; [reflexivity |].
  change (Ascii.eqb (lower_char x) (lower_char x) &&
          startsWith_ci (toLowerCase d) (d +:+ r) = true).
  now rewrite Ascii.eqb_refl.
Qed.

Lemma startsWith_ci_inv (p s : string) :
  startsWith_ci p s = true ->
  exists d r, s = d +:+ r /\ toLowerCase d = p.
Proof.
  revert s. induction p as [|a p IH]; intros s H.
  - now exists "", s.
  - destruct s as [|b s]; [discriminate |].
    change (Ascii.eqb a (lower_char b) && startsWith_ci p s = true) in H.
    apply andb_true_iff in H as [Hb Hs]. apply Ascii.eqb_eq in Hb.
    destruct (IH s Hs) as (d & r & -> & Hd).
    exists (String b d), r. simpl. now rewrite Hd, Hb.
Qed.

Lemma re_data_at (sp d name rest : string) :
  In sp white_space ->
  toLowerCase d = "data-" ->
  name <> "" ->
  chars_all is_name_char name = true ->
  rest = "" \/ (exists c r, rest = String c r /\ is_name_char c = false) ->
  re_data (sp +:+ d +:+ name +:+ rest)
  = Some (MkMatch (sp +:+ d +:+ name +:+ re_data_value rest) "").
Proof.
  intros Hsp Hd Hne Hname Hrest. unfold re_data.
  rewrite (space_width_app sp _ Hsp).
  destruct (white_space_length sp Hsp) as [k Hk]. rewrite Hk.
  rewrite <- Hk, drop_app, take_app.
  rewrite <- Hd at 1. rewrite startsWith_ci_lower.
  assert (Hlen : String.length d = 5)
    by (rewrite <- toLowerCase_length, Hd; reflexivity).
  rewrite <- Hlen, drop_app, take_app.
  assert (Hspan : span is_name_char (name +:+ rest) = (name, rest)).
  { destruct Hrest as [-> | (c & r & -> & Hc)].
    - rewrite append_empty_r. now apply span_all.
    - now apply span_app. }
  rewrite Hspan. destruct name as [|c name]; [congruence | reflexivity].
Qed.

Lemma data_token_trim (sp d name value : string) :
  In sp white_space ->
  toLowerCase d = "data-" ->
  name <> "" ->
  chars_all is_name_char name = true ->
  value = "" \/ (exists rest, value = re_data_value rest) ->
  trim (sp +:+ d +:+ name +:+ value) = d +:+ name +:+ value.
Proof.
  intros Hsp Hd Hne Hname Hvalue. apply trim_after_space; [exact Hsp | |].
  - destruct d as [|b d]; [discriminate |]. injection Hd as Hb _.
    now apply starts_nonspace_byte, letter_d_not_space_start.
  - rewrite <- append_assoc.
    destruct (string_dec value "") as [-> | Hv].
    + rewrite append_empty_r. now apply ends_nonspace_name.
    + destruct Hvalue as [-> | [rest ->]]; [congruence |].
      now apply re_data_value_ends.
Qed.

(** *** What stands before an attribute *)

Lemma app_eq_app (a b c d : string) :
  a +:+ b = c +:+ d ->
  (exists m, a = c +:+ m /\ d = m +:+ b) \/
  (exists m, m <> "" /\ c = a +:+ m /\ b = m +:+ d).
Proof.
  revert c. induction a as [|x a IH]; intros c H.
  - destruct c as [|y c].
    + left. now exists "".
    + right. exists (String y c). simpl in *. now repeat split.
  - destruct c as [|y c].
    + left. exists (String x a). simpl in *. now split.
    + simpl in H. injection H as -> H.
      destruct (IH c H) as [(m & -> & ->) | (m & Hm & -> & ->)].
      * left. now exists m.
      * right. now exists m.
Qed.

(** The bytes of a white-space character after its first byte start no
    white-space character. *)
Lemma white_space_tail (c b m : string) (y : ascii) :
  In c white_space -> c = b +:+ String y m -> b <> "" ->
  forallb (fun w => negb (startsWith (String y "") w)) white_space = true.
Proof.
  intros Hc Hcb Hb. unfold white_space in Hc.
  repeat (destruct Hc as [<- | Hc];
          [destruct b as [|x1 [|x2 [|x3 [|x4 b]]]]; try congruence;
           simpl in Hcb; try discriminate Hcb;
           injection Hcb; intros; subst; reflexivity |]).
  destruct Hc.
Qed.

Lemma white_space_first (sp : string) :
  In sp white_space ->
  exists z sp', sp = String z sp' /\
                ~ In (lower_char z) (list_ascii_of_string "data-").
Proof.
  unfold white_space. intros H.
  repeat (destruct H as [<- | H];
          [eexists; eexists; split; [reflexivity |];
           vm_compute; intros HIn;
           repeat (destruct HIn as [HIn | HIn]; [discriminate HIn |]);
           exact HIn |]).
  destruct H.
Qed.

Lemma startsWith_ci_short (p m : string) (z : ascii) (r : string) :
  startsWith_ci p (m +:+ String z r) = true ->
  startsWith_ci p m = true \/ In (lower_char z) (list_ascii_of_string p).
Proof.
  revert m. induction p as [|a p IH]; intros m H; [now left |].
  destruct m as [|y m].
  - change (Ascii.eqb a (lower_char z) && startsWith_ci p r = true) in H.
    apply andb_true_iff in H as [Hz _]. apply Ascii.eqb_eq in Hz.
    right. left. exact Hz.
  - change (Ascii.eqb a (lower_char y) && startsWith_ci p (m +:+ String z r) = true) in H.
    apply andb_true_iff in H as [Hy Hm].
    destruct (IH m Hm) as [Hl | Hr].
    + left. change (Ascii.eqb a (lower_char y) && startsWith_ci p m = true).
      now rewrite Hy, Hl.
    + right. right. exact Hr.
Qed.

(** No match starts in a text where no white space is followed by [data-],
    whatever attribute follows the text. *)
Lemma re_data_before (b sp rest : string) :
  b <> "" -> In sp white_space -> data_start b = false ->
  re_data (b +:+ sp +:+ rest) = None.
Proof.
  intros Hb Hsp Hdata. unfold re_data.
  destruct (space_width (b +:+ sp +:+ rest)) as [|k] eqn:E; [reflexivity |].
  destruct (space_width_pos _ _ E) as (c & r & Hc & Hs & Hk).
  destruct (app_eq_app _ _ _ _ Hs) as [(m & Hbm & Hr) | (m & Hm & Hcm & Hr)].
  - replace (drop (S k) (b +:+ sp +:+ rest)) with (m +:+ sp +:+ rest)
      by (rewrite Hs, <- Hk, drop_app; now rewrite Hr).
    replace (startsWith_ci "data-" (m +:+ sp +:+ rest)) with false; [reflexivity |].
    symmetry. destruct (startsWith_ci "data-" (m +:+ sp +:+ rest)) eqn:Ed;
      [| reflexivity].
    exfalso. destruct (white_space_first sp Hsp) as (z & sp' & -> & Hz).
    change (String z sp' +:+ rest) with (String z (sp' +:+ rest)) in Ed.
    destruct (startsWith_ci_short _ _ _ _ Ed) as [Hl | Hr']; [| now apply Hz].
    unfold data_start in Hdata. rewrite Hbm, (space_width_app c m Hc), Hk in Hdata.
    rewrite <- Hk, drop_app in Hdata. congruence.
  - exfalso. destruct m as [|y m]; [congruence |].
    pose proof (white_space_tail c b m y Hc Hcm Hb) as Hy.
    rewrite forallb_forall in Hy. specialize (Hy sp Hsp).
    destruct sp as [|z sp']; [now destruct (white_space_length "" Hsp) |].
    simpl in Hr. injection Hr as -> _. simpl in Hy.
    now rewrite Ascii.eqb_refl in Hy.
Qed.

Lemma matchAll_data_before (pre sp rest : string) :
  no_data_start pre = true -> In sp white_space ->
  matchAll re_data (pre +:+ sp +:+ rest) = matchAll re_data (sp +:+ rest).
Proof.
  intros Hpre Hsp. unfold matchAll. induction pre as [|x pre IH]; [reflexivity |].
  change (no_data_start (String x pre))
    with (negb (data_start (String x pre)) && no_data_start pre) in Hpre.
  apply andb_true_iff in Hpre as [Hx Hpre]. apply negb_true_iff in Hx.
  change (String x pre +:+ sp +:+ rest) with (String x (pre +:+ sp +:+ rest)).
  rewrite matchAll_from_cons.
  change (String x (pre +:+ sp +:+ rest)) with (String x pre +:+ sp +:+ rest).
  rewrite re_data_before; [now apply IH | discriminate | exact Hsp | exact Hx].
Qed.

(** The token of a data attribute that stands after a text without the
    start of any, and the tokens after it. *)
Lemma data_attribute_token (pre sp d name rest : string) :
  no_data_start pre = true ->
  In sp white_space ->
  toLowerCase d = "data-" ->
  name <> "" ->
  chars_all is_name_char name = true ->
  rest = "" \/ (exists c r, rest = String c r /\ is_name_char c = false) ->
  extract_data (pre +:+ sp +:+ d +:+ name +:+ rest)
  = (d +:+ name +:+ re_data_value rest)
    :: extract_data (drop (String.length (re_data_value rest)) rest).
Proof.
  intros Hpre Hsp Hd Hne Hname Hrest. unfold extract_data.
  rewrite matchAll_data_before by assumption.
  set (m := MkMatch (sp +:+ d +:+ name +:+ re_data_value rest) "").
  set (post := drop (String.length (re_data_value rest)) rest).
  assert (Hw : sp +:+ d +:+ name +:+ rest = whole m +:+ post).
  { unfold m, post. cbn [whole]. rewrite !append_assoc.
    now rewrite <- re_data_value_prefix. }
  rewrite Hw, matchAll_match.
  - cbn [map]. f_equal. unfold m. cbn [whole].
    apply data_token_trim; try assumption.
    right. now exists rest.
  - unfold m. cbn [whole]. destruct (white_space_length sp Hsp) as [k Hk].
    destruct sp; [discriminate | discriminate].
  - rewrite <- Hw. now apply re_data_at.
Qed.

(** C3, as amended.  Take a data attribute in a markup: white space, then
    [data-] in some letter case and a name, standing after a text in which
    no white space is followed by [data-].  Its token is the text the
    expression matched, without the white space before it.  When an equals
    sign, a quote character, a text without quote characters and one more
    quote character of either kind follow the name, the token is the name
    with all of these, and the scan goes on after them; two such markups
    that differ in that text give different lists of tokens.  When no such
    quoted value follows the name, the token is the name alone. *)
Theorem data_token_keeps_value (pre sp d name : string) :
  no_data_start pre = true ->
  In sp white_space ->
  toLowerCase d = "data-" ->
  name <> "" ->
  chars_all is_name_char name = true ->
  (forall q value q' post,
     is_quote q = true -> is_quote q' = true ->
     chars_all (fun c => negb (is_quote c)) value = true ->
     extract_data (pre +:+ sp +:+ d +:+ name +:+ "=" +:+ String q value +:+
                   String q' post)
     = (d +:+ name +:+ "=" +:+ String q value +:+ String q' "")
       :: extract_data post) /\
  (forall q value value' q' post,
     is_quote q = true -> is_quote q' = true ->
     chars_all (fun c => negb (is_quote c)) value = true ->
     chars_all (fun c => negb (is_quote c)) value' = true ->
     value <> value' ->
     extract_data (pre +:+ sp +:+ d +:+ name +:+ "=" +:+ String q value +:+
                   String q' post)
     <> extract_data (pre +:+ sp +:+ d +:+ name +:+ "=" +:+ String q value' +:+
                      String q' post)) /\
  (forall rest,
     rest = "" \/ (exists c r, rest = String c r /\ is_name_char c = false) ->
     (forall q value q' post, is_quote q = true -> is_quote q' = true ->
        rest <> "=" +:+ String q value +:+ String q' post) ->
     extract_data (pre +:+ sp +:+ d +:+ name +:+ rest)
     = (d +:+ name) :: extract_data rest).
Proof.
  intros Hpre Hsp Hd Hne Hname.
  assert (Hquoted : forall q value q' post,
     is_quote q = true -> is_quote q' = true ->
     chars_all (fun c => negb (is_quote c)) value = true ->
     extract_data (pre +:+ sp +:+ d +:+ name +:+ "=" +:+ String q value +:+
                   String q' post)
     = (d +:+ name +:+ "=" +:+ String q value +:+ String q' "")
       :: extract_data post).
  { intros q value q' post Hq Hq' Hv.
    rewrite (data_attribute_token pre sp d name
               ("=" +:+ String q value +:+ String q' post)); try assumption.
    - rewrite (re_data_value_quoted q q' value post Hq Hq' Hv).
      f_equal. f_equal.
      replace ("=" +:+ String q value +:+ String q' post)
        with (("=" +:+ String q value +:+ String q' "") +:+ post)
        by (simpl; rewrite append_assoc; reflexivity).
      now rewrite drop_app.
    - right. exists "="%char, (String q value +:+ String q' post).
      split; reflexivity. }
  split; [exact Hquoted |]. split.
  - intros q value value' q' post Hq Hq' Hv Hv' Hdiff.
    rewrite !Hquoted by assumption. intros [= H]. apply Hdiff.
    apply append_cancel_l in H. apply append_cancel_l in H.
    simpl in H. injection H as H.
    now apply (append_cancel_r _ _ (String q' "")).
  - intros rest Hrest Hnone.
    rewrite (data_attribute_token pre sp d name rest); try assumption.
    rewrite (re_data_value_none rest Hnone). simpl drop.
    now rewrite append_empty_r.
Qed.

Lemma data_token_keeps_value_witness :
  extract_data "<div class='a' data-role='a'>" = ["data-role='a'"] /\
  extract_data "<div class='a' data-role>" = ["data-role"].
Proof.
  destruct (data_token_keeps_value "<div class='a'" " " "data-" "role")
    as (H1 & _ & H3).
  - vm_compute. reflexivity.
  - do 5 right. left. reflexivity.
  - reflexivity.
  - discriminate.
  - reflexivity.
  - split.
    + apply (H1 squote "a" squote ">"); reflexivity.
    + apply (H3 ">").
      * right. exists ">"%char, "". split; reflexivity.
      * intros q value q' post _ _. discriminate.
Defined.

(** C3, as stated, fails: two markups that differ only in the value of
    [data-role] give different tokens, and neither token is the name. *)
Lemma data_token_depends_on_value :
  extract_data "<div data-role='a'>" = ["data-role='a'"] /\
  extract_data "<div data-role='b'>" = ["data-role='b'"] /\
  defaultExtractor "<div data-role='a'>" = ["div"; "data-role='a'"] /\
  defaultExtractor "<div data-role='b'>" = ["div"; "data-role='b'"] /\
  extract_data "<div data-role='a'>" <> extract_data "<div data-role='b'>" /\
  ~ In "data-role" (defaultExtractor "<div data-role='a'>").
Proof.
  repeat split; try reflexivity.
  - vm_compute. discriminate.
  - vm_compute. intros [H | [H | []]]; discriminate.
Qed.

(** ** Computations that only read *)

Lemma reads_only_ret {A} (a : A) : reads_only (ret a).
Proof. intros w1 w2 H. now split. Qed.

Lemma reads_only_lift {A} (r : result A) : reads_only (lift r).
Proof. intros w1 w2 H. now split. Qed.

Lemma reads_only_emit (e : event) : reads_only (emit e).
Proof. intros w1 w2 H. now split. Qed.

Lemma reads_only_bind {A B} (m : io A) (k : A -> io B) :
  reads_only m -> (forall a, reads_only (k a)) -> reads_only (bind m k).
Proof.
  intros Hm Hk w1 w2 H. unfold bind.
  destruct (Hm w1 w2 H) as [Hr Hf1]. destruct (Hm w2 w1 (eq_sym H)) as [_ Hf2].
  destruct (m w1) as [w1' r1], (m w2) as [w2' r2]. simpl in *. subst r2.
  destruct r1 as [a | e]; simpl.
  - assert (Hw : files w1' = files w2') by congruence.
    destruct (Hk a w1' w2' Hw) as [Hr' Hf']. split; congruence.
  - split; congruence.
Qed.

Lemma reads_only_try_catch {A} (m : io A) (h : string -> io A) :
  reads_only m -> (forall e, reads_only (h e)) -> reads_only (try_catch m h).
Proof.
  intros Hm Hh w1 w2 H. unfold try_catch.
  destruct (Hm w1 w2 H) as [Hr Hf1]. destruct (Hm w2 w1 (eq_sym H)) as [_ Hf2].
  destruct (m w1) as [w1' r1], (m w2) as [w2' r2]. simpl in *. subst r2.
  destruct r1 as [a | e]; simpl.
  - split; congruence.
  - assert (Hw : files w1' = files w2') by congruence.
    destruct (Hh e w1' w2' Hw) as [Hr' Hf']. split; congruence.
Qed.

Section ReadOnly.
Variable env : Collab.
Variable cfg : Config.

Lemma reads_only_log (msg : string) : reads_only (log cfg msg).
Proof. unfold log. destruct (verbose cfg); [apply reads_only_emit | apply reads_only_ret]. Qed.

Lemma reads_only_readFile (p : string) : reads_only (readFile env p).
Proof.
  intros w1 w2 H. unfold readFile. rewrite H.
  destruct (files w2 !! file_key env p); now split.
Qed.

Lemma reads_only_read_stylesheet (href url : string) :
  reads_only (read_stylesheet env cfg href url).
Proof.
  unfold read_stylesheet.
  destruct (if re_http url then None else or_null (inputPath cfg)).
  - apply reads_only_bind; [apply reads_only_log | intros _].
    apply reads_only_try_catch; [apply reads_only_readFile | intros _; apply reads_only_ret].
  - apply reads_only_bind; [apply reads_only_log | intros _; apply reads_only_lift].
Qed.

Lemma reads_only_load_link (link : node) : reads_only (load_link env cfg link).
Proof.
  unfold load_link. apply reads_only_bind; [apply reads_only_lift |].
  intros [url |]; [| apply reads_only_ret].
  destruct (truthy url); [| apply reads_only_ret].
  apply reads_only_bind; [apply reads_only_read_stylesheet |].
  intros css. destruct (truthy css); apply reads_only_ret.
Qed.

(** The loop over the links pushes what the links contribute, in order. *)
Lemma gather_linked_ok (w0 : world) (links : list node) :
  forall (texts : list (option string)) (acc : list string) (w : world),
    files w = files w0 ->
    Forall2 (fun l t => snd (load_link env cfg l w0) = Ok t) links texts ->
    exists w',
      gather_linked env cfg links acc w = (w', Ok (acc ++ contributed links texts)) /\
      files w' = files w.
Proof.
  induction links as [|l links IH]; intros texts acc w Hw HF.
  - inversion HF; subst. exists w. simpl. now rewrite app_nil_r.
  - inversion HF as [| l' t links' texts' Ht HF']; subst.
    destruct (reads_only_load_link l w w0 Hw) as [Hr Hf].
    simpl. unfold bind at 1.
    destruct (load_link env cfg l w) as [w1 r] eqn:E. simpl in Hr, Hf.
    rewrite Ht in Hr. subst r.
    assert (Hw1 : files w1 = files w0) by congruence.
    destruct t as [css |].
    + destruct (IH texts' (acc ++ [media_part (media_of l) css]) w1 Hw1 HF')
        as [w' [Hg Hf']].
      exists w'. rewrite Hg, <- app_assoc. split; [reflexivity | congruence].
    + destruct (IH texts' acc w1 Hw1 HF') as [w' [Hg Hf']].
      exists w'. split; [exact Hg | congruence].
Qed.
End ReadOnly.

(** ** C5 and C6: order and media wrapping *)

Lemma occurs_in_order_prefix (x : string) (parts : list string) (s : string) :
  occurs_in_order parts s -> occurs_in_order parts (x +:+ s).
Proof.
  destruct parts as [|p ps]; simpl; [trivial |].
  intros [pre [post [-> H]]]. exists (x +:+ pre), post.
  split; [now rewrite append_assoc | exact H].
Qed.

Lemma occurs_in_order_join (sep : string) (texts parts : list string) :
  Forall2 (fun t p => exists a b, p = a +:+ t +:+ b) texts parts ->
  occurs_in_order texts (join sep parts).
Proof.
  induction 1 as [| t p ts ps [a [b ->]] HF IH]; simpl; [trivial |].
  destruct ps as [|p' ps'].
  - inversion HF; subst. exists a, b. split; [reflexivity | exact I].
  - exists a, (b +:+ sep +:+ join sep (p' :: ps')). split.
    + now rewrite !append_assoc.
    + rewrite <- append_assoc. apply occurs_in_order_prefix. exact IH.
Qed.

Lemma media_part_contains (media css : string) :
  exists a b, media_part media css = a +:+ css +:+ b.
Proof.
  unfold media_part.
  destruct (truthy media && negb (String.eqb (toLowerCase media) "all")).
  - exists ("@media " +:+ media +:+ "{" +:+ nl), (nl +:+ "}").
    now rewrite !append_assoc.
  - exists "", "". simpl. now rewrite append_empty_r.
Qed.

Lemma contributed_contains (links : list node) :
  forall texts, length links = length texts ->
    Forall2 (fun t p => exists a b, p = a +:+ t +:+ b)
            (omap id texts) (contributed links texts).
Proof.
  induction links as [|l links IH]; intros [|t texts] Hlen; simpl in *;
    try discriminate; [constructor |].
  destruct t as [css |]; simpl.
  - constructor; [apply media_part_contains | apply IH; lia].
  - apply IH; lia.
Qed.

Lemma same_contains (l : list string) :
  Forall2 (fun t p => exists a b, p = a +:+ t +:+ b) l l.
Proof.
  induction l as [|x l IH]; constructor; [| exact IH].
  exists "", "". simpl. now rewrite append_empty_r.
Qed.

(** C5.  When the content of every linked stylesheet is obtained ([None]
    for a link that is passed over), the aggregate holds the texts of the
    contributing stylesheets in the order of their links, and after them the
    contents of the style blocks in document order. *)
Theorem aggregate_preserves_order (env : Collab) (cfg : Config) (doc : document)
    (w : world) (texts : list (option string)) :
  Forall2 (fun link t => snd (load_link env cfg link w) = Ok t)
          (querySelectorAll sel_stylesheet_link doc) texts ->
  exists w' css,
    gatherCss env cfg doc w = (w', Ok css) /\
    occurs_in_order
      (omap id texts ++ map textContent (querySelectorAll sel_style doc)) css.
Proof.
  intros HF.
  destruct (gather_linked_ok env cfg w _ texts [] w eq_refl HF) as [w' [Hg _]].
  unfold gatherCss, bind. rewrite Hg. simpl.
  eexists _, _. split; [reflexivity |].
  apply occurs_in_order_join. apply Forall2_app.
  - apply contributed_contains. eapply Forall2_length; eassumption.
  - apply same_contains.
Qed.

Lemma aggregate_preserves_order_witness :
  exists w' css,
    gatherCss (demo_env (fun _ => order_page) true 0) (demo_cfg false "slim.html")
              order_page empty_world = (w', Ok css) /\
    occurs_in_order ["b{color:red}"; "c{color:blue}"; "p{margin:0}"; "i{top:0}"] css.
Proof.
  apply (aggregate_preserves_order
           (demo_env (fun _ => order_page) true 0) (demo_cfg false "slim.html")
           order_page empty_world [Some "b{color:red}"; Some "c{color:blue}"]).
  repeat constructor.
Defined.

Lemma contributed_app (before : list node) :
  forall tb link css after ta,
    length before = length tb ->
    contributed (before ++ link :: after) (tb ++ Some css :: ta) =
    contributed before tb ++ media_part (media_of link) css :: contributed after ta.
Proof.
  induction before as [|l before IH]; intros [|t tb] link css after ta Hlen;
    simpl in *; try discriminate; [reflexivity |].
  destruct t; simpl; rewrite IH by lia; reflexivity.
Qed.

Lemma contributed_length (links : list node) :
  forall texts, length links = length texts ->
    length (contributed links texts) = length (omap id texts).
Proof.
  induction links as [|l links IH]; intros [|t texts] Hlen; simpl in *;
    try discriminate; [reflexivity |].
  destruct t; simpl; rewrite IH by lia; reflexivity.
Qed.

(** C6, as amended.  A linked stylesheet that contributes the text [css]
    contributes it, at its place among the parts of the aggregate, wrapped
    as [@media m{ css }] (with a line break after the opening and before the
    closing brace) when [m], its media attribute without the white space
    around it, is not empty and is not the word all in whatever letter case;
    it contributes [css] itself when there is no media attribute, when [m]
    is empty, or when [m] is the word all in whatever letter case. *)
Theorem media_wrapping (env : Collab) (cfg : Config) (doc : document) (w : world)
    (before after : list node) (link : node)
    (tb ta : list (option string)) (css : string) :
  querySelectorAll sel_stylesheet_link doc = before ++ link :: after ->
  Forall2 (fun l t => snd (load_link env cfg l w) = Ok t) before tb ->
  snd (load_link env cfg link w) = Ok (Some css) ->
  Forall2 (fun l t => snd (load_link env cfg l w) = Ok t) after ta ->
  exists w' pb part pa,
    gatherCss env cfg doc w = (w', Ok (join (nl +:+ nl) (pb ++ part :: pa))) /\
    length pb = length (omap id tb) /\
    (trim (attr_or_empty "media" link) <> "" ->
     toLowerCase (trim (attr_or_empty "media" link)) <> "all" ->
     part = "@media " +:+ trim (attr_or_empty "media" link) +:+ "{" +:+ nl +:+
            css +:+ nl +:+ "}") /\
    (trim (attr_or_empty "media" link) = "" \/
     toLowerCase (trim (attr_or_empty "media" link)) = "all" ->
     part = css).
Proof.
  intros Hq Hb Hl Ha.
  assert (HF : Forall2 (fun l t => snd (load_link env cfg l w) = Ok t)
                 (querySelectorAll sel_stylesheet_link doc) (tb ++ Some css :: ta)).
  { rewrite Hq. apply Forall2_app; [exact Hb | constructor; assumption]. }
  destruct (gather_linked_ok env cfg w _ _ [] w eq_refl HF) as [w' [Hg _]].
  assert (Hlen : length before = length tb) by (eapply Forall2_length; eassumption).
  rewrite Hq, contributed_app in Hg by exact Hlen. simpl in Hg.
  exists w', (contributed before tb), (media_part (media_of link) css),
    (contributed after ta ++ map textContent (querySelectorAll sel_style doc)).
  split; [| split; [| split]].
  - unfold gatherCss, bind. rewrite Hq, Hg. simpl. now rewrite <- app_assoc.
  - now apply contributed_length.
  - intros H1 H2. unfold media_part, media_of.
    apply truthy_true in H1. rewrite H1.
    destruct (String.eqb_spec (toLowerCase (trim (attr_or_empty "media" link))) "all");
      [contradiction | reflexivity].
  - intros [H | H]; unfold media_part, media_of.
    + rewrite H. reflexivity.
    + rewrite H. simpl. now rewrite andb_false_r.
Qed.

Lemma media_wrapping_witness :
  exists w' pb part pa,
    gatherCss (demo_env (fun _ => order_page) true 0) (demo_cfg false "slim.html")
              order_page empty_world
    = (w', Ok (join (nl +:+ nl) (pb ++ part :: pa))) /\
    length pb = 0 /\
    part = "@media print{" +:+ nl +:+ "b{color:red}" +:+ nl +:+ "}".
Proof.
  destruct (media_wrapping
              (demo_env (fun _ => order_page) true 0) (demo_cfg false "slim.html")
              order_page empty_world
              [] [stylesheet_link "c.css" []]
              (stylesheet_link "b.css" [("media", "print")])
              [] [Some "c{color:blue}"] "b{color:red}")
    as [w' [pb [part [pa [Hg [Hlen [Hwrap _]]]]]]].
  - reflexivity.
  - constructor.
  - reflexivity.
  - repeat constructor.
  - exists w', pb, part, pa. split; [exact Hg | split; [exact Hlen |]].
    apply Hwrap; vm_compute; discriminate.
Defined.

(** C6, as stated, fails: a media attribute [ALL], and an empty one, are
    present and are not the text [all], and the stylesheet is included
    unwrapped. *)
Lemma media_attribute_present_but_unwrapped :
  getAttribute "media" (stylesheet_link "b.css" [("media", "ALL")]) = Some "ALL" /\
  "ALL" <> "all" /\
  gatherCss (demo_env (fun _ => media_page "ALL") true 0) (demo_cfg false "slim.html")
            (media_page "ALL") empty_world
  = (empty_world, Ok "b{color:red}") /\
  getAttribute "media" (stylesheet_link "b.css" [("media", "")]) = Some "" /\
  gatherCss (demo_env (fun _ => media_page "") true 0) (demo_cfg false "slim.html")
            (media_page "") empty_world
  = (empty_world, Ok "b{color:red}") /\
  gatherCss (demo_env (fun _ => media_page "print") true 0) (demo_cfg false "slim.html")
            (media_page "print") empty_world
  = (empty_world, Ok ("@media print{" +:+ nl +:+ "b{color:red}" +:+ nl +:+ "}")).
Proof.
  repeat split; try reflexivity. discriminate.
Qed.

(** The links are selected by the words of [rel] in whatever letter case,
    the words being set apart by white space of every kind; and the media
    attribute loses the white space around it, of the ASCII range or not. *)
Lemma gathering_letter_case_and_white_space :
  sel_stylesheet_link (Element "link" [("rel", "Stylesheet"); ("href", "b.css")] [])
  = true /\
  sel_stylesheet_link
    (Element "link" [("rel", "alternate" +:+ bytes [194; 160] +:+ "STYLESHEET")] [])
  = true /\
  sel_stylesheet_link (Element "link" [("rel", "stylesheets")] []) = false /\
  media_of (stylesheet_link "b.css"
              [("media", bytes [194; 160] +:+ "all" +:+ bytes [194; 160])])
  = "all" /\
  gatherCss (demo_env (fun _ => media_page "print") true 0) (demo_cfg false "slim.html")
            (media_page (bytes [194; 160] +:+ "All" +:+ bytes [226; 128; 168]))
            empty_world
  = (empty_world, Ok "b{color:red}") /\
  gatherCss (demo_env (fun _ => media_page "print") true 0) (demo_cfg false "slim.html")
            (media_page (bytes [239; 187; 191] +:+ "print" +:+ bytes [194; 160]))
            empty_world
  = (empty_world, Ok ("@media print{" +:+ nl +:+ "b{color:red}" +:+ nl +:+ "}")).
Proof. repeat split; vm_compute; reflexivity. Qed.

(** ** C1: a stylesheet that cannot be obtained *)

(** A local stylesheet that cannot be read is passed over. *)
Lemma unreadable_local_stylesheet_skipped (env : Collab) (cfg : Config)
    (link : node) (url inp : string) (w : world) :
  absUrl env (attr_or_empty "href" link) (baseUrl cfg) = Ok (Some url) ->
  truthy url = true ->
  re_http url = false ->
  or_null (inputPath cfg) = Some inp ->
  files w !! file_key env
    (path_resolve env [path_dirname env inp;
                       hd "" (split "?"%char (attr_or_empty "href" link))]) = None ->
  snd (load_link env cfg link w) = Ok None.
Proof.
  intros Habs Hurl Hhttp Hinp Hfile.
  unfold load_link, bind, lift. rewrite Habs, Hurl.
  unfold read_stylesheet. rewrite Hhttp, Hinp.
  unfold bind, try_catch, log, readFile.
  destruct (verbose cfg); simpl; rewrite Hfile; reflexivity.
Qed.

(** A stylesheet whose fetch is rejected ends the loop with the rejection. *)
Lemma rejected_fetch_propagates (env : Collab) (cfg : Config)
    (link : node) (rest : list node) (acc : list string)
    (url e : string) (w : world) :
  absUrl env (attr_or_empty "href" link) (baseUrl cfg) = Ok (Some url) ->
  truthy url = true ->
  re_http url = true \/ or_null (inputPath cfg) = None ->
  fetch_text env url = Throw e ->
  snd (gather_linked env cfg (link :: rest) acc w) = Throw e.
Proof.
  intros Habs Hurl Hnet Hfetch.
  assert (Hsel : (if re_http url then None else or_null (inputPath cfg)) = None).
  { destruct Hnet as [-> | ->]; [reflexivity | now destruct (re_http url)]. }
  simpl. unfold load_link, bind, lift. rewrite Habs, Hurl.
  unfold read_stylesheet. rewrite Hsel.
  unfold bind, log, lift. destruct (verbose cfg); simpl; rewrite Hfetch; reflexivity.
Qed.

(** C1, at a failing input.  A page fetched from the network links [a.css],
    whose fetch is rejected, and [b.css], which can be fetched: the
    aggregation ends with the rejection and the run ends with exit code 1
    and nothing written; in the sibling case of a page read from a local
    file whose stylesheets are missing, the links are passed over and the
    aggregate holds the style block. *)
Theorem unreachable_stylesheet_aborts_run :
  fetch_text (demo_env (fun _ => two_links_page) true 0) "https://example.com/a.css"
  = Throw "request to https://example.com/a.css failed" /\
  snd (load_link (demo_env (fun _ => two_links_page) true 0) (demo_cfg false "slim.html")
                 (stylesheet_link "b.css" [("media", "print")]) empty_world)
  = Ok (Some "b{color:red}") /\
  gatherCss (demo_env (fun _ => two_links_page) true 0) (demo_cfg false "slim.html")
            two_links_page empty_world
  = (empty_world, Throw "request to https://example.com/a.css failed") /\
  main (demo_env (fun _ => two_links_page) true 0) (demo_cfg false "slim.html")
       empty_world
  = (World ∅ [ConsoleError "Failed: request to https://example.com/a.css failed"], 1) /\
  gatherCss (demo_env (fun _ => two_links_page) true 0) local_cfg
            two_links_page empty_world
  = (empty_world, Ok "p{margin:0}").
Proof. repeat split; vm_compute; reflexivity. Qed.

(** ** The document tree *)

Lemma node_ind' (P : node -> Prop) :
  (forall d, P (Text d)) ->
  (forall t a cs, Forall P cs -> P (Element t a cs)) ->
  forall n, P n.
Proof.
  intros HT HE. fix IH 1. intros [t a cs | d]; [apply HE | apply HT].
  induction cs as [|c cs IHcs]; constructor; [apply IH | exact IHcs].
Qed.

Lemma select_element (q : node -> bool) (t : string) (a : list (string * string))
    (cs : list node) :
  select q (Element t a cs) =
  (if q (Element t a cs) then [Element t a cs] else []) ++ flat_map (select q) cs.
Proof. reflexivity. Qed.

Lemma remove_in_element (r : node -> bool) (t : string) (a : list (string * string))
    (cs : list node) :
  remove_in r (Element t a cs) =
  if r (Element t a cs) then [] else [Element t a (flat_map (remove_in r) cs)].
Proof. reflexivity. Qed.

Lemma flat_map_singleton {A B} (f : A -> list B) (x : A) : flat_map f [x] = f x.
Proof. simpl. apply app_nil_r. Qed.


(** Selecting in what a removal leaves, node by node. *)
Lemma select_remove_all (q r : node -> bool) (l : list node) :
  flat_map (select q) (flat_map (remove_in r) l) =
  flat_map (fun n => flat_map (select q) (remove_in r n)) l.
Proof.
  induction l as [|n l IH]; simpl; [reflexivity |].
  now rewrite flat_map_app, IH.
Qed.

(** After the removal of [r], nothing matches a selector that [r] covers. *)
Lemma removed_none_left (q r : node -> bool) :
  shallow q -> shallow r ->
  (forall n, q n = true -> r n = true) ->
  forall n, flat_map (select q) (remove_in r n) = [].
Proof.
  intros [Hq0 Hq] [Hr0 Hr] Hqr. induction n as [d | t a cs IH] using node_ind'.
  - simpl. rewrite Hr0. simpl. reflexivity.
  - rewrite remove_in_element.
    destruct (r (Element t a cs)) eqn:Er; [reflexivity |].
    rewrite flat_map_singleton, select_element.
    rewrite (Hq t a _ cs).
    destruct (q (Element t a cs)) eqn:Eq; [apply Hqr in Eq; congruence |].
    simpl. rewrite select_remove_all. clear Er Eq.
    induction IH as [| c cs' Hc _ IHcs]; simpl; [reflexivity |].
    now rewrite Hc, IHcs.
Qed.

Lemma removed_none_left_doc (q r : node -> bool) (doc : document) :
  shallow q -> shallow r ->
  (forall n, q n = true -> r n = true) ->
  count q (remove_all r doc) = 0.
Proof.
  intros Hq Hr Hqr. unfold count, querySelectorAll, remove_all.
  rewrite select_remove_all.
  induction doc as [|n doc IH]; simpl; [reflexivity |].
  now rewrite (removed_none_left q r Hq Hr Hqr n).
Qed.

(** A removal adds no match. *)
Lemma removal_count_le (q r : node -> bool) :
  shallow q ->
  forall n, length (flat_map (select q) (remove_in r n)) <= length (select q n).
Proof.
  intros [Hq0 Hq]. induction n as [d | t a cs IH] using node_ind'.
  - simpl. destruct (r (Text d)); simpl; lia.
  - rewrite remove_in_element.
    destruct (r (Element t a cs)) eqn:Er; [simpl; lia |].
    rewrite flat_map_singleton, !select_element, !length_app.
    rewrite (Hq t a _ cs).
    assert (Hcs : length (flat_map (select q) (flat_map (remove_in r) cs))
                  <= length (flat_map (select q) cs)).
    { rewrite select_remove_all. clear Er.
      induction IH as [| c cs' Hc _ IHcs]; simpl; [lia |].
      rewrite !length_app. lia. }
    destruct (q (Element t a cs)); simpl; lia.
Qed.

Lemma removal_count_le_doc (q r : node -> bool) (doc : document) :
  shallow q -> count q (remove_all r doc) <= count q doc.
Proof.
  intros Hq. unfold count, querySelectorAll, remove_all.
  rewrite select_remove_all.
  induction doc as [|n doc IH]; simpl; [lia |].
  rewrite !length_app. pose proof (removal_count_le q r Hq n). lia.
Qed.

Lemma no_elements_no_match (q : node -> bool) (cs : list node) :
  forallb (fun c => negb (is_element c)) cs = true ->
  flat_map (select q) cs = [].
Proof.
  induction cs as [|c cs IH]; simpl; [reflexivity |].
  intros H. apply andb_true_iff in H as [Hc Hcs].
  destruct c; [discriminate |]. simpl. now apply IH.
Qed.

(** A removal of [link] and [script] elements keeps what matches a selector
    that matches none of the removed elements. *)
Lemma removal_keeps_count (q r : node -> bool) :
  shallow q -> shallow r ->
  (forall n, r n = true -> q n = false) ->
  (forall n, r n = true -> tag_of n = "link" \/ tag_of n = "script") ->
  forall n, void_links_and_scripts n = true ->
    length (flat_map (select q) (remove_in r n)) = length (select q n).
Proof.
  intros [Hq0 Hq] [Hr0 Hr] Hrq Htag.
  induction n as [d | t a cs IH] using node_ind'; intros Hvoid.
  - simpl. rewrite Hr0. reflexivity.
  - rewrite remove_in_element. simpl in Hvoid.
    apply andb_true_iff in Hvoid as [Hleaf Hvoid].
    destruct (r (Element t a cs)) eqn:Er.
    + rewrite select_element, (Hrq _ Er). simpl.
      destruct (Htag _ Er) as [Ht | Ht]; simpl in Ht; subst t; simpl in Hleaf;
        now rewrite (no_elements_no_match q cs Hleaf).
    + rewrite flat_map_singleton, !select_element, !length_app.
      rewrite (Hq t a _ cs).
      assert (Hcs : length (flat_map (select q) (flat_map (remove_in r) cs))
                    = length (flat_map (select q) cs)).
      { rewrite select_remove_all. clear Hleaf Er.
        induction IH as [| c cs' Hc _ IHcs]; simpl; [reflexivity |].
        simpl in Hvoid. apply andb_true_iff in Hvoid as [Hv1 Hv2].
        rewrite !length_app, (Hc Hv1), (IHcs Hv2). reflexivity. }
      destruct (q (Element t a cs)); simpl; lia.
Qed.

Lemma removal_keeps_count_doc (q r : node -> bool) (doc : document) :
  shallow q -> shallow r ->
  (forall n, r n = true -> q n = false) ->
  (forall n, r n = true -> tag_of n = "link" \/ tag_of n = "script") ->
  forallb void_links_and_scripts doc = true ->
  count q (remove_all r doc) = count q doc.
Proof.
  intros Hq Hr Hrq Htag Hvoid. unfold count, querySelectorAll, remove_all.
  rewrite select_remove_all.
  induction doc as [|n doc IH]; simpl; [reflexivity |].
  simpl in Hvoid. apply andb_true_iff in Hvoid as [Hv1 Hv2].
  rewrite !length_app, (removal_keeps_count q r Hq Hr Hrq Htag n Hv1), (IH Hv2).
  reflexivity.
Qed.

(** What a removal leaves still has void [link] and [script] elements. *)
Lemma removal_keeps_void (r : node -> bool) :
  forall n, void_links_and_scripts n = true ->
    forallb void_links_and_scripts (remove_in r n) = true.
Proof.
  induction n as [d | t a cs IH] using node_ind'; intros Hvoid.
  - simpl. destruct (r (Text d)); reflexivity.
  - rewrite remove_in_element. destruct (r (Element t a cs)); [reflexivity |].
    simpl in *. apply andb_true_iff in Hvoid as [Hleaf Hvoid].
    rewrite andb_true_r. apply andb_true_iff. split.
    + destruct (String.eqb t "link" || String.eqb t "script"); [| reflexivity].
      clear IH Hvoid. induction cs as [|c cs IHcs]; simpl in *; [reflexivity |].
      apply andb_true_iff in Hleaf as [Hc Hcs].
      destruct c; [discriminate |]. simpl.
      destruct (r (Text data)); simpl; now apply IHcs.
    + clear Hleaf. induction IH as [| c cs' Hc _ IHcs]; simpl; [reflexivity |].
      simpl in Hvoid. apply andb_true_iff in Hvoid as [Hv1 Hv2].
      rewrite forallb_app, (Hc Hv1), (IHcs Hv2). reflexivity.
Qed.

Lemma removal_keeps_void_doc (r : node -> bool) (doc : document) :
  forallb void_links_and_scripts doc = true ->
  forallb void_links_and_scripts (remove_all r doc) = true.
Proof.
  unfold remove_all. induction doc as [|n doc IH]; simpl; [reflexivity |].
  intros H. apply andb_true_iff in H as [H1 H2].
  rewrite forallb_app, (removal_keeps_void r n H1), (IH H2). reflexivity.
Qed.

(** ** The head of the document *)

Lemma find_split {A} (p : A -> bool) (l : list A) (x : A) :
  List.find p l = Some x ->
  exists l1 l2, l = l1 ++ x :: l2 /\
                forallb (fun y => negb (p y)) l1 = true /\ p x = true.
Proof.
  induction l as [|y l IH]; simpl; [discriminate |].
  destruct (p y) eqn:E.
  - intros [= ->]. exists [], l. now repeat split.
  - intros H. destruct (IH H) as [l1 [l2 [-> [H1 H2]]]].
    exists (y :: l1), l2. simpl. rewrite E. now repeat split.
Qed.

Lemma find_middle {A} (p : A -> bool) (l1 l2 : list A) (x : A) :
  forallb (fun y => negb (p y)) l1 = true -> p x = true ->
  List.find p (l1 ++ x :: l2) = Some x.
Proof.
  intros H1 H2. induction l1 as [|y l1 IH]; simpl in *.
  - now rewrite H2.
  - apply andb_true_iff in H1 as [Hy H1].
    destruct (p y); [discriminate | now apply IH].
Qed.

Lemma update_first_middle (p : node -> bool) (g : node -> node)
    (l1 l2 : list node) (x : node) :
  forallb (fun y => negb (p y)) l1 = true -> p x = true ->
  update_first p g (l1 ++ x :: l2) = l1 ++ g x :: l2.
Proof.
  intros H1 H2. induction l1 as [|y l1 IH]; simpl in *.
  - now rewrite H2.
  - apply andb_true_iff in H1 as [Hy H1].
    destruct (p y); [discriminate | now rewrite IH].
Qed.

Lemma doc_head_head_at (doc : document) (h : node) :
  doc_head doc = Some h -> head_at doc h.
Proof.
  unfold doc_head, documentElement. intros H.
  destruct (List.find is_element doc) as [[t a cs | d] |] eqn:E; try discriminate.
  destruct (String.eqb_spec t "html") as [-> |]; [| discriminate].
  destruct (find_split _ _ _ E) as [pre [post [-> [Hpre _]]]].
  destruct (find_split _ _ _ H) as [before [after [-> [Hbefore Hh]]]].
  now constructor.
Qed.

Lemma head_at_doc_head (doc : document) (h : node) :
  head_at doc h -> doc_head doc = Some h.
Proof.
  intros [pre a before h' after post Hpre Hbefore Hh].
  unfold doc_head, documentElement.
  rewrite (find_middle is_element pre post
             (Element "html" a (before ++ h' :: after)) Hpre eq_refl).
  simpl. now apply find_middle.
Qed.

Lemma head_is_element (h : node) :
  has_tag "head" h = true -> exists a cs, h = Element "head" a cs.
Proof.
  destruct h as [t a cs | d]; [| discriminate]. unfold has_tag. simpl.
  intros H. apply String.eqb_eq in H. subst. now exists a, cs.
Qed.

Lemma count_app (q : node -> bool) (l1 l2 : list node) :
  count q (l1 ++ l2) = count q l1 + count q l2.
Proof. unfold count, querySelectorAll. now rewrite flat_map_app, length_app. Qed.

Lemma count_cons (q : node -> bool) (n : node) (l : list node) :
  count q (n :: l) = length (select q n) + count q l.
Proof. unfold count, querySelectorAll. simpl. now rewrite length_app. Qed.

Lemma count_element (q : node -> bool) (t : string) (a : list (string * string))
    (cs : list node) :
  length (select q (Element t a cs)) =
  (if q (Element t a cs) then 1 else 0) + count q cs.
Proof.
  rewrite select_element, length_app. unfold count, querySelectorAll.
  now destruct (q (Element t a cs)).
Qed.

(** A change of the children of the head: the document that results, its
    head, and the count of the matches of a selector. *)
Lemma with_head_head_at (f : list node -> list node) (doc : document) (h : node) :
  head_at doc h ->
  exists doc',
    with_head f doc = Ok doc' /\
    head_at doc' (map_children f h) /\
    forall q, shallow q ->
      count q doc' + count q (children_of h) = count q doc + count q (f (children_of h)).
Proof.
  intros Hat. pose proof (head_at_doc_head _ _ Hat) as Hhead.
  destruct Hat as [pre a before h after post Hpre Hbefore Hh].
  destruct (head_is_element h Hh) as [ah [hc ->]].
  unfold with_head. rewrite Hhead.
  rewrite (update_first_middle is_element _ pre post
             (Element "html" a (before ++ Element "head" ah hc :: after))
             Hpre eq_refl).
  simpl map_children at 1.
  rewrite (update_first_middle (has_tag "head") _ before after _ Hbefore Hh).
  eexists. split; [reflexivity |]. split.
  - now constructor.
  - intros q [Hq0 Hq]. simpl map_children. simpl children_of.
    rewrite !count_app, !count_cons, !count_element, !count_app, !count_cons,
      !count_element.
    rewrite (Hq "head" ah (f hc) hc), (Hq "html" a _ (before ++ Element "head" ah hc :: after)).
    lia.
Qed.

Lemma remove_in_keeps_root (r p : node -> bool) :
  shallow p ->
  forall l, forallb (fun y => negb (p y)) l = true ->
    forallb (fun y => negb (p y)) (flat_map (remove_in r) l) = true.
Proof.
  intros [Hp0 Hp]. induction l as [|n l IH]; simpl; [reflexivity |].
  intros H. apply andb_true_iff in H as [Hn Hl].
  rewrite forallb_app, (IH Hl), andb_true_r.
  destruct n as [t a cs | d].
  - rewrite remove_in_element. destruct (r (Element t a cs)); [reflexivity |].
    simpl. now rewrite (Hp t a _ cs), Hn.
  - simpl. destruct (r (Text d)); [reflexivity |]. simpl. now rewrite Hp0.
Qed.

Lemma flat_map_step {A B} (f : A -> list B) (x : A) (l : list A) :
  flat_map f (x :: l) = f x ++ flat_map f l.
Proof. reflexivity. Qed.

Lemma shallow_is_element : shallow is_element.
Proof. now split. Qed.

Lemma shallow_has_tag (t : string) : shallow (has_tag t).
Proof. now split. Qed.

(** A removal of [link] and [script] elements leaves the head in place. *)
Lemma remove_all_head_at (r : node -> bool) (doc : document) (h : node) :
  (forall n, r n = true -> tag_of n = "link" \/ tag_of n = "script") ->
  head_at doc h ->
  exists h', head_at (remove_all r doc) h'.
Proof.
  intros Htag [pre a before h' after post Hpre Hbefore Hh].
  destruct (head_is_element h' Hh) as [ah [hc ->]].
  assert (Hhtml : forall cs, r (Element "html" a cs) = false).
  { intros cs. destruct (r (Element "html" a cs)) eqn:E; [| reflexivity].
    destruct (Htag _ E); discriminate. }
  assert (Hhd : forall cs, r (Element "head" ah cs) = false).
  { intros cs. destruct (r (Element "head" ah cs)) eqn:E; [| reflexivity].
    destruct (Htag _ E); discriminate. }
  exists (Element "head" ah (flat_map (remove_in r) hc)).
  unfold remove_all.
  rewrite flat_map_app, flat_map_step, remove_in_element, Hhtml.
  rewrite flat_map_app, flat_map_step, remove_in_element, Hhd.
  simpl app.
  constructor.
  - now apply (remove_in_keeps_root r is_element shallow_is_element).
  - now apply (remove_in_keeps_root r (has_tag "head") (shallow_has_tag "head")).
  - reflexivity.
Qed.

(** ** C2 and C4: the assembled document *)

Lemma shallow_sel_style : shallow sel_style.
Proof. now split. Qed.
Lemma shallow_sel_script : shallow sel_script.
Proof. now split. Qed.
Lemma shallow_sel_font_link : shallow sel_font_link.
Proof. now split. Qed.
Lemma shallow_sel_other_link : shallow sel_other_link.
Proof. now split. Qed.
Lemma shallow_sel_script_or_hint : shallow sel_script_or_hint.
Proof. now split. Qed.
Lemma shallow_sel_meta_charset : shallow sel_meta_charset.
Proof. now split. Qed.
Lemma shallow_sel_meta_viewport : shallow sel_meta_viewport.
Proof. now split. Qed.

Lemma has_tag_tag_of (t : string) (n : node) : has_tag t n = true -> tag_of n = t.
Proof.
  unfold has_tag. intros H. apply andb_true_iff in H as [_ H].
  now apply String.eqb_eq.
Qed.

Lemma sel_font_link_tag (n : node) :
  sel_font_link n = true -> tag_of n = "link" \/ tag_of n = "script".
Proof.
  unfold sel_font_link, sel_stylesheet_link. intros H.
  apply andb_true_iff in H as [H _]. apply andb_true_iff in H as [H _].
  left. now apply has_tag_tag_of.
Qed.

Lemma sel_other_link_tag (n : node) :
  sel_other_link n = true -> tag_of n = "link" \/ tag_of n = "script".
Proof.
  unfold sel_other_link, sel_stylesheet_link. intros H.
  apply andb_true_iff in H as [H _]. apply andb_true_iff in H as [H _].
  left. now apply has_tag_tag_of.
Qed.

Lemma sel_script_or_hint_tag (n : node) :
  sel_script_or_hint n = true -> tag_of n = "link" \/ tag_of n = "script".
Proof.
  unfold sel_script_or_hint. intros H.
  repeat (apply orb_true_iff in H as [H | H]).
  - right. now apply has_tag_tag_of.
  - apply andb_true_iff in H as [H _]. left. now apply has_tag_tag_of.
  - apply andb_true_iff in H as [H _]. left. now apply has_tag_tag_of.
  - apply andb_true_iff in H as [H _]. left. now apply has_tag_tag_of.
Qed.

(** A selector for another tag matches no removed element. *)
Lemma other_tag_disjoint (q r : node -> bool) (t : string) :
  t <> "link" -> t <> "script" ->
  (forall n, q n = true -> tag_of n = t) ->
  (forall n, r n = true -> tag_of n = "link" \/ tag_of n = "script") ->
  forall n, r n = true -> q n = false.
Proof.
  intros Hl Hs Hq Hr n Hn. destruct (q n) eqn:E; [| reflexivity].
  apply Hq in E. destruct (Hr n Hn); congruence.
Qed.

Lemma sel_style_tag (n : node) : sel_style n = true -> tag_of n = "style".
Proof. apply has_tag_tag_of. Qed.

Lemma sel_meta_charset_tag (n : node) : sel_meta_charset n = true -> tag_of n = "meta".
Proof.
  unfold sel_meta_charset. intros H. apply andb_true_iff in H as [H _].
  now apply has_tag_tag_of.
Qed.

Lemma sel_meta_viewport_tag (n : node) : sel_meta_viewport n = true -> tag_of n = "meta".
Proof.
  unfold sel_meta_viewport. intros H. apply andb_true_iff in H as [H _].
  now apply has_tag_tag_of.
Qed.

Create HintDb dom.
#[local] Hint Resolve shallow_sel_style shallow_sel_script shallow_sel_font_link
  shallow_sel_other_link shallow_sel_script_or_hint shallow_sel_meta_charset
  shallow_sel_meta_viewport sel_font_link_tag sel_other_link_tag
  sel_script_or_hint_tag : dom.

Lemma exists_match_count (q : node -> bool) (doc : document) :
  exists_match q doc = negb (count q doc =? 0).
Proof.
  unfold exists_match, count. now destruct (querySelectorAll q doc).
Qed.

Lemma stripped_head_at (keepFonts : bool) (doc : document) (h : node) :
  head_at doc h -> exists h', head_at (stripped keepFonts doc) h'.
Proof.
  intros H. unfold stripped.
  assert (H1 : exists h1, head_at (if keepFonts then doc
                                   else remove_all sel_font_link doc) h1).
  { destruct keepFonts; [now exists h |].
    exact (remove_all_head_at _ _ _ sel_font_link_tag H). }
  destruct H1 as [h1 H1].
  destruct (remove_all_head_at _ _ _ sel_other_link_tag H1) as [h2 H2].
  exact (remove_all_head_at _ _ _ sel_script_or_hint_tag H2).
Qed.

(** What [assemble] adds to the stripped document. *)
Lemma assemble_adds (keepFonts : bool) (doc : document) (css : string) (h : node) :
  head_at doc h ->
  exists out h',
    assemble keepFonts doc css = Ok out /\
    head_at out h' /\
    last (children_of h') = Some (style_block css) /\
    forall q, shallow q ->
      count q out =
      count q (stripped keepFonts doc)
      + (if exists_match sel_meta_charset (stripped keepFonts doc) then 0
         else length (select q meta_charset))
      + (if exists_match sel_meta_viewport (stripped keepFonts doc) then 0
         else length (select q meta_viewport))
      + length (select q (style_block css)).
Proof.
  intros Hat. destruct (stripped_head_at keepFonts doc h Hat) as [h3 H3].
  unfold assemble. fold (stripped keepFonts doc).
  set (doc3 := stripped keepFonts doc) in *.
  assert (H4 : exists doc4 h4,
             (if exists_match sel_meta_charset doc3 then Ok doc3
              else head_prepend meta_charset doc3) = Ok doc4 /\
             head_at doc4 h4 /\
             forall q, shallow q ->
               count q doc4 = count q doc3
                 + (if exists_match sel_meta_charset doc3 then 0
                    else length (select q meta_charset))).
  { destruct (exists_match sel_meta_charset doc3).
    - exists doc3, h3. repeat split; [exact H3 | intros; lia].
    - destruct (with_head_head_at (fun cs => meta_charset :: cs) doc3 h3 H3)
        as [doc4 [Hok [Hat4 Hcount]]].
      exists doc4. eexists. repeat split; [exact Hok | exact Hat4 |].
      intros q Hq. specialize (Hcount q Hq). rewrite count_cons in Hcount. lia. }
  destruct H4 as [doc4 [h4 [Hok4 [Hat4 Hc4]]]]. rewrite Hok4.
  assert (Hview : exists_match sel_meta_viewport doc4
                  = exists_match sel_meta_viewport doc3).
  { rewrite !exists_match_count, (Hc4 _ shallow_sel_meta_viewport).
    destruct (exists_match sel_meta_charset doc3); simpl; now rewrite Nat.add_0_r. }
  assert (H5 : exists doc5 h5,
             (if exists_match sel_meta_viewport doc4 then Ok doc4
              else head_append meta_viewport doc4) = Ok doc5 /\
             head_at doc5 h5 /\
             forall q, shallow q ->
               count q doc5 = count q doc4
                 + (if exists_match sel_meta_viewport doc3 then 0
                    else length (select q meta_viewport))).
  { rewrite Hview. destruct (exists_match sel_meta_viewport doc3).
    - exists doc4, h4. repeat split; [exact Hat4 | intros; lia].
    - destruct (with_head_head_at (fun cs => cs ++ [meta_viewport]) doc4 h4 Hat4)
        as [doc5 [Hok [Hat5 Hcount]]].
      exists doc5. eexists. repeat split; [exact Hok | exact Hat5 |].
      intros q Hq. specialize (Hcount q Hq).
      rewrite count_app, count_cons in Hcount.
      change (count q []) with 0 in Hcount. lia. }
  destruct H5 as [doc5 [h5 [Hok5 [Hat5 Hc5]]]]. rewrite Hok5.
  destruct (with_head_head_at (fun cs => cs ++ [style_block css]) doc5 h5 Hat5)
    as [out [Hok [Hat6 Hcount]]].
  exists out. eexists. split; [exact Hok |]. split; [exact Hat6 |]. split.
  - destruct h5; simpl; [apply last_snoc | inversion Hat5; discriminate].
  - intros q Hq. specialize (Hcount q Hq).
    rewrite count_app, count_cons in Hcount.
    change (count q []) with 0 in Hcount.
    rewrite (Hc5 q Hq), (Hc4 q Hq) in Hcount. lia.
Qed.

Lemma stripped_keeps_count (q : node -> bool) (t : string) (keepFonts : bool)
    (doc : document) :
  shallow q -> t <> "link" -> t <> "script" ->
  (forall n, q n = true -> tag_of n = t) ->
  forallb void_links_and_scripts doc = true ->
  count q (stripped keepFonts doc) = count q doc.
Proof.
  intros Hq Hl Hs Htag Hvoid. unfold stripped.
  set (doc1 := if keepFonts then doc else remove_all sel_font_link doc).
  assert (H1 : count q doc1 = count q doc /\ forallb void_links_and_scripts doc1 = true).
  { unfold doc1. destruct keepFonts; [now split |]. split.
    - apply removal_keeps_count_doc; eauto using other_tag_disjoint with dom.
    - now apply removal_keeps_void_doc. }
  destruct H1 as [H1 Hv1].
  rewrite removal_keeps_count_doc;
    eauto using other_tag_disjoint, removal_keeps_void_doc with dom.
  rewrite removal_keeps_count_doc; eauto using other_tag_disjoint with dom.
Qed.

Lemma stripped_no_script (keepFonts : bool) (doc : document) :
  count sel_script (stripped keepFonts doc) = 0.
Proof.
  unfold stripped. apply removed_none_left_doc; auto with dom.
  intros n H. unfold sel_script_or_hint. unfold sel_script in H. now rewrite H.
Qed.

Lemma stripped_no_other_link (keepFonts : bool) (doc : document) :
  count sel_other_link (stripped keepFonts doc) = 0.
Proof.
  unfold stripped.
  pose proof (removal_count_le_doc sel_other_link sel_script_or_hint
                (remove_all sel_other_link
                   (if keepFonts then doc else remove_all sel_font_link doc))
                shallow_sel_other_link) as H.
  rewrite (removed_none_left_doc sel_other_link sel_other_link) in H;
    auto with dom.
  lia.
Qed.

Lemma stripped_no_font_link (doc : document) :
  count sel_font_link (stripped false doc) = 0.
Proof.
  unfold stripped.
  pose proof (removal_count_le_doc sel_font_link sel_script_or_hint
                (remove_all sel_other_link (remove_all sel_font_link doc))
                shallow_sel_font_link) as H1.
  pose proof (removal_count_le_doc sel_font_link sel_other_link
                (remove_all sel_font_link doc) shallow_sel_font_link) as H2.
  rewrite (removed_none_left_doc sel_font_link sel_font_link) in H2;
    auto with dom.
  lia.
Qed.

(** What holds of the assembled document, for every parsed document (it has
    a head, and its [link] and [script] elements have no element below them)
    and whatever the font flag: its head ends with the one new style block
    that holds the final CSS; no style element of the input is removed, so
    the output has one style element more than the input; it has no script
    element and no stylesheet link outside the web-font family; and it has
    the charset and viewport meta elements of the input, or one new such
    element where the input has none. *)
Theorem assembly_invariants (keepFonts : bool) (doc : document) (css : string)
    (h : node) :
  doc_head doc = Some h ->
  forallb void_links_and_scripts doc = true ->
  exists out h',
    assemble keepFonts doc css = Ok out /\
    doc_head out = Some h' /\
    last (children_of h') = Some (style_block css) /\
    count sel_style out = S (count sel_style doc) /\
    count sel_script out = 0 /\
    count sel_other_link out = 0 /\
    count sel_meta_charset out = Nat.max 1 (count sel_meta_charset doc) /\
    count sel_meta_viewport out = Nat.max 1 (count sel_meta_viewport doc).
Proof.
  intros Hhead Hvoid.
  destruct (assemble_adds keepFonts doc css h (doc_head_head_at _ _ Hhead))
    as [out [h' [Hok [Hat [Hlast Hcount]]]]].
  exists out, h'. split; [exact Hok |]. split; [now apply head_at_doc_head |].
  split; [exact Hlast |].
  pose proof (stripped_keeps_count sel_meta_charset "meta" keepFonts doc
                shallow_sel_meta_charset ltac:(discriminate) ltac:(discriminate)
                sel_meta_charset_tag Hvoid) as Hcs.
  pose proof (stripped_keeps_count sel_meta_viewport "meta" keepFonts doc
                shallow_sel_meta_viewport ltac:(discriminate) ltac:(discriminate)
                sel_meta_viewport_tag Hvoid) as Hvp.
  assert (Hsb : forall q, shallow q ->
            length (select q (style_block css))
            = if q (Element "style" [] []) then 1 else 0).
  { intros q [_ Hq]. unfold style_block. rewrite count_element.
    rewrite (Hq "style" [] _ []).
    destruct (truthy css); destruct (q (Element "style" [] [])); reflexivity. }
  repeat split.
  - rewrite (Hcount _ shallow_sel_style), (Hsb _ shallow_sel_style).
    rewrite (stripped_keeps_count sel_style "style" keepFonts doc
               shallow_sel_style ltac:(discriminate) ltac:(discriminate)
               sel_style_tag Hvoid).
    destruct (exists_match sel_meta_charset (stripped keepFonts doc));
      destruct (exists_match sel_meta_viewport (stripped keepFonts doc));
      simpl; lia.
  - rewrite (Hcount _ shallow_sel_script), (Hsb _ shallow_sel_script),
      stripped_no_script.
    destruct (exists_match sel_meta_charset (stripped keepFonts doc));
      destruct (exists_match sel_meta_viewport (stripped keepFonts doc));
      reflexivity.
  - rewrite (Hcount _ shallow_sel_other_link), (Hsb _ shallow_sel_other_link),
      stripped_no_other_link.
    destruct (exists_match sel_meta_charset (stripped keepFonts doc));
      destruct (exists_match sel_meta_viewport (stripped keepFonts doc));
      reflexivity.
  - rewrite (Hcount _ shallow_sel_meta_charset), (Hsb _ shallow_sel_meta_charset).
    rewrite !exists_match_count, Hcs, Hvp.
    destruct (count sel_meta_charset doc); destruct (count sel_meta_viewport doc);
      simpl; lia.
  - rewrite (Hcount _ shallow_sel_meta_viewport), (Hsb _ shallow_sel_meta_viewport).
    rewrite !exists_match_count, Hcs, Hvp.
    destruct (count sel_meta_charset doc); destruct (count sel_meta_viewport doc);
      simpl; lia.
Qed.

Lemma assembly_invariants_witness :
  exists out h',
    assemble false font_page "p{margin:0}" = Ok out /\
    doc_head out = Some h' /\
    last (children_of h') = Some (style_block "p{margin:0}") /\
    count sel_style out = 2 /\
    count sel_script out = 0 /\
    count sel_other_link out = 0 /\
    count sel_meta_charset out = 1 /\
    count sel_meta_viewport out = 1.
Proof.
  apply (assembly_invariants false font_page "p{margin:0}"
           (Element "head" []
              [stylesheet_link "https://fonts.googleapis.com/css?family=Roboto" [];
               stylesheet_link "b.css" [];
               Element "style" [] [Text "p{margin:0}"];
               Element "script" [("src", "app.js")] []])).
  - reflexivity.
  - reflexivity.
Defined.

(** C2, at a failing input.  A page with one style block in its head is
    assembled into a page with two style blocks in its head: the block of
    the input, whose content is part of the aggregate, and the new block. *)
Theorem two_style_blocks_in_head :
  count sel_style font_page = 1 /\
  exists out h',
    assemble false font_page "p{margin:0}" = Ok out /\
    doc_head out = Some h' /\
    count sel_style (children_of h') = 2 /\
    count sel_style out = 2.
Proof.
  split; [reflexivity |].
  eexists. eexists. repeat split.
Qed.

(** Without the font flag no web-font link is left. *)
Lemma no_font_link_without_flag (doc : document) (css : string) (h : node) :
  doc_head doc = Some h ->
  exists out, assemble false doc css = Ok out /\ count sel_font_link out = 0.
Proof.
  intros Hhead.
  destruct (assemble_adds false doc css h (doc_head_head_at _ _ Hhead))
    as [out [h' [Hok [_ [_ Hcount]]]]].
  exists out. split; [exact Hok |].
  rewrite (Hcount _ shallow_sel_font_link), stripped_no_font_link.
  assert (Hsb : length (select sel_font_link (style_block css)) = 0).
  { unfold style_block. destruct (truthy css); reflexivity. }
  rewrite Hsb.
  destruct (exists_match sel_meta_charset (stripped false doc));
    destruct (exists_match sel_meta_viewport (stripped false doc)); reflexivity.
Qed.

(** C4, at a failing input.  A command line without any flag about font
    links gives [keepFontLinks = false], and the page with a link to
    [fonts.googleapis.com] is assembled without that link; the link is kept
    only under the flag [--keep-font-links]. *)
Theorem font_links_removed_by_default :
  (exists cfg,
     configure (demo_env (fun _ => font_page) true 0)
               (parseArgs ["node"; "cli.mjs"; "--in"; "index.html"; "--no-visual"])
     = Started cfg /\
     keepFontLinks cfg = false /\
     count sel_font_link font_page = 1 /\
     exists out,
       assemble (keepFontLinks cfg) font_page "p{margin:0}" = Ok out /\
       count sel_font_link out = 0) /\
  (exists cfg,
     configure (demo_env (fun _ => font_page) true 0)
               (parseArgs ["node"; "cli.mjs"; "--in"; "index.html"; "--no-visual";
                           "--keep-font-links"])
     = Started cfg /\
     keepFontLinks cfg = true /\
     exists out,
       assemble (keepFontLinks cfg) font_page "p{margin:0}" = Ok out /\
       count sel_font_link out = 1).
Proof.
  split.
  - eexists. split; [vm_compute; reflexivity |]. simpl keepFontLinks.
    repeat split. eexists. split; vm_compute; reflexivity.
  - eexists. split; [vm_compute; reflexivity |]. simpl keepFontLinks.
    repeat split. eexists. split; vm_compute; reflexivity.
Qed.

(** ** Steps of a computation *)

Lemma bind_ok_inv {A B} (m : io A) (k : A -> io B) (w w' : world) (b : B) :
  bind m k w = (w', Ok b) ->
  exists w1 a, m w = (w1, Ok a) /\ k a w1 = (w', Ok b).
Proof.
  unfold bind. destruct (m w) as [w1 [a | e]]; [| discriminate].
  intros H. now exists w1, a.
Qed.

Lemma ret_inv {A} (a b : A) (w w' : world) :
  ret a w = (w', Ok b) -> w' = w /\ b = a.
Proof. unfold ret. now intros [= -> ->]. Qed.

Lemma lift_inv {A} (r : result A) (a : A) (w w' : world) :
  lift r w = (w', Ok a) -> w' = w /\ r = Ok a.
Proof. unfold lift. now intros [= -> ->]. Qed.

Lemma emit_inv (e : event) (u : unit) (w w' : world) :
  emit e w = (w', Ok u) -> w' = World (files w) (trace w ++ [e]).
Proof. unfold emit. now intros [= <-]. Qed.

Lemma keeps_file_ret (k : string) {A} (a : A) : keeps_file k (ret a).
Proof. now intros w. Qed.

Lemma keeps_file_lift (k : string) {A} (r : result A) : keeps_file k (lift r).
Proof. now intros w. Qed.

Lemma keeps_file_throw (k : string) {A} (e : string) : keeps_file k (@throw A e).
Proof. now intros w. Qed.

Lemma keeps_file_emit (k : string) (e : event) : keeps_file k (emit e).
Proof. now intros w. Qed.

Lemma keeps_file_bind (k : string) {A B} (m : io A) (f : A -> io B) :
  keeps_file k m -> (forall a, keeps_file k (f a)) -> keeps_file k (bind m f).
Proof.
  intros Hm Hf w. unfold bind. specialize (Hm w).
  destruct (m w) as [w1 [a | e]]; simpl in *; [| exact Hm].
  now rewrite (Hf a w1).
Qed.

Lemma keeps_file_try_catch (k : string) {A} (m : io A) (h : string -> io A) :
  keeps_file k m -> (forall e, keeps_file k (h e)) -> keeps_file k (try_catch m h).
Proof.
  intros Hm Hh w. unfold try_catch. specialize (Hm w).
  destruct (m w) as [w1 [a | e]]; simpl in *; [exact Hm |].
  now rewrite (Hh e w1).
Qed.

Section Files.
Variable env : Collab.
Variable cfg : Config.
Variable k : string.

Lemma keeps_file_log (msg : string) : keeps_file k (log cfg msg).
Proof. unfold log. destruct (verbose cfg); [apply keeps_file_emit | apply keeps_file_ret]. Qed.

Lemma keeps_file_readFile (p : string) : keeps_file k (readFile env p).
Proof. intros w. unfold readFile. now destruct (files w !! file_key env p). Qed.

Lemma keeps_file_writeFile (p c : string) :
  file_key env p <> k -> keeps_file k (writeFile env p c).
Proof.
  intros Hp w. unfold writeFile.
  destruct (fs_writable env (file_key env p)); simpl; [| reflexivity].
  now apply lookup_insert_ne.
Qed.

Lemma keeps_file_report (msgs : list string) : keeps_file k (report msgs).
Proof.
  induction msgs as [|msg msgs IH]; simpl; [apply keeps_file_ret |].
  apply keeps_file_bind; [apply keeps_file_emit | intros _; exact IH].
Qed.

(** One step of a proof that a computation keeps the file: the primitive
    computations, [bind] and [try_catch]. *)
Ltac keeps_step :=
  first
    [ apply keeps_file_ret | apply keeps_file_lift | apply keeps_file_throw
    | apply keeps_file_emit | apply keeps_file_log | apply keeps_file_readFile
    | apply keeps_file_report
    | apply keeps_file_writeFile; assumption
    | apply keeps_file_bind | apply keeps_file_try_catch ].

Ltac keeps := repeat (intros; keeps_step).

Lemma keeps_file_load_link (link : node) : keeps_file k (load_link env cfg link).
Proof.
  unfold load_link. apply keeps_file_bind; [keeps | intros [url |]]; [| keeps].
  destruct (truthy url); [| keeps].
  apply keeps_file_bind; [| intros css; destruct (truthy css); keeps].
  unfold read_stylesheet.
  destruct (if re_http url then None else or_null (inputPath cfg)); keeps.
Qed.

Lemma keeps_file_gather_linked (links : list node) :
  forall acc, keeps_file k (gather_linked env cfg links acc).
Proof.
  induction links as [|l links IH]; intros acc; simpl; [keeps |].
  apply keeps_file_bind; [apply keeps_file_load_link | intros [css |]; apply IH].
Qed.

(** The first three steps of the run write no file. *)
Lemma keeps_file_slim_stages : keeps_file k (slim_stages env cfg).
Proof.
  unfold slim_stages, loadHtmlAndCss, gatherCss, purgeCss, minifyCss,
    serializeWithStyle, new_JSDOM.
  keeps.
  - destruct (or_null (pageUrl cfg)); keeps.
    destruct (inputPath cfg); keeps.
  - apply keeps_file_gather_linked.
Qed.

Lemma keeps_file_snap (vp file : string) :
  file_key env (png_path file vp) <> k -> keeps_file k (snap env vp file).
Proof. intros Hp. unfold snap. keeps. Qed.

Lemma keeps_file_compare_viewport (tmp1 tmp2 vp : string) (worst : N) :
  file_key env (png_path tmp1 vp) <> k ->
  file_key env (png_path tmp2 vp) <> k ->
  file_key env ("diff." +:+ vp +:+ ".png") <> k ->
  keeps_file k (compare_viewport env cfg tmp1 tmp2 vp worst).
Proof.
  intros H1 H2 H3. unfold compare_viewport. keeps; now apply keeps_file_snap.
Qed.

Lemma keeps_file_guard_loop (tmp1 tmp2 : string) (vps : list string) :
  Forall (fun p => file_key env p <> k)
         (flat_map (fun vp => [png_path tmp1 vp; png_path tmp2 vp;
                               "diff." +:+ vp +:+ ".png"]) vps) ->
  forall worst, keeps_file k (guard_loop env cfg tmp1 tmp2 vps worst).
Proof.
  induction vps as [|vp vps IH]; simpl; intros HF worst; [keeps |].
  inversion HF as [| ? ? H1 HF1]; subst.
  inversion HF1 as [| ? ? H2 HF2]; subst.
  inversion HF2 as [| ? ? H3 HF3]; subst.
  apply keeps_file_bind; [now apply keeps_file_compare_viewport |].
  intros worst'. now apply IH.
Qed.

(** The guard leaves every file but its own. *)
Lemma keeps_file_visualGuard (originalHtml slimHtml viewportsCsv : string) :
  Forall (fun p => file_key env p <> k)
         (guard_paths env (parse_viewports viewportsCsv)) ->
  keeps_file k (visualGuard env cfg originalHtml slimHtml viewportsCsv).
Proof.
  intros HF. unfold visualGuard, guard_paths in *.
  inversion HF as [| ? ? H1 HF1]; subst.
  inversion HF1 as [| ? ? H2 HF2]; subst.
  destruct (deps_installed env); keeps.
  now apply keeps_file_guard_loop.
Qed.
End Files.

(** ** C8, C9 and C10: the visual guard and the exit code *)

Section Guard.
Variable env : Collab.
Variable cfg : Config.

Lemma readFile_inv (p c : string) (w w' : world) :
  readFile env p w = (w', Ok c) -> w' = w.
Proof.
  unfold readFile. destruct (files w !! file_key env p); now intros [= <-].
Qed.

Lemma writeFile_inv (p c : string) (u : unit) (w w' : world) :
  writeFile env p c w = (w', Ok u) -> trace w' = trace w.
Proof.
  unfold writeFile. destruct (fs_writable env (file_key env p)); [| discriminate].
  now intros [= <-].
Qed.

Lemma log_inv (msg : string) (u : unit) (w w' : world) :
  log cfg msg w = (w', Ok u) ->
  exists t, trace w' = trace w ++ t /\ render_events t = [].
Proof.
  unfold log. destruct (verbose cfg).
  - intros H. apply emit_inv in H. subst. now exists [ConsoleLog msg].
  - intros H. apply ret_inv in H as [-> _]. exists []. now rewrite app_nil_r.
Qed.

Lemma snap_inv (vp file p : string) (w w' : world) :
  snap env vp file w = (w', Ok p) ->
  p = png_path file vp /\ trace w' = trace w ++ [Snapped vp file].
Proof.
  unfold snap. intros H.
  apply bind_ok_inv in H as (w1 & html & H1 & H).
  apply bind_ok_inv in H as (w2 & png & H2 & H).
  apply bind_ok_inv in H as (w3 & u3 & H3 & H).
  apply bind_ok_inv in H as (w4 & u4 & H4 & H).
  apply readFile_inv in H1. apply lift_inv in H2 as [H2 _].
  apply writeFile_inv in H3. apply emit_inv in H4. apply ret_inv in H as [-> ->].
  subst. simpl. split; [reflexivity | congruence].
Qed.

Lemma render_events_app (t1 t2 : list event) :
  render_events (t1 ++ t2) = render_events t1 ++ render_events t2.
Proof. unfold render_events. apply List.filter_app. Qed.

(** One turn of the loop takes the two pictures, compares them and keeps
    the larger count. *)
Lemma compare_viewport_inv (tmp1 tmp2 vp : string) (worst r : N) (w w' : world) :
  compare_viewport env cfg tmp1 tmp2 vp worst w = (w', Ok r) ->
  exists n t,
    trace w' = trace w ++ t /\
    render_events t = [Snapped vp tmp1; Snapped vp tmp2; Compared vp n] /\
    r = N.max worst n.
Proof.
  unfold compare_viewport. intros H.
  apply bind_ok_inv in H as (w1 & o & H1 & H).
  apply bind_ok_inv in H as (w2 & s & H2 & H).
  apply bind_ok_inv in H as (w3 & obytes & H3 & H).
  apply bind_ok_inv in H as (w4 & origPng & H4 & H).
  apply bind_ok_inv in H as (w5 & sbytes & H5 & H).
  apply bind_ok_inv in H as (w6 & slimPng & H6 & H).
  apply bind_ok_inv in H as (w7 & pm & H7 & H).
  apply bind_ok_inv in H as (w8 & u8 & H8 & H).
  apply bind_ok_inv in H as (w9 & u9 & H9 & H).
  apply bind_ok_inv in H as (w10 & u10 & H10 & H).
  apply snap_inv in H1 as [_ T1]. apply snap_inv in H2 as [_ T2].
  apply readFile_inv in H3. apply lift_inv in H4 as [H4 _].
  apply readFile_inv in H5. apply lift_inv in H6 as [H6 _].
  apply lift_inv in H7 as [H7 _]. apply emit_inv in H8.
  apply writeFile_inv in H9. apply log_inv in H10 as (tl & T10 & Hl).
  apply ret_inv in H as [-> ->]. subst.
  exists (fst pm), ([Snapped vp tmp1] ++ [Snapped vp tmp2] ++ [Compared vp (fst pm)] ++ tl).
  split; [| split; [| reflexivity]].
  - rewrite T10, H9. simpl. rewrite T2, T1. now rewrite <- !app_assoc.
  - rewrite !render_events_app, Hl. reflexivity.
Qed.

Lemma fold_max (counts : list N) (a : N) :
  fold_left N.max counts a = N.max a (fold_right N.max 0%N counts).
Proof.
  revert a. induction counts as [|n counts IH]; intros a; simpl.
  - now rewrite N.max_0_r.
  - now rewrite IH, N.max_assoc.
Qed.

(** The loop visits every viewport, in order. *)
Lemma guard_loop_inv (tmp1 tmp2 : string) (vps : list string) :
  forall (worst r : N) (w w' : world),
    guard_loop env cfg tmp1 tmp2 vps worst w = (w', Ok r) ->
    exists counts t,
      length counts = length vps /\
      trace w' = trace w ++ t /\
      render_events t =
        flat_map (fun vn => [Snapped (fst vn) tmp1; Snapped (fst vn) tmp2;
                             Compared (fst vn) (snd vn)])
                 (zip vps counts) /\
      r = fold_left N.max counts worst.
Proof.
  induction vps as [|vp vps IH]; intros worst r w w' H; simpl in H.
  - apply ret_inv in H as [-> ->]. exists [], []. now rewrite app_nil_r.
  - apply bind_ok_inv in H as (w1 & worst' & H1 & H).
    apply compare_viewport_inv in H1 as (n & t1 & T1 & R1 & ->).
    apply IH in H as (counts & t & Hlen & T & R & ->).
    exists (n :: counts), (t1 ++ t). simpl. repeat split.
    + now rewrite Hlen.
    + rewrite T, T1. now rewrite <- app_assoc.
    + rewrite render_events_app, R1, R. reflexivity.
Qed.

(** With its collaborators, the guard works through every viewport and
    then compares the largest count with the budget. *)
Lemma visualGuard_inv (originalHtml slimHtml viewportsCsv : string)
    (ok : bool) (w w' : world) :
  deps_installed env = true ->
  visualGuard env cfg originalHtml slimHtml viewportsCsv w = (w', Ok ok) ->
  exists counts t,
    length counts = length (parse_viewports viewportsCsv) /\
    trace w' = trace w ++ t /\
    render_events t =
      flat_map (fun vn => [Snapped (fst vn) (tmp_orig env);
                           Snapped (fst vn) (tmp_slim env);
                           Compared (fst vn) (snd vn)])
               (zip (parse_viewports viewportsCsv) counts) /\
    ok = (fold_right N.max 0 counts <=? 500)%N.
Proof.
  intros Hdeps. unfold visualGuard. rewrite Hdeps. intros H.
  apply bind_ok_inv in H as (w1 & u1 & H1 & H).
  apply bind_ok_inv in H as (w2 & u2 & H2 & H).
  apply bind_ok_inv in H as (w3 & u3 & H3 & H).
  apply bind_ok_inv in H as (w4 & u4 & H4 & H).
  apply bind_ok_inv in H as (w5 & worst & H5 & H).
  apply bind_ok_inv in H as (w6 & u6 & H6 & H).
  apply lift_inv in H1 as [-> _]. apply emit_inv in H2.
  apply writeFile_inv in H3. apply writeFile_inv in H4.
  apply guard_loop_inv in H5 as (counts & t & Hlen & T & R & ->).
  apply emit_inv in H6. apply ret_inv in H as [-> ->]. subst.
  exists counts, ([Launched] ++ t ++ [Closed]). repeat split.
  - exact Hlen.
  - simpl. rewrite T, H4, H3. simpl. now rewrite <- !app_assoc.
  - rewrite !render_events_app, R. simpl. now rewrite app_nil_r.
  - rewrite fold_max, N.max_0_l. reflexivity.
Qed.

(** Exit code 2 is reached through a guard that answers no. *)
Lemma guard_and_write_exit2 (html slim : string) (w w' : world) :
  guard_and_write env cfg html slim w = (w', Ok 2) ->
  doVisual cfg = true /\
  exists w1,
    visualGuard env cfg html slim (vpsArg cfg) w = (w1, Ok false) /\
    w' = World (files w1) (trace w1 ++ [ConsoleError (error_visual)]).
Proof.
  unfold guard_and_write. intros H.
  apply bind_ok_inv in H as (w1 & ok & H1 & H).
  destruct ok.
  - apply bind_ok_inv in H as (w2 & u2 & _ & H).
    apply bind_ok_inv in H as (w3 & u3 & _ & H).
    apply ret_inv in H as [_ H]. discriminate.
  - apply bind_ok_inv in H as (w2 & u2 & H2 & H).
    apply emit_inv in H2. apply ret_inv in H as [-> _]. subst.
    destruct (doVisual cfg).
    + split; [reflexivity |]. now exists w1.
    + apply ret_inv in H1 as [_ H1]. discriminate.
Qed.

Lemma main_exit2 (w w' : world) :
  main env cfg w = (w', 2) ->
  exists w1 html slim,
    slim_stages env cfg w = (w1, Ok (html, slim)) /\
    guard_and_write env cfg html slim w1 = (w', Ok 2).
Proof.
  unfold main.
  destruct ((do pages <- slim_stages env cfg;
             guard_and_write env cfg (fst pages) (snd pages)) w)
    as [w2 [code | e]] eqn:E; [| discriminate].
  intros [= -> ->].
  apply bind_ok_inv in E as (w1 & [html slim] & H1 & H). simpl in H.
  now exists w1, html, slim.
Qed.

(** The run after its first three steps. *)
Lemma main_after_stages (w0 w : world) (html slim : string) :
  slim_stages env cfg w0 = (w, Ok (html, slim)) ->
  main env cfg w0 =
  match guard_and_write env cfg html slim w with
  | (w', Ok code) => (w', code)
  | (w', Throw e) =>
      (World (files w')
             (trace w' ++ [ConsoleError ("Failed: " +:+ e)]
                       ++ (if verbose cfg then [ConsoleErrorObject e] else [])),
       1)
  end.
Proof. intros H. unfold main, bind. now rewrite H. Qed.
End Guard.

(** *** The guard, step by step *)

Lemma bind_run {A B} (m : io A) (k : A -> io B) (w w1 : world) (a : A) :
  m w = (w1, Ok a) -> bind m k w = k a w1.
Proof. intros H. unfold bind. now rewrite H. Qed.

Lemma bind_throw {A B} (m : io A) (k : A -> io B) (w w1 : world) (e : string) :
  m w = (w1, Throw e) -> bind m k w = (w1, Throw e).
Proof. intros H. unfold bind. now rewrite H. Qed.

Lemma split_app (c : ascii) (e rest : string) :
  no_char c e = true ->
  split c (e +:+ String c rest) = e :: split c rest.
Proof.
  unfold no_char. induction e as [|x e IH]; intros He.
  - simpl. now rewrite Ascii.eqb_refl.
  - simpl in He. apply andb_true_iff in He as [Hx He]. apply negb_true_iff in Hx.
    change (String x e +:+ String c rest) with (String x (e +:+ String c rest)).
    simpl split. now rewrite Hx, (IH He).
Qed.

Lemma split_join (c : ascii) (l : list string) :
  l <> [] -> Forall (fun e => no_char c e = true) l ->
  split c (join (String c "") l) = l.
Proof.
  intros Hne Hl. induction Hl as [|e l He Hl IH]; [congruence |]. clear Hne.
  destruct l as [|e' l].
  - simpl join. now apply split_no_separator.
  - change (join (String c "") (e :: e' :: l))
      with (e +:+ String c (join (String c "") (e' :: l))).
    rewrite (split_app c e _ He). f_equal. apply IH. discriminate.
Qed.

(** A list of plain entries is what the guard reads from the text that
    joins them with commas. *)
Lemma parse_viewports_join (vps : list string) :
  Forall plain_entry vps -> parse_viewports (join "," vps) = vps.
Proof.
  intros H. unfold parse_viewports.
  destruct vps as [|vp vps]; [reflexivity |].
  rewrite split_join; [| discriminate |].
  - induction H as [|e l (Hne & Htrim & _) _ IH]; [reflexivity |].
    cbn [map List.filter]. rewrite Htrim.
    replace (truthy e) with true by (symmetry; now apply truthy_true).
    now rewrite IH.
  - eapply List.Forall_impl; [| exact H]. now intros e (_ & _ & He).
Qed.

Section GuardRun.
Variable env : Collab.
Variable cfg : Config.

Lemma writeFile_run (p c : string) (w : world) :
  fs_writable env (file_key env p) = true ->
  writeFile env p c w
  = (World (<[file_key env p := c]> (files w)) (trace w), Ok tt).
Proof. intros H. unfold writeFile. now rewrite H. Qed.

Lemma log_run (msg : string) (w : world) :
  log cfg msg w
  = (World (files w)
           (trace w ++ (if verbose cfg then [ConsoleLog msg] else [])),
     Ok tt).
Proof.
  unfold log. destruct (verbose cfg); [reflexivity |].
  destruct w. unfold ret. simpl. now rewrite app_nil_r.
Qed.

Lemma snap_run (vp file page : string) (w : world) :
  files w !! file_key env file = Some page ->
  fs_writable env (file_key env (png_path file vp)) = true ->
  snap env vp file w =
  match page_screenshot env vp page with
  | Ok png =>
      (World (<[file_key env (png_path file vp) := png]> (files w))
             (trace w ++ [Snapped vp file]),
       Ok (png_path file vp))
  | Throw e => (w, Throw e)
  end.
Proof.
  intros Hpage Hw. unfold snap, bind, readFile, lift. rewrite Hpage.
  destruct (page_screenshot env vp page) as [png | e]; [| reflexivity].
  rewrite (writeFile_run _ _ _ Hw). reflexivity.
Qed.

(** One turn of the loop: the comparison is the one the collaborators give
    for the two temporary pages, and an exception of a collaborator ends
    the turn. *)
Lemma compare_viewport_run (tmp1 tmp2 vp html slim : string) (worst : N)
    (w : world) :
  let o := file_key env (png_path tmp1 vp) in
  let s := file_key env (png_path tmp2 vp) in
  let d := file_key env ("diff." +:+ vp +:+ ".png") in
  files w !! file_key env tmp1 = Some html ->
  files w !! file_key env tmp2 = Some slim ->
  fs_writable env o = true -> fs_writable env s = true ->
  fs_writable env d = true ->
  o <> file_key env tmp2 -> o <> s ->
  exists w',
    compare_viewport env cfg tmp1 tmp2 vp worst w
    = (w', match compare_pages env html slim vp with
           | Ok c => Ok (N.max worst (cmp_count c))
           | Throw e => Throw e
           end) /\
    (forall c, compare_pages env html slim vp = Ok c ->
       w' = World (<[d := cmp_diff c]>
                     (<[s := cmp_slim c]> (<[o := cmp_orig c]> (files w))))
                  (trace w ++ viewport_events cfg tmp1 tmp2 vp (cmp_count c))).
Proof.
  intros o s d H1 H2 Wo Ws Wd Ho2 Hos.
  unfold compare_viewport, compare_pages.
  unfold bind at 1. rewrite (snap_run vp tmp1 html w H1 Wo).
  destruct (page_screenshot env vp html) as [opng | e];
    [| eexists; split; [reflexivity | discriminate]].
  unfold bind at 1. rewrite (snap_run vp tmp2 slim).
  2: { simpl. fold o. now rewrite lookup_insert_ne. }
  2: { exact Ws. }
  destruct (page_screenshot env vp slim) as [spng | e];
    [| eexists; split; [reflexivity | discriminate]].
  fold o. fold s.
  unfold bind at 1, readFile at 1. simpl files. fold o.
  rewrite lookup_insert_ne by congruence. rewrite lookup_insert_eq.
  unfold bind at 1, lift at 1.
  destruct (png_read env opng) as [op | e];
    [| eexists; split; [reflexivity | discriminate]].
  unfold bind at 1, readFile at 1. simpl files. fold s.
  rewrite lookup_insert_eq.
  unfold bind at 1, lift at 1.
  destruct (png_read env spng) as [sp | e];
    [| eexists; split; [reflexivity | discriminate]].
  unfold bind at 1, lift at 1.
  destruct (pixelmatch env (png_data op) (png_data sp) (png_width op) (png_height op))
    as [r | e]; [| eexists; split; [reflexivity | discriminate]].
  unfold bind at 1, emit at 1.
  unfold bind at 1. rewrite writeFile_run by exact Wd.
  unfold bind at 1. rewrite log_run. unfold ret.
  eexists. split; [reflexivity |].
  intros c [= <-]. simpl. unfold viewport_events. fold d.
  now rewrite <- !app_assoc.
Qed.

Lemma guard_loop_run (tmp1 tmp2 html slim : string) (vps : list string) :
  Forall (fun vp =>
            fs_writable env (file_key env (png_path tmp1 vp)) = true /\
            fs_writable env (file_key env (png_path tmp2 vp)) = true /\
            fs_writable env (file_key env ("diff." +:+ vp +:+ ".png")) = true /\
            file_key env (png_path tmp1 vp) <> file_key env (png_path tmp2 vp) /\
            Forall (fun p => file_key env p <> file_key env tmp1 /\
                             file_key env p <> file_key env tmp2)
                   [png_path tmp1 vp; png_path tmp2 vp; "diff." +:+ vp +:+ ".png"])
         vps ->
  forall (cmps : list comparison) (worst : N) (w : world),
    files w !! file_key env tmp1 = Some html ->
    files w !! file_key env tmp2 = Some slim ->
    Forall2 (fun vp c => compare_pages env html slim vp = Ok c) vps cmps ->
    exists fs,
      guard_loop env cfg tmp1 tmp2 vps worst w
      = (World fs
               (trace w ++
                flat_map (fun vc => viewport_events cfg tmp1 tmp2 (fst vc)
                                      (cmp_count (snd vc)))
                         (zip vps cmps)),
         Ok (fold_left N.max (map cmp_count cmps) worst)).
Proof.
  induction 1 as [|vp vps (Wo & Ws & Wd & Hos & Hkeys) _ IH];
    intros cmps worst w H1 H2 Hc.
  - inversion Hc; subst. exists (files w). destruct w. simpl.
    now rewrite app_nil_r.
  - inversion Hc as [| ? c ? cmps' Hvp Hrest]; subst.
    inversion Hkeys as [| ? ? [Ho1 Ho2] Hkeys1]; subst.
    inversion Hkeys1 as [| ? ? [Hs1 Hs2] Hkeys2]; subst.
    inversion Hkeys2 as [| ? ? [Hd1 Hd2] _]; subst.
    destruct (compare_viewport_run tmp1 tmp2 vp html slim worst w
                H1 H2 Wo Ws Wd Ho2 Hos) as (w1 & Hrun & Hw1).
    rewrite Hvp in Hrun. rewrite (Hw1 c Hvp) in Hrun. clear Hw1.
    simpl guard_loop. rewrite (bind_run _ _ _ _ _ Hrun).
    match type of Hrun with _ = (?W, _) => set (w2 := W) in * end.
    destruct (IH cmps' (N.max worst (cmp_count c)) w2) as [fs Hloop];
      [| | exact Hrest |].
    + simpl. now rewrite !lookup_insert_ne by congruence.
    + simpl. now rewrite !lookup_insert_ne by congruence.
    + exists fs. rewrite Hloop. simpl. now rewrite <- app_assoc.
Qed.

Lemma guard_loop_throw (tmp1 tmp2 html slim : string) (done : list string)
    (vp : string) (rest : list string) (e : string) :
  Forall (fun vp =>
            fs_writable env (file_key env (png_path tmp1 vp)) = true /\
            fs_writable env (file_key env (png_path tmp2 vp)) = true /\
            fs_writable env (file_key env ("diff." +:+ vp +:+ ".png")) = true /\
            file_key env (png_path tmp1 vp) <> file_key env (png_path tmp2 vp) /\
            Forall (fun p => file_key env p <> file_key env tmp1 /\
                             file_key env p <> file_key env tmp2)
                   [png_path tmp1 vp; png_path tmp2 vp; "diff." +:+ vp +:+ ".png"])
         (done ++ vp :: rest) ->
  forall (cmps : list comparison) (worst : N) (w : world),
    files w !! file_key env tmp1 = Some html ->
    files w !! file_key env tmp2 = Some slim ->
    Forall2 (fun vp c => compare_pages env html slim vp = Ok c) done cmps ->
    compare_pages env html slim vp = Throw e ->
    snd (guard_loop env cfg tmp1 tmp2 (done ++ vp :: rest) worst w) = Throw e.
Proof.
  induction done as [|v done IH]; intros HF cmps worst w H1 H2 Hc He;
    inversion HF as [| ? ? (Wo & Ws & Wd & Hos & Hkeys) HF']; subst.
  - inversion Hkeys as [| ? ? [Ho1 Ho2] _]; subst.
    destruct (compare_viewport_run tmp1 tmp2 vp html slim worst w
                H1 H2 Wo Ws Wd Ho2 Hos) as (w1 & Hrun & _).
    rewrite He in Hrun. simpl. now rewrite (bind_throw _ _ _ _ _ Hrun).
  - inversion Hc as [| ? c ? cmps' Hv Hrest]; subst.
    inversion Hkeys as [| ? ? [Ho1 Ho2] Hkeys1]; subst.
    inversion Hkeys1 as [| ? ? [Hs1 Hs2] Hkeys2]; subst.
    inversion Hkeys2 as [| ? ? [Hd1 Hd2] _]; subst.
    destruct (compare_viewport_run tmp1 tmp2 v html slim worst w
                H1 H2 Wo Ws Wd Ho2 Hos) as (w1 & Hrun & Hw1).
    rewrite Hv in Hrun. rewrite (Hw1 c Hv) in Hrun. clear Hw1.
    simpl guard_loop. rewrite (bind_run _ _ _ _ _ Hrun).
    apply (IH HF' cmps'); try assumption.
    + simpl. now rewrite !lookup_insert_ne by congruence.
    + simpl. now rewrite !lookup_insert_ne by congruence.
Qed.

(** The files of the guard, as the loop needs them. *)
Lemma guard_files_loop (vps : list string) :
  guard_files_apart env vps ->
  fs_writable env (file_key env (tmp_orig env)) = true /\
  fs_writable env (file_key env (tmp_slim env)) = true /\
  Forall (fun vp =>
            fs_writable env (file_key env (png_path (tmp_orig env) vp)) = true /\
            fs_writable env (file_key env (png_path (tmp_slim env) vp)) = true /\
            fs_writable env (file_key env ("diff." +:+ vp +:+ ".png")) = true /\
            file_key env (png_path (tmp_orig env) vp)
            <> file_key env (png_path (tmp_slim env) vp) /\
            Forall (fun p => file_key env p <> file_key env (tmp_orig env) /\
                             file_key env p <> file_key env (tmp_slim env))
                   [png_path (tmp_orig env) vp; png_path (tmp_slim env) vp;
                    "diff." +:+ vp +:+ ".png"])
         vps.
Proof.
  intros (Hw & _ & Hvps). unfold guard_paths in Hw.
  inversion Hw as [| ? ? W1 Hw1]; subst. inversion Hw1 as [| ? ? W2 Hw2]; subst.
  split; [exact W1 |]. split; [exact W2 |]. clear Hw Hw1 W1 W2.
  induction Hvps as [|vp vps [Hos Hkeys] _ IH]; [constructor |].
  simpl in Hw2.
  inversion Hw2 as [| ? ? Wo Hw3]; subst. inversion Hw3 as [| ? ? Ws Hw4]; subst.
  inversion Hw4 as [| ? ? Wd Hw5]; subst.
  constructor; [now repeat split | now apply IH].
Qed.

(** The guard before its loop: the browser is launched and the two
    temporary pages are written. *)
Lemma visualGuard_start (originalHtml slimHtml viewportsCsv : string) (w : world) :
  deps_installed env = true ->
  puppeteer_launch env = Ok tt ->
  fs_writable env (file_key env (tmp_orig env)) = true ->
  fs_writable env (file_key env (tmp_slim env)) = true ->
  visualGuard env cfg originalHtml slimHtml viewportsCsv w
  = (do worst <- guard_loop env cfg (tmp_orig env) (tmp_slim env)
                   (parse_viewports viewportsCsv) 0%N;
     emit Closed ;; ret (worst <=? budget)%N)
      (World (<[file_key env (tmp_slim env) := slimHtml]>
                (<[file_key env (tmp_orig env) := originalHtml]> (files w)))
             (trace w ++ [Launched])).
Proof.
  intros Hdeps Hlaunch W1 W2. unfold visualGuard. rewrite Hdeps, Hlaunch.
  unfold bind at 1, lift at 1. unfold bind at 1, emit at 1.
  unfold bind at 1. rewrite writeFile_run by exact W1.
  unfold bind at 1. rewrite writeFile_run by exact W2. reflexivity.
Qed.
End GuardRun.

(** C8.  Take a run whose guard is on and has its collaborators, whose
    viewport text is a list of plain entries joined by commas, and whose
    guard can write its files.  The guard takes the pictures of the original
    and of the slimmed page at every viewport of the list, in order, and has
    them compared; when the collaborators answer each of these calls, its
    answer is whether the largest of the counts they give is at most 500, and
    the browser is closed before the answer.  On the answer no the run ends
    with the message about the visual difference and exit code 2; on the
    answer yes it does not end with 2; and when a collaborator raises an
    exception at some viewport, the guard ends with this exception and the
    run with exit code 1. *)
Theorem visual_guard_budget (env : Collab) (cfg : Config) (w0 w : world)
    (html slim : string) (vps : list string) :
  deps_installed env = true ->
  puppeteer_launch env = Ok tt ->
  doVisual cfg = true ->
  Forall plain_entry vps ->
  vpsArg cfg = join "," vps ->
  guard_files_apart env vps ->
  slim_stages env cfg w0 = (w, Ok (html, slim)) ->
  (forall cmps,
     Forall2 (fun vp c => compare_pages env html slim vp = Ok c) vps cmps ->
     exists w',
       visualGuard env cfg html slim (vpsArg cfg) w
       = (w', Ok (fold_right N.max 0 (map cmp_count cmps) <=? 500)%N) /\
       trace w' =
         trace w ++ [Launched] ++
         flat_map (fun vc => viewport_events cfg (tmp_orig env) (tmp_slim env)
                               (fst vc) (cmp_count (snd vc)))
                  (zip vps cmps) ++
         [Closed] /\
       ((500 < fold_right N.max 0 (map cmp_count cmps))%N ->
        main env cfg w0
        = (World (files w') (trace w' ++ [ConsoleError error_visual]), 2)) /\
       ((fold_right N.max 0 (map cmp_count cmps) <= 500)%N ->
        snd (main env cfg w0) <> 2)) /\
  (forall done vp rest cmps e,
     vps = done ++ vp :: rest ->
     Forall2 (fun vp c => compare_pages env html slim vp = Ok c) done cmps ->
     compare_pages env html slim vp = Throw e ->
     snd (visualGuard env cfg html slim (vpsArg cfg) w) = Throw e /\
     snd (main env cfg w0) = 1).
Proof.
  intros Hdeps Hlaunch Hvisual Hplain Hvps Hfiles Hstages.
  destruct (guard_files_loop env vps Hfiles) as (W1 & W2 & Hloopfiles).
  destruct Hfiles as (_ & Htmp & _).
  pose proof (visualGuard_start env cfg html slim (vpsArg cfg) w
                Hdeps Hlaunch W1 W2) as Hstart.
  rewrite Hvps, parse_viewports_join in Hstart by exact Hplain.
  rewrite <- Hvps in Hstart.
  set (w1 := World (<[file_key env (tmp_slim env) := slim]>
                      (<[file_key env (tmp_orig env) := html]> (files w)))
                   (trace w ++ [Launched])) in *.
  assert (F1 : files w1 !! file_key env (tmp_orig env) = Some html).
  { simpl. rewrite lookup_insert_ne by congruence. apply lookup_insert_eq. }
  assert (F2 : files w1 !! file_key env (tmp_slim env) = Some slim).
  { simpl. apply lookup_insert_eq. }
  pose proof (main_after_stages env cfg w0 w html slim Hstages) as Hmain.
  unfold guard_and_write in Hmain. rewrite Hvisual in Hmain.
  split.
  - intros cmps Hcmps.
    destruct (guard_loop_run env cfg (tmp_orig env) (tmp_slim env) html slim vps
                Hloopfiles cmps 0%N w1 F1 F2 Hcmps) as [fs Hloop].
    rewrite (bind_run _ _ _ _ _ Hloop) in Hstart.
    rewrite fold_max, N.max_0_l in Hstart.
    unfold bind, emit, ret in Hstart. simpl in Hstart.
    eexists. split; [exact Hstart |]. split.
    + simpl. now rewrite <- !app_assoc.
    + unfold bind at 1 in Hmain. rewrite Hstart in Hmain. split.
      * intros Hover. apply N.leb_gt in Hover. unfold budget in Hmain.
        rewrite Hover in Hmain. rewrite Hmain. reflexivity.
      * intros Hunder. apply N.leb_le in Hunder. unfold budget in Hmain.
        rewrite Hunder in Hmain. rewrite Hmain.
        unfold bind, writeFile, emit, ret.
        destruct (fs_writable env (file_key env (outPath cfg))); simpl; discriminate.
  - intros done vp rest cmps e Hsplit Hdone He. subst vps.
    pose proof (guard_loop_throw env cfg (tmp_orig env) (tmp_slim env) html slim
                  done vp rest e Hloopfiles cmps 0%N w1 F1 F2 Hdone He) as Hloop.
    assert (Hguard : snd (visualGuard env cfg html slim (vpsArg cfg) w) = Throw e).
    { rewrite Hstart.
      destruct (guard_loop env cfg (tmp_orig env) (tmp_slim env)
                  (done ++ vp :: rest) 0%N w1) as [w2 r] eqn:Eloop.
      simpl in Hloop. subst r. now rewrite (bind_throw _ _ _ _ _ Eloop). }
    split; [exact Hguard |]. rewrite Hmain. unfold bind at 1.
    destruct (visualGuard env cfg html slim (vpsArg cfg) w) as [w2 [ok | e1]];
      simpl in Hguard; [discriminate | reflexivity].
Qed.

Lemma demo_slim_stages (installed : bool) (out : string) :
  slim_stages (demo_env (fun _ => font_page) installed 700) (demo_cfg true out)
              empty_world
  = (empty_world,
     Ok ("<html>",
         slim_of (demo_env (fun _ => font_page) true 700) (demo_cfg true "slim.html")
                 empty_world)).
Proof. destruct installed; vm_compute; reflexivity. Qed.

Lemma demo_guard_files :
  guard_files_apart (demo_env (fun _ => font_page) true 700) ["800x600"; "390x844"].
Proof.
  split; [repeat constructor |].
  split; [vm_compute; discriminate |].
  repeat constructor; vm_compute; discriminate.
Qed.

Lemma demo_comparisons_ok :
  Forall2 (fun vp c =>
             compare_pages (demo_env (fun _ => font_page) true 700) "<html>"
               (slim_of (demo_env (fun _ => font_page) true 700)
                        (demo_cfg true "slim.html") empty_world) vp = Ok c)
          ["800x600"; "390x844"] demo_comparisons.
Proof. repeat constructor. Qed.

Lemma visual_guard_budget_witness :
  snd (main (demo_env (fun _ => font_page) true 700) (demo_cfg true "slim.html")
            empty_world) = 2.
Proof.
  destruct (visual_guard_budget
              (demo_env (fun _ => font_page) true 700)
              (demo_cfg true "slim.html") empty_world empty_world
              "<html>"
              (slim_of (demo_env (fun _ => font_page) true 700)
                       (demo_cfg true "slim.html") empty_world)
              ["800x600"; "390x844"])
    as [Hall _].
  - reflexivity.
  - reflexivity.
  - reflexivity.
  - repeat constructor; discriminate.
  - reflexivity.
  - exact demo_guard_files.
  - exact (demo_slim_stages true "slim.html").
  - destruct (Hall demo_comparisons demo_comparisons_ok) as (w' & _ & _ & Hexit & _).
    rewrite (Hexit eq_refl). reflexivity.
Defined.

(** C9.  When the collaborators of the guard cannot be loaded, the guard
    gives the warning and answers yes, touching no file; the run then goes
    on to write the slimmed page and, when that file can be written, ends
    with exit code 0; in no case does it end with the code 2 of a visual
    failure. *)
Theorem missing_tooling_degrades_to_accept (env : Collab) (cfg : Config)
    (w0 w : world) (html slim : string) :
  deps_installed env = false ->
  doVisual cfg = true ->
  slim_stages env cfg w0 = (w, Ok (html, slim)) ->
  visualGuard env cfg html slim (vpsArg cfg) w
  = (World (files w) (trace w ++ [ConsoleWarn (warn_missing_deps)]), Ok true) /\
  (fs_writable env (file_key env (outPath cfg)) = true ->
   main env cfg w0
   = (World (<[file_key env (outPath cfg) := slim]> (files w))
            (trace w ++ [ConsoleWarn (warn_missing_deps)]
                     ++ [ConsoleLog ("✔ Wrote " +:+ outPath cfg)]),
      0)) /\
  snd (main env cfg w0) <> 2.
Proof.
  intros Hdeps Hvisual Hstages.
  assert (Hguard : visualGuard env cfg html slim (vpsArg cfg) w
                   = (World (files w) (trace w ++ [ConsoleWarn (warn_missing_deps)]),
                      Ok true)).
  { unfold visualGuard. rewrite Hdeps. reflexivity. }
  split; [exact Hguard |].
  assert (Hmain : main env cfg w0 =
            if fs_writable env (file_key env (outPath cfg))
            then (World (<[file_key env (outPath cfg) := slim]> (files w))
                        (trace w ++ [ConsoleWarn (warn_missing_deps)]
                                 ++ [ConsoleLog ("✔ Wrote " +:+ outPath cfg)]),
                  0)
            else (World (files w)
                        ((trace w ++ [ConsoleWarn (warn_missing_deps)])
                         ++ [ConsoleError
                               ("Failed: " +:+ "EACCES: permission denied, open "
                                +:+ outPath cfg)]
                         ++ (if verbose cfg
                             then [ConsoleErrorObject
                                     ("EACCES: permission denied, open "
                                      +:+ outPath cfg)]
                             else [])),
                  1)).
  { rewrite (main_after_stages env cfg w0 w html slim Hstages).
    unfold guard_and_write, bind. rewrite Hvisual, Hguard.
    unfold writeFile, emit, ret. simpl.
    destruct (fs_writable env (file_key env (outPath cfg))); simpl.
    - now rewrite <- app_assoc.
    - reflexivity. }
  rewrite Hmain.
  destruct (fs_writable env (file_key env (outPath cfg))); simpl.
  - split; [reflexivity | discriminate].
  - split; [discriminate | discriminate].
Qed.

Lemma missing_tooling_degrades_to_accept_witness :
  snd (main (demo_env (fun _ => font_page) false 700) (demo_cfg true "slim.html")
            empty_world) = 0.
Proof.
  destruct (missing_tooling_degrades_to_accept
              (demo_env (fun _ => font_page) false 700)
              (demo_cfg true "slim.html") empty_world empty_world _ _
              eq_refl eq_refl (demo_slim_stages false "slim.html"))
    as (_ & Hmain & _).
  exact (f_equal snd (Hmain eq_refl)).
Defined.

(** C10, as amended.  When the run ends with exit code 2, the slimmed page
    has been computed and the guard has answered no; and provided the
    output path is none of the files the guard itself writes (the two
    temporary pages, their pictures and the difference pictures), the file
    at the output path is as it was before the run. *)
Theorem output_untouched_on_visual_failure (env : Collab) (cfg : Config)
    (w w' : world) :
  main env cfg w = (w', 2) ->
  Forall (fun p => file_key env p <> file_key env (outPath cfg))
         (guard_paths env (parse_viewports (vpsArg cfg))) ->
  doVisual cfg = true /\
  (exists w1 w2 html slim,
     slim_stages env cfg w = (w1, Ok (html, slim)) /\
     visualGuard env cfg html slim (vpsArg cfg) w1 = (w2, Ok false)) /\
  files w' !! file_key env (outPath cfg) = files w !! file_key env (outPath cfg).
Proof.
  intros Hmain Hpaths.
  apply main_exit2 in Hmain as (w1 & html & slim & Hstages & Hgw).
  apply guard_and_write_exit2 in Hgw as (Hvisual & w2 & Hguard & ->).
  split; [exact Hvisual |]. split; [now exists w1, w2, html, slim |].
  simpl.
  pose proof (keeps_file_visualGuard env cfg _ html slim (vpsArg cfg) Hpaths w1) as H2.
  pose proof (keeps_file_slim_stages env cfg (file_key env (outPath cfg)) w) as H1.
  rewrite Hguard in H2. rewrite Hstages in H1. simpl in H1, H2. congruence.
Qed.

Lemma output_untouched_on_visual_failure_witness :
  files (fst (main (demo_env (fun _ => font_page) true 700)
                   (demo_cfg true "slim.html") empty_world))
    !! file_key (demo_env (fun _ => font_page) true 700)
                (outPath (demo_cfg true "slim.html"))
  = files empty_world
    !! file_key (demo_env (fun _ => font_page) true 700)
                (outPath (demo_cfg true "slim.html")).
Proof.
  destruct (output_untouched_on_visual_failure
              (demo_env (fun _ => font_page) true 700)
              (demo_cfg true "slim.html") empty_world
              (fst (main (demo_env (fun _ => font_page) true 700)
                         (demo_cfg true "slim.html") empty_world)))
    as (_ & _ & Hfile).
  - vm_compute. reflexivity.
  - repeat constructor; vm_compute; discriminate.
  - exact Hfile.
Defined.

(** C10, as stated, fails: with the output path [.slim__tmp.html] the run
    ends with exit code 2 and the slimmed page is in the output file, which
    was not there before. *)
Lemma output_written_on_visual_failure :
  snd (main (demo_env (fun _ => font_page) true 700)
            (demo_cfg true ".slim__tmp.html") empty_world) = 2 /\
  files empty_world
    !! file_key (demo_env (fun _ => font_page) true 700)
                (outPath (demo_cfg true ".slim__tmp.html")) = None /\
  exists w1 html slim,
    slim_stages (demo_env (fun _ => font_page) true 700)
                (demo_cfg true ".slim__tmp.html") empty_world
    = (w1, Ok (html, slim)) /\
    files (fst (main (demo_env (fun _ => font_page) true 700)
                     (demo_cfg true ".slim__tmp.html") empty_world))
      !! file_key (demo_env (fun _ => font_page) true 700)
                  (outPath (demo_cfg true ".slim__tmp.html")) = Some slim.
Proof.
  split; [vm_compute; reflexivity |]. split; [reflexivity |].
  eexists. eexists. eexists. split; vm_compute; reflexivity.
Qed.

(** * Further properties of the script *)

(** ** Splitting, joining and trimming *)

(** Joining the parts of [s.split(c)] with [c] gives [s] back, and no part
    holds [c]; a text without [c] is its only part, and the first part of a
    text is what stands before its first [c] (the use of line 96, where the
    query of a reference is cut off). *)
Theorem split_join_roundtrip (c : ascii) (s : string) :
  join (String c "") (split c s) = s /\
  Forall (fun p => no_char c p = true) (split c s) /\
  (no_char c s = true -> split c s = [s]) /\
  (forall p q, s = p +:+ String c q -> no_char c p = true ->
               hd "" (split c s) = p).
Proof.
  split; [apply join_split |]. split; [apply split_parts_no_char |].
  split; [apply split_no_separator |].
  intros p q -> Hp. now apply split_hd_app.
Qed.

Lemma split_join_roundtrip_witness :
  hd "" (split "?"%char "style.css?ver=6.4") = "style.css".
Proof.
  destruct (split_join_roundtrip "?"%char "style.css?ver=6.4") as (_ & _ & _ & H).
  apply (H "style.css" "ver=6.4"); reflexivity.
Defined.

Lemma trim_empty_blank (s : string) : trim s = "" <-> blank s.
Proof.
  split.
  - intros H. destruct (trim_decompose s) as (a & b & Hs & Ha & Hb).
    rewrite H in Hs. simpl in Hs. rewrite Hs. now apply blank_app.
  - intros H. apply trimStart_empty_blank in H. unfold trim. now rewrite H.
Qed.

(** [trim] cuts white space, and only white space, from the two ends: the
    text is the trimmed text between two runs of white-space characters, of
    the ASCII range or not; the trimmed text neither starts nor ends with a
    white-space character; it is empty for a text of white space only and
    for no other; and trimming it again changes nothing. *)
Theorem trim_cuts_white_space (s : string) :
  (exists a b, s = a +:+ trim s +:+ b /\ blank a /\ blank b) /\
  starts_nonspace (trim s) = true /\
  ends_nonspace (trim s) = true /\
  (trim s = "" <-> blank s) /\
  trim (trim s) = trim s.
Proof.
  split; [apply trim_decompose |]. split; [apply trim_starts |].
  split; [apply trim_ends |]. split; [apply trim_empty_blank | apply trim_idempotent].
Qed.

Lemma list_ascii_app (a b : string) :
  list_ascii_of_string (a +:+ b) = list_ascii_of_string a ++ list_ascii_of_string b.
Proof. induction a as [|x a IH]; simpl; [reflexivity | now rewrite IH]. Qed.

Lemma no_char_middle (c : ascii) (a t b : string) :
  no_char c (a +:+ t +:+ b) = true -> no_char c t = true.
Proof.
  unfold no_char. rewrite !list_ascii_app, !forallb_app.
  intros H. apply andb_true_iff in H as [_ H]. now apply andb_true_iff in H as [H _].
Qed.

Lemma comma_list_entries (s : string) :
  Forall (fun e => e <> "" /\ trim e = e /\ no_char "," e = true)
         (List.filter truthy (map trim (split ","%char s))).
Proof.
  apply List.Forall_forall. intros e He.
  apply filter_In in He as [He Ht]. apply in_map_iff in He as [p [<- Hp]].
  split; [now apply truthy_true |]. split.
  - apply trim_idempotent.
  - pose proof (split_parts_no_char ","%char s) as Hno.
    rewrite List.Forall_forall in Hno. specialize (Hno p Hp).
    destruct (trim_decompose p) as (a & b & Hab & _).
    rewrite Hab in Hno. now apply no_char_middle in Hno.
Qed.

Lemma comma_list_join (parts : list string) :
  parts <> [] ->
  Forall (fun p => no_char "," p = true) parts ->
  List.filter truthy (map trim (split ","%char (join "," parts)))
  = List.filter truthy (map trim parts).
Proof. intros Hne Hparts. now rewrite split_join. Qed.

(** The entries read from a comma-separated flag (the safelist of line 48
    and the viewports of line 207).  Every entry is not empty, has no
    white-space character at either end and holds no comma.  For a text that
    joins comma-free parts with commas, the entries are the parts without
    the white space around them, in order, but for the parts that hold
    white space only (of the ASCII range or not) or nothing: these are
    dropped. *)
Theorem comma_flag_entries (s : string) (parts : list string) :
  Forall (fun e => e <> "" /\ trim e = e /\ no_char "," e = true)
         (parse_safelist s) /\
  Forall (fun e => e <> "" /\ trim e = e /\ no_char "," e = true)
         (parse_viewports s) /\
  (parts <> [] -> Forall (fun p => no_char "," p = true) parts ->
   parse_safelist (join "," parts) = List.filter truthy (map trim parts) /\
   parse_viewports (join "," parts) = List.filter truthy (map trim parts) /\
   forall p, In p parts ->
     (blank p -> ~ In (trim p) (parse_safelist (join "," parts))) /\
     (~ blank p -> In (trim p) (parse_safelist (join "," parts)))).
Proof.
  split; [apply comma_list_entries |]. split; [apply comma_list_entries |].
  intros Hne Hparts.
  assert (Hlist : parse_safelist (join "," parts)
                  = List.filter truthy (map trim parts))
    by now apply comma_list_join.
  split; [exact Hlist |]. split; [now apply comma_list_join |].
  intros p Hp. rewrite Hlist. split.
  - intros Hb HIn. apply filter_In in HIn as [_ Ht].
    apply trim_empty_blank in Hb. rewrite Hb in Ht. discriminate.
  - intros Hnb. apply filter_In. split.
    + apply in_map_iff. now exists p.
    + apply truthy_true. intros Ht. apply Hnb. now apply trim_empty_blank.
Qed.

Lemma comma_flag_entries_witness :
  parse_safelist (join "," ["my-prefix-"; bytes [194; 160]; " exact-keep "])
  = ["my-prefix-"; "exact-keep"].
Proof.
  destruct (comma_flag_entries "" ["my-prefix-"; bytes [194; 160]; " exact-keep "])
    as (_ & _ & H).
  destruct H as (H & _); [discriminate | repeat constructor |].
  rewrite H. vm_compute. reflexivity.
Defined.

(** ** [uniques] *)

Lemma set_of_In (l : list string) (x : string) : In x (set_of l) <-> In x l.
Proof.
  induction l as [|y l IH]; simpl; [reflexivity |].
  rewrite filter_In, IH. split.
  - intros [H | [H _]]; auto.
  - intros [H | H]; [now left |].
    destruct (String.eqb_spec x y) as [-> | Hne]; [now left | right].
    now split.
Qed.

Lemma set_of_NoDup (l : list string) : List.NoDup (set_of l).
Proof.
  induction l as [|y l IH]; simpl; constructor.
  - rewrite filter_In. intros [_ H]. now rewrite String.eqb_refl in H.
  - now apply List.NoDup_filter.
Qed.

Lemma filter_all {A} (f : A -> bool) (l : list A) :
  (forall x, In x l -> f x = true) -> List.filter f l = l.
Proof.
  induction l as [|y l IH]; simpl; intros H; [reflexivity |].
  rewrite (H y (or_introl eq_refl)). f_equal. apply IH. intros x Hx. apply H. now right.
Qed.

Lemma set_of_fixed (l : list string) : List.NoDup l -> set_of l = l.
Proof.
  induction l as [|y l IH]; intros Hn; [reflexivity |].
  inversion Hn as [| ? ? Hy Hn1]; subst. simpl. rewrite (IH Hn1). f_equal.
  apply filter_all. intros x Hx. apply negb_true_iff. apply String.eqb_neq.
  intros ->. contradiction.
Qed.

(** [uniques] keeps every value that is not the empty text, once: its result
    has no repetition, holds no empty text and has the members of the
    argument that are not empty; applying it again changes nothing. *)
Theorem uniques_distinct_nonempty (arr : list string) :
  List.NoDup (uniques arr) /\
  (forall x, In x (uniques arr) <-> In x arr /\ x <> "") /\
  uniques (uniques arr) = uniques arr.
Proof.
  assert (Hmem : forall x, In x (uniques arr) <-> In x arr /\ x <> "").
  { intros x. unfold uniques. rewrite filter_In, set_of_In, truthy_true.
    reflexivity. }
  assert (Hnd : List.NoDup (uniques arr)).
  { unfold uniques. apply List.NoDup_filter, set_of_NoDup. }
  split; [apply Hnd |]. split; [apply Hmem |].
  unfold uniques at 1. rewrite (set_of_fixed _ Hnd).
  apply filter_all. intros x Hx. apply truthy_true. now apply Hmem in Hx.
Qed.

(** ** The command line *)

Lemma parseArgs_from_cons (k : string) (rest : list string)
    (args : gmap string argval) :
  parseArgs_from (k :: rest) args =
  if startsWith "--" k then
    match rest with
    | v :: rest' =>
        if truthy v && negb (startsWith "--" v)
        then parseArgs_from rest' (set_arg (drop 2 k) (AStr v) args)
        else parseArgs_from rest (set_arg (drop 2 k) ATrue args)
    | [] => set_arg (drop 2 k) ATrue args
    end
  else parseArgs_from rest args.
Proof. reflexivity. Qed.

Lemma set_arg_values (key : string) (v : argval) (args : gmap string argval) :
  (forall s, v = AStr s -> truthy s = true /\ startsWith "--" s = false) ->
  values_wellformed args -> values_wellformed (set_arg key v args).
Proof.
  intros Hv Hwf. unfold set_arg. destruct (String.eqb key "__proto__"); [exact Hwf |].
  intros k' s. destruct (decide (key = k')) as [<- | Hne].
  - rewrite lookup_insert_eq. intros [= ->]. now apply Hv.
  - rewrite lookup_insert_ne by exact Hne. apply Hwf.
Qed.

Lemma parseArgs_from_values (n : nat) :
  forall argv args, length argv <= n ->
    values_wellformed args -> values_wellformed (parseArgs_from argv args).
Proof.
  induction n as [|n IH]; intros argv args Hlen Hwf.
  - destruct argv; [exact Hwf | simpl in Hlen; lia].
  - destruct argv as [|k rest]; [exact Hwf |]. simpl in Hlen.
    rewrite parseArgs_from_cons.
    destruct (startsWith "--" k); [| apply IH; [lia | exact Hwf]].
    destruct rest as [|v rest'].
    + apply set_arg_values; [discriminate | exact Hwf].
    + destruct (truthy v && negb (startsWith "--" v)) eqn:E.
      * apply IH; [simpl in Hlen; lia |].
        apply andb_true_iff in E as [Ev Ef]. apply negb_true_iff in Ef.
        apply set_arg_values; [| exact Hwf]. intros s [= <-]. now split.
      * apply IH; [lia |]. apply set_arg_values; [discriminate | exact Hwf].
Qed.

(** A flag never holds an empty text nor a text that starts with two
    dashes: such a token after a flag is not taken as its value. *)
Theorem parseArgs_values_wellformed (argv : list string) (k s : string) :
  parseArgs argv !! k = Some (AStr s) ->
  s <> "" /\ startsWith "--" s = false.
Proof.
  intros H.
  assert (Hwf : values_wellformed (parseArgs argv)).
  { unfold parseArgs. apply (parseArgs_from_values (length (skipn 2 argv))); [lia |].
    intros k' s'. rewrite lookup_empty. discriminate. }
  destruct (Hwf k s H) as [H1 H2]. split; [now apply truthy_true | exact H2].
Qed.

Lemma parseArgs_values_wellformed_witness :
  "index.html" <> "" /\ startsWith "--" "index.html" = false.
Proof.
  apply (parseArgs_values_wellformed
           ["node"; "cli.mjs"; "--in"; "index.html"; "--no-visual"] "in").
  vm_compute. reflexivity.
Defined.

Lemma set_arg_keys (k : string) (v : argval) (args : gmap string argval)
    (key : string) :
  is_Some (set_arg k v args !! key) <->
  is_Some (args !! key) \/ (key = k /\ key <> "__proto__").
Proof.
  unfold set_arg. destruct (String.eqb_spec k "__proto__") as [-> | Hk].
  - split; [now left |]. intros [H | [-> H]]; [exact H | congruence].
  - rewrite lookup_insert_is_Some. split.
    + intros [<- | [_ H]]; [right; now split | now left].
    + intros [H | [-> _]]; [| now left].
      destruct (decide (k = key)); [now left | now right].
Qed.

Lemma parseArgs_from_keys (n : nat) :
  forall argv args key, length argv <= n ->
    (is_Some (parseArgs_from argv args !! key) <->
     is_Some (args !! key) \/
     (key <> "__proto__" /\
      exists k, In k argv /\ startsWith "--" k = true /\ key = drop 2 k)).
Proof.
  induction n as [|n IH]; intros argv args key Hlen.
  - destruct argv; [| simpl in Hlen; lia]. simpl. split; [now left |].
    intros [H | (_ & k & [] & _)]. exact H.
  - destruct argv as [|k rest].
    { simpl. split; [now left |]. intros [H | (_ & k & [] & _)]. exact H. }
    simpl in Hlen. rewrite parseArgs_from_cons.
    destruct (startsWith "--" k) eqn:Ek.
    + destruct rest as [|v rest'].
      * rewrite set_arg_keys. split.
        -- intros [H | [-> Hp]]; [now left | right]. split; [exact Hp |].
           exists k. simpl. auto.
        -- intros [H | (Hp & k' & [<- | []] & _ & ->)]; auto.
      * destruct (truthy v && negb (startsWith "--" v)) eqn:E.
        -- rewrite IH by (simpl in Hlen; lia). rewrite set_arg_keys. split.
           ++ intros [[H | [-> Hp]] | (Hp & k' & Hin & Hk' & ->)].
              ** now left.
              ** right. split; [exact Hp |]. exists k. simpl. auto.
              ** right. split; [exact Hp |]. exists k'. simpl. auto.
           ++ intros [H | (Hp & k' & Hin & Hk' & ->)]; [now left; left |].
              destruct Hin as [<- | [<- | Hin]].
              ** left. right. now split.
              ** apply andb_true_iff in E as [_ E]. apply negb_true_iff in E.
                 congruence.
              ** right. split; [exact Hp |]. now exists k'.
        -- rewrite IH by lia. rewrite set_arg_keys. split.
           ++ intros [[H | [-> Hp]] | (Hp & k' & Hin & Hk' & ->)].
              ** now left.
              ** right. split; [exact Hp |]. exists k. simpl. auto.
              ** right. split; [exact Hp |]. exists k'. split; [now right | auto].
           ++ intros [H | (Hp & k' & Hin & Hk' & ->)]; [now left; left |].
              destruct Hin as [<- | Hin].
              ** left. right. now split.
              ** right. split; [exact Hp |]. now exists k'.
    + rewrite IH by lia. split.
      * intros [H | (Hp & k' & Hin & Hk' & ->)]; [now left | right].
        split; [exact Hp |]. exists k'. split; [now right | auto].
      * intros [H | (Hp & k' & Hin & Hk' & ->)]; [now left |].
        destruct Hin as [<- | Hin]; [congruence |].
        right. split; [exact Hp |]. now exists k'.
Qed.

Lemma startsWith_drop (p s : string) :
  startsWith p s = true -> s = p +:+ drop (String.length p) s.
Proof.
  revert s. induction p as [|a p IH]; intros s; simpl; [reflexivity |].
  destruct s as [|b s]; [discriminate |]. intros H.
  apply andb_true_iff in H as [Hab Hp]. apply Ascii.eqb_eq in Hab. subst.
  now rewrite <- (IH s Hp).
Qed.

(** The keys of the parsed command line are the tokens that start with two
    dashes, without the dashes, among the arguments after the first two:
    none of them is passed over, and nothing else makes a key; the one
    exception is the token [--__proto__], which makes no key, since the
    arguments are the properties of a plain object.  So the guard is off
    exactly when [--no-visual] is among these arguments. *)
Theorem parseArgs_keys (argv : list string) :
  (forall key,
     is_Some (parseArgs argv !! key) <->
     key <> "__proto__" /\
     exists k, In k (skipn 2 argv) /\ startsWith "--" k = true /\ key = drop 2 k) /\
  (flag_set (parseArgs argv) "no-visual" = true <->
   In "--no-visual" (skipn 2 argv)).
Proof.
  assert (Hkeys : forall key,
     is_Some (parseArgs argv !! key) <->
     key <> "__proto__" /\
     exists k, In k (skipn 2 argv) /\ startsWith "--" k = true /\ key = drop 2 k).
  { intros key. unfold parseArgs.
    rewrite (parseArgs_from_keys (length (skipn 2 argv))) by lia.
    rewrite lookup_empty. split.
    - intros [[x Hx] | H]; [discriminate | exact H].
    - intros H. now right. }
  split; [exact Hkeys |].
  unfold flag_set. split.
  - intros H.
    assert (Hs : is_Some (parseArgs argv !! "no-visual")).
    { destruct (parseArgs argv !! "no-visual"); [eauto | discriminate]. }
    apply Hkeys in Hs as (_ & k & Hin & Hk & Hd).
    pose proof (startsWith_drop _ _ Hk) as Hk2. simpl String.length in Hk2.
    rewrite <- Hd in Hk2. now subst k.
  - intros Hin.
    assert (Hs : is_Some (parseArgs argv !! "no-visual")).
    { apply Hkeys. split; [discriminate |]. now exists "--no-visual". }
    destruct Hs as [v ->]. reflexivity.
Qed.

Lemma or_null_Some (x : option string) (s : string) :
  or_null x = Some s -> x = Some s /\ s <> "".
Proof.
  unfold or_null. destruct x as [t |]; [| discriminate].
  destruct (truthy t) eqn:E; [| discriminate].
  intros [= <-]. split; [reflexivity | now apply truthy_true].
Qed.

Lemma or_default_nonempty (x : option string) (d : string) :
  d <> "" -> or_default x d <> "".
Proof.
  intros Hd. unfold or_default. destruct (or_null x) as [s |] eqn:E; [| exact Hd].
  now apply or_null_Some in E.
Qed.

Lemma flag_value_text (args : gmap string argval) (k s : string) :
  flag_value args k = Some (AStr s) -> s <> "".
Proof.
  unfold flag_value. destruct (args !! k) as [[| t] |]; try discriminate.
  destruct (truthy t) eqn:E; [| discriminate].
  intros [= <-]. now apply truthy_true.
Qed.

(** When the script starts.  Take a command line on which none of [--in],
    [--out], [--viewports] and [--safelist] stands without its text, on
    which a page source is given by [--in] or by [--url], and for which the
    origin of the address can be computed where it is needed (an address
    and no base).  Then the script starts, and in its configuration the
    input path and the address of the page, where given, are not empty; the
    output path and the viewport list are not empty, the defaults standing
    in for absent flags; the guard is on unless [--no-visual] is set; and
    the font links are kept only if [--keep-font-links] is set. *)
Theorem configure_started (env : Collab) (args : gmap string argval) :
  Forall (fun k => holds_true (flag_value args k) = false)
         ["in"; "out"; "viewports"; "safelist"] ->
  flag_value args "in" <> None \/ flag_value args "url" <> None ->
  (flag_value args "base" = None ->
   forall v, flag_value args "url" = Some v ->
             exists o, url_origin env (text_of v) = Ok o) ->
  exists cfg,
    configure env args = Started cfg /\
    (inputPath cfg <> None \/ pageUrl cfg <> None) /\
    (inputPath cfg = None <-> flag_value args "in" = None) /\
    (pageUrl cfg = None <-> flag_value args "url" = None) /\
    (forall p, inputPath cfg = Some p -> p <> "") /\
    (forall u, pageUrl cfg = Some u -> u <> "") /\
    outPath cfg <> "" /\
    (flag_value args "out" = None -> outPath cfg = "slim.html") /\
    vpsArg cfg <> "" /\
    (flag_value args "viewports" = None ->
     vpsArg cfg = "1440x900,1024x768,768x1024,390x844") /\
    doVisual cfg = negb (flag_set args "no-visual") /\
    keepFontLinks cfg = flag_set args "keep-font-links".
Proof.
  intros Htyped Hsrc Horigin.
  inversion Htyped as [| ? ? Tin H1]; subst. inversion H1 as [| ? ? Tout H2]; subst.
  inversion H2 as [| ? ? Tvps H3]; subst. inversion H3 as [| ? ? Tsafe _]; subst.
  clear Htyped H1 H2 H3.
  pose proof (flag_value_text args "in") as Nin.
  pose proof (flag_value_text args "url") as Nurl.
  unfold configure. rewrite Tsafe, Tin, Tout, Tvps. cbn [orb].
  assert (Hfields : forall base,
    let cfg := {| inputPath := as_text (flag_value args "in");
                  pageUrl := option_map text_of (flag_value args "url");
                  outPath := or_default (as_text (flag_value args "out")) "slim.html";
                  doVisual := negb (flag_set args "no-visual");
                  keepFontLinks := flag_set args "keep-font-links";
                  vpsArg := or_default (as_text (flag_value args "viewports"))
                              "1440x900,1024x768,768x1024,390x844";
                  safelistExtra :=
                    parse_safelist (or_default (as_text (flag_value args "safelist")) "");
                  verbose := flag_set args "verbose";
                  baseUrl := base |} in
    (inputPath cfg <> None \/ pageUrl cfg <> None) /\
    (inputPath cfg = None <-> flag_value args "in" = None) /\
    (pageUrl cfg = None <-> flag_value args "url" = None) /\
    (forall p, inputPath cfg = Some p -> p <> "") /\
    (forall u, pageUrl cfg = Some u -> u <> "") /\
    outPath cfg <> "" /\
    (flag_value args "out" = None -> outPath cfg = "slim.html") /\
    vpsArg cfg <> "" /\
    (flag_value args "viewports" = None ->
     vpsArg cfg = "1440x900,1024x768,768x1024,390x844") /\
    doVisual cfg = negb (flag_set args "no-visual") /\
    keepFontLinks cfg = flag_set args "keep-font-links").
  { intros base. cbn.
    destruct (flag_value args "in") as [[| p] |] eqn:Ein; try discriminate;
      destruct (flag_value args "url") as [[| u] |] eqn:Eurl; cbn;
      repeat split; intros; try discriminate; try congruence;
      try (apply or_default_nonempty; discriminate);
      try (match goal with H : flag_value _ _ = None |- _ => rewrite H end;
           reflexivity);
      try (left; discriminate); try (right; discriminate);
      try (destruct Hsrc; congruence);
      try (match goal with H : Some _ = Some _ |- _ =>
             injection H as <-; first [now apply Nin | now apply Nurl] end). }
  destruct (flag_value args "in") as [a_in |] eqn:Ein;
    destruct (flag_value args "url") as [a_url |] eqn:Eurl;
    try (exfalso; destruct Hsrc; congruence);
    destruct (flag_value args "base") as [b |] eqn:Ebase; cbn [option_map];
    try (destruct (Horigin eq_refl a_url eq_refl) as [o ->]);
    eexists; (split; [reflexivity | apply Hfields]).
Qed.

Lemma configure_started_witness :
  exists cfg,
    configure (demo_env (fun _ => font_page) true 0)
              (parseArgs ["node"; "cli.mjs"; "--url"; "https://example.com/landing"])
    = Started cfg /\
    outPath cfg = "slim.html".
Proof.
  destruct (configure_started (demo_env (fun _ => font_page) true 0)
              (parseArgs ["node"; "cli.mjs"; "--url"; "https://example.com/landing"]))
    as (cfg & Hcfg & _ & _ & _ & _ & _ & _ & Hout & _).
  - repeat constructor.
  - right. vm_compute. discriminate.
  - intros _ v _. eexists. reflexivity.
  - exists cfg. split; [exact Hcfg | now apply Hout].
Defined.

Lemma holds_true_flag_value (args : gmap string argval) (k : string) :
  holds_true (flag_value args k) = true <-> args !! k = Some ATrue.
Proof.
  unfold flag_value. destruct (args !! k) as [[| s] |]; simpl.
  - tauto.
  - destruct (truthy s); simpl; split; intros; discriminate.
  - split; intros; discriminate.
Qed.

(** The two ends of the script before anything is read.  With [--safelist]
    and no list after it, line 48 raises a [TypeError] that nothing catches,
    whatever else is on the command line: the process ends with exit code
    1 and without the usage line.  Otherwise, without [--in] and without
    [--url], the script prints the usage line and ends with exit code 1.
    In both cases no file or address is read and no file is written. *)
Theorem usage_exit (env : Collab) (argv : list string) (w : world) :
  (parseArgs argv !! "safelist" = Some ATrue ->
   run env argv w = Some (World (files w) (trace w ++ [Uncaught error_safelist]), 1)) /\
  (parseArgs argv !! "safelist" <> Some ATrue ->
   parseArgs argv !! "in" = None ->
   parseArgs argv !! "url" = None ->
   run env argv w
   = Some (World (files w) (trace w ++ [ConsoleError usage_error]), 1)).
Proof.
  unfold run, configure. split.
  - intros Hsafe. apply holds_true_flag_value in Hsafe. now rewrite Hsafe.
  - intros Hsafe Hin Hurl. cbv zeta.
    assert (Fin : flag_value (parseArgs argv) "in" = None)
      by (unfold flag_value; now rewrite Hin).
    assert (Furl : flag_value (parseArgs argv) "url" = None)
      by (unfold flag_value; now rewrite Hurl).
    destruct (holds_true (flag_value (parseArgs argv) "safelist")) eqn:E.
    + now apply holds_true_flag_value in E.
    + now rewrite Fin, Furl.
Qed.

Lemma usage_exit_witness :
  run (demo_env (fun _ => font_page) true 0)
      ["node"; "cli.mjs"; "--in"; "index.html"; "--safelist"] empty_world
  = Some (World ∅ [Uncaught error_safelist], 1) /\
  run (demo_env (fun _ => font_page) true 0)
      ["node"; "cli.mjs"; "--out"; "--verbose"] empty_world
  = Some (World ∅ [ConsoleError usage_error], 1).
Proof.
  split.
  - apply (usage_exit (demo_env (fun _ => font_page) true 0)
             ["node"; "cli.mjs"; "--in"; "index.html"; "--safelist"] empty_world).
    vm_compute. reflexivity.
  - apply (usage_exit (demo_env (fun _ => font_page) true 0)
             ["node"; "cli.mjs"; "--out"; "--verbose"] empty_world).
    + vm_compute. discriminate.
    + vm_compute. reflexivity.
    + vm_compute. reflexivity.
Defined.

(** ** References and the aggregator *)

Lemma startsWith_ci_first (a : ascii) (p s : string) :
  startsWith_ci (String a p) s = true ->
  exists b s', s = String b s' /\ lower_char b = a /\ startsWith_ci p s' = true.
Proof.
  destruct s as [|b s']; [discriminate |].
  change (startsWith_ci (String a p) (String b s'))
    with (Ascii.eqb a (lower_char b) && startsWith_ci p s').
  intros H. apply andb_true_iff in H as [H1 H2]. apply Ascii.eqb_eq in H1.
  now exists b, s'.
Qed.

Lemma startsWith_ci_app (p q s : string) :
  startsWith_ci (p +:+ q) s = true -> startsWith_ci p s = true.
Proof.
  revert s. induction p as [|a p IH]; intros s H; [reflexivity |].
  change (String a p +:+ q) with (String a (p +:+ q)) in H.
  destruct (startsWith_ci_first _ _ _ H) as (b & s' & -> & Hb & Hp).
  change (Ascii.eqb a (lower_char b) && startsWith_ci p s' = true).
  rewrite Hb, Ascii.eqb_refl. now apply IH.
Qed.

Lemma http_first_char (u : string) :
  re_http_slashes u = true ->
  exists b s', u = String b s' /\ lower_char b = "h"%char.
Proof.
  unfold re_http_slashes. intros H.
  apply orb_true_iff in H as [H | H];
    destruct (startsWith_ci_first _ _ _ H) as (b & s' & -> & Hb & _);
    now exists b, s'.
Qed.

Lemma http_not_data (u : string) :
  re_http_slashes u = true -> truthy u = true /\ startsWith "data:" u = false.
Proof.
  intros H. destruct (http_first_char u H) as (b & s' & -> & Hb).
  split; [reflexivity |].
  change (Ascii.eqb "d" b && startsWith "ata:" s' = false).
  destruct (Ascii.eqb_spec "d"%char b) as [<- | Hne]; [| reflexivity].
  vm_compute in Hb. discriminate.
Qed.

Lemma http_slashes_is_http (u : string) :
  re_http_slashes u = true -> re_http u = true.
Proof.
  unfold re_http_slashes, re_http. intros H.
  apply orb_true_iff in H as [H | H]; apply orb_true_iff; [left | right].
  - now apply (startsWith_ci_app "http:" "//").
  - now apply (startsWith_ci_app "https:" "//").
Qed.

(** [absUrl] gives no address exactly for the empty reference and for a
    [data:] reference; a reference that starts with [http://] or [https://],
    in whatever letter case, is given back as it is, without any call to the
    URL collaborator. *)
Theorem absUrl_cases (env : Collab) (u base : string) :
  (absUrl env u base = Ok None <-> u = "" \/ startsWith "data:" u = true) /\
  (re_http_slashes u = true -> absUrl env u base = Ok (Some u)).
Proof.
  split.
  - unfold absUrl. destruct (truthy u) eqn:Eu; cbn [negb].
    + apply truthy_true in Eu.
      destruct (startsWith "data:" u) eqn:Ed; [split; auto |].
      destruct (re_http_slashes u).
      { split; [discriminate | intros [H | H]; [contradiction | discriminate]]. }
      destruct (startsWith "//" u).
      { destruct (url_protocol env base);
          (split; [discriminate | intros [H | H]; [contradiction | discriminate]]). }
      destruct (if startsWith "/" u then url_href env u base else url_href env u base);
        (split; [discriminate | intros [H | H]; [contradiction | discriminate]]).
    + split; [| reflexivity]. intros _. left.
      unfold truthy in Eu. apply negb_false_iff in Eu. now apply String.eqb_eq.
  - intros H. destruct (http_not_data u H) as [Ht Hd].
    unfold absUrl. rewrite Ht, Hd, H. reflexivity.
Qed.

Lemma absUrl_cases_witness :
  absUrl (demo_env (fun _ => font_page) true 0)
         "HTTPS://cdn.example.org/site.css" "https://example.com"
  = Ok (Some "HTTPS://cdn.example.org/site.css").
Proof.
  apply (absUrl_cases (demo_env (fun _ => font_page) true 0)
           "HTTPS://cdn.example.org/site.css" "https://example.com").
  reflexivity.
Defined.

Lemma absUrl_None (env : Collab) (u base : string) :
  u = "" \/ startsWith "data:" u = true -> absUrl env u base = Ok None.
Proof.
  intros [-> | H]; unfold absUrl; [reflexivity |].
  destruct (truthy u); cbn [negb]; [now rewrite H | reflexivity].
Qed.

(** A link without a reference, with an empty one or with a [data:]
    reference is passed over without any effect: nothing is fetched, read or
    printed. *)
Theorem link_without_address_skipped (env : Collab) (cfg : Config)
    (link : node) (w : world) :
  getAttribute "href" link = None \/
  getAttribute "href" link = Some "" \/
  startsWith "data:" (attr_or_empty "href" link) = true ->
  load_link env cfg link w = (w, Ok None).
Proof.
  intros H.
  assert (Habs : absUrl env (attr_or_empty "href" link) (baseUrl cfg) = Ok None).
  { apply absUrl_None. unfold attr_or_empty in *.
    destruct H as [-> | [-> | H]]; auto. }
  unfold load_link, bind, lift. now rewrite Habs.
Qed.

Lemma link_without_address_skipped_witness :
  load_link (demo_env (fun _ => font_page) true 0) local_cfg
            (Element "link" [("rel", "stylesheet")] []) empty_world
  = (empty_world, Ok None).
Proof.
  apply link_without_address_skipped. left. reflexivity.
Defined.

(** A stylesheet whose reference starts with [http://] or [https://] is
    always fetched from that very address, also when the page comes from a
    local file: what the link contributes is the fetched text, nothing if
    that text is empty, and a rejected fetch ends the loading. *)
Theorem absolute_stylesheet_fetched (env : Collab) (cfg : Config)
    (link : node) (w : world) :
  re_http_slashes (attr_or_empty "href" link) = true ->
  snd (load_link env cfg link w)
  = match fetch_text env (attr_or_empty "href" link) with
    | Ok css => Ok (if truthy css then Some css else None)
    | Throw e => Throw e
    end.
Proof.
  intros H. destruct (http_not_data _ H) as [Ht Hd].
  pose proof (http_slashes_is_http _ H) as Hh.
  unfold load_link, bind, lift, absUrl. rewrite Ht, Hd, H. cbn [negb]. rewrite Ht.
  unfold read_stylesheet. rewrite Hh. unfold bind, log, lift.
  destruct (verbose cfg); simpl;
    destruct (fetch_text env (attr_or_empty "href" link)) as [css | e]; simpl;
    try reflexivity; destruct (truthy css); reflexivity.
Qed.

Lemma absolute_stylesheet_fetched_witness :
  snd (load_link (demo_env (fun _ => font_page) true 0) local_cfg
                 (stylesheet_link "https://example.com/c.css" []) empty_world)
  = Ok (Some "c{color:blue}").
Proof.
  apply (absolute_stylesheet_fetched (demo_env (fun _ => font_page) true 0) local_cfg
           (stylesheet_link "https://example.com/c.css" []) empty_world).
  reflexivity.
Defined.

(** ** The first three steps have no effect but reading *)

Section Quiet.
Variable env : Collab.
Variable cfg : Config.
Hypothesis quiet : verbose cfg = false.

Lemma reports_only_ret {A} (a : A) : reports_only env (ret a).
Proof.
  intros w. exists []. split; [| constructor].
  destruct w. simpl. now rewrite app_nil_r.
Qed.

Lemma reports_only_lift {A} (r : result A) : reports_only env (lift r).
Proof. exact (reports_only_ret tt). Qed.

Lemma reports_only_throw {A} (e : string) : reports_only env (@throw A e).
Proof. exact (reports_only_ret tt). Qed.

Lemma reports_only_bind {A B} (m : io A) (f : A -> io B) :
  reports_only env m -> (forall a, reports_only env (f a)) ->
  reports_only env (bind m f).
Proof.
  intros Hm Hf w. unfold bind. destruct (Hm w) as (msgs & Hw & Hmsgs).
  destruct (m w) as [w1 [a | e]]; simpl in Hw; subst w1.
  - destruct (Hf a (World (files w) (trace w ++ map ConsoleError msgs)))
      as (msgs' & Hw' & Hmsgs').
    exists (msgs ++ msgs'). split; [| now apply Forall_app].
    rewrite Hw'. simpl. now rewrite map_app, app_assoc.
  - now exists msgs.
Qed.

Lemma reports_only_try_catch {A} (m : io A) (h : string -> io A) :
  reports_only env m -> (forall e, reports_only env (h e)) ->
  reports_only env (try_catch m h).
Proof.
  intros Hm Hh w. unfold try_catch. destruct (Hm w) as (msgs & Hw & Hmsgs).
  destruct (m w) as [w1 [a | e]]; simpl in Hw; subst w1.
  - now exists msgs.
  - destruct (Hh e (World (files w) (trace w ++ map ConsoleError msgs)))
      as (msgs' & Hw' & Hmsgs').
    exists (msgs ++ msgs'). split; [| now apply Forall_app].
    rewrite Hw'. simpl. now rewrite map_app, app_assoc.
Qed.

Lemma reports_only_log (msg : string) : reports_only env (log cfg msg).
Proof. unfold log. rewrite quiet. apply reports_only_ret. Qed.

Lemma reports_only_readFile (p : string) : reports_only env (readFile env p).
Proof.
  intros w. exists []. split; [| constructor].
  unfold readFile. destruct (files w !! file_key env p); destruct w; simpl;
    now rewrite app_nil_r.
Qed.

Lemma reports_only_report (msgs : list string) :
  Forall (jsdom_report env) msgs -> reports_only env (report msgs).
Proof.
  induction 1 as [|msg msgs Hmsg _ IH]; [apply reports_only_ret |].
  intros w. simpl report. unfold bind, emit.
  destruct (IH (World (files w) (trace w ++ [ConsoleError msg])))
    as (msgs' & Hw' & Hmsgs').
  exists (msg :: msgs'). split; [| now constructor].
  rewrite Hw'. simpl. now rewrite <- app_assoc.
Qed.

Lemma reports_only_page (html : string) :
  reports_only env (report (jsdom_errors env html)).
Proof.
  apply reports_only_report, List.Forall_forall. intros msg Hmsg.
  exists html. now left.
Qed.

Lemma reports_only_style (css : string) :
  reports_only env (report (jsdom_style_errors env css)).
Proof.
  apply reports_only_report, List.Forall_forall. intros msg Hmsg.
  exists css. now right.
Qed.

Ltac quiet_step :=
  first
    [ apply reports_only_ret | apply reports_only_lift | apply reports_only_throw
    | apply reports_only_log | apply reports_only_readFile
    | apply reports_only_page | apply reports_only_style
    | apply reports_only_bind | apply reports_only_try_catch ].

Ltac quiet_steps := repeat (intros; quiet_step).

Lemma reports_only_load_link (link : node) :
  reports_only env (load_link env cfg link).
Proof.
  unfold load_link. apply reports_only_bind; [quiet_steps | intros [url |]];
    [| quiet_steps].
  destruct (truthy url); [| quiet_steps].
  apply reports_only_bind; [| intros css; destruct (truthy css); quiet_steps].
  unfold read_stylesheet.
  destruct (if re_http url then None else or_null (inputPath cfg)); quiet_steps.
Qed.

Lemma reports_only_gather_linked (links : list node) :
  forall acc, reports_only env (gather_linked env cfg links acc).
Proof.
  induction links as [|l links IH]; intros acc; simpl; [quiet_steps |].
  apply reports_only_bind; [apply reports_only_load_link | intros [css |]; apply IH].
Qed.

Lemma reports_only_slim_stages : reports_only env (slim_stages env cfg).
Proof.
  unfold slim_stages, loadHtmlAndCss, gatherCss, purgeCss, minifyCss,
    serializeWithStyle, new_JSDOM.
  quiet_steps.
  - destruct (or_null (pageUrl cfg)); quiet_steps.
    destruct (inputPath cfg); quiet_steps.
  - apply reports_only_gather_linked.
Qed.
End Quiet.

(** Loading, pruning, minifying and assembling write no file, whatever their
    outcome; and unless [--verbose] is set they print no line of their own:
    what they add to the console are the reports of jsdom, on the error
    stream, so that with a jsdom that has nothing to report the world after
    these steps is the world before them. *)
Theorem stages_only_read (env : Collab) (cfg : Config) (w : world) :
  files (fst (slim_stages env cfg w)) = files w /\
  (verbose cfg = false ->
   exists msgs,
     fst (slim_stages env cfg w)
     = World (files w) (trace w ++ map ConsoleError msgs) /\
     Forall (jsdom_report env) msgs /\
     ((forall text, jsdom_errors env text = [] /\ jsdom_style_errors env text = []) ->
      fst (slim_stages env cfg w) = w)).
Proof.
  split.
  - apply map_eq. intros k. apply keeps_file_slim_stages.
  - intros Hq. destruct (reports_only_slim_stages env cfg Hq w) as (msgs & Hw & Hmsgs).
    exists msgs. split; [exact Hw |]. split; [exact Hmsgs |].
    intros Hnone. rewrite Hw.
    destruct msgs as [|msg msgs].
    + destruct w. simpl. now rewrite app_nil_r.
    + inversion Hmsgs as [| ? ? [text [Hin | Hin]] _]; subst;
        destruct (Hnone text) as [H1 H2]; rewrite ?H1, ?H2 in Hin; destruct Hin.
Qed.

Lemma stages_only_read_witness :
  fst (slim_stages (demo_env (fun _ => font_page) true 0) (demo_cfg false "slim.html")
                   empty_world) = empty_world.
Proof.
  destruct (stages_only_read (demo_env (fun _ => font_page) true 0)
              (demo_cfg false "slim.html") empty_world) as [_ H].
  destruct (H eq_refl) as (msgs & _ & _ & Hnone).
  apply Hnone. intros text. split; reflexivity.
Defined.

(** Pruning never turns a stylesheet that is not empty into an empty one:
    where PurgeCSS gives no text, or an empty one, the aggregate is kept as
    it is; and pruning changes nothing in the world. *)
Theorem purge_keeps_nonempty (env : Collab)
    (html css out : string) (extra : list string) (w w' : world) :
  purgeCss env html css extra w = (w', Ok out) ->
  w' = w /\ (css <> "" -> out <> "") /\
  (out <> css ->
   exists safelist,
     buildSafelist env extra = Ok safelist /\
     purgecss env html css safelist defaultExtractor = Ok (Some out)).
Proof.
  unfold purgeCss, bind, lift, ret.
  destruct (buildSafelist env extra) as [safelist | e] eqn:Eb; [| discriminate].
  destruct (purgecss env html css safelist defaultExtractor)
    as [r | e] eqn:Ep; [| discriminate].
  intros [= <- <-]. split; [reflexivity |].
  destruct (or_null r) as [c |] eqn:E.
  - apply or_null_Some in E as [-> Hc]. split; [now intros _ |].
    intros _. now exists safelist.
  - split; [now intros H | congruence].
Qed.

Lemma purge_keeps_nonempty_witness :
  "p{margin:0}" <> "".
Proof.
  destruct (purge_keeps_nonempty (demo_env (fun _ => font_page) true 0)
              "<html>" "p{margin:0}" "p{margin:0}" []
              empty_world empty_world eq_refl) as (_ & H & _).
  apply H. discriminate.
Defined.

(** ** More on the assembled document *)

(** The selectors of the removal take [rel] in whatever letter case: the
    whole value for the hints, one of its words for the stylesheets. *)
Lemma removal_selectors_letter_case :
  sel_script_or_hint (Element "link" [("rel", "Preload"); ("href", "a.woff2")] [])
  = true /\
  sel_script_or_hint (Element "link" [("rel", "DNS-Prefetch")] []) = true /\
  sel_script_or_hint (Element "link" [("rel", "preload stylesheet")] []) = false /\
  sel_other_link (Element "link" [("rel", "STYLESHEET"); ("href", "b.css")] []) = true /\
  sel_font_link
    (Element "link" [("rel", "Stylesheet");
                     ("href", "https://fonts.googleapis.com/css2?family=Inter")] [])
  = true.
Proof. repeat split; vm_compute; reflexivity. Qed.

Lemma remove_in_no_match (r : node -> bool) :
  shallow r ->
  forall n, select r n = [] -> remove_in r n = [n].
Proof.
  intros [Hr0 _]. induction n as [d | t a cs IH] using node_ind'; intros H.
  - simpl. now rewrite Hr0.
  - rewrite select_element in H. apply app_eq_nil in H as [Hn Hcs].
    rewrite remove_in_element.
    destruct (r (Element t a cs)); [discriminate |]. f_equal. f_equal.
    clear Hn. induction IH as [| c cs' Hc _ IHcs]; [reflexivity |].
    simpl in Hcs. apply app_eq_nil in Hcs as [H1 H2].
    simpl. now rewrite (Hc H1), (IHcs H2).
Qed.

Lemma remove_all_no_match (r : node -> bool) (doc : document) :
  shallow r ->
  count r doc = 0 -> remove_all r doc = doc.
Proof.
  intros Hr. unfold count, querySelectorAll, remove_all.
  induction doc as [|n doc IH]; simpl; [reflexivity |].
  rewrite length_app. intros H.
  assert (Hn : select r n = []) by (apply length_zero_iff_nil; lia).
  rewrite (remove_in_no_match r Hr n Hn), IH by lia. reflexivity.
Qed.

(** A removal takes the matching elements with all that is below them and
    nothing else: a document without a match is left as it is, after the
    removal no match is left, and removing again changes nothing. *)
Theorem removal_exact (r : node -> bool) (doc : document) :
  shallow r ->
  (count r doc = 0 -> remove_all r doc = doc) /\
  count r (remove_all r doc) = 0 /\
  remove_all r (remove_all r doc) = remove_all r doc.
Proof.
  intros Hr. split; [now apply remove_all_no_match |].
  assert (H0 : count r (remove_all r doc) = 0)
    by (apply removed_none_left_doc; auto).
  split; [exact H0 | now apply remove_all_no_match].
Qed.

Lemma removal_exact_witness :
  remove_all sel_script_or_hint (remove_all sel_script_or_hint font_page)
  = remove_all sel_script_or_hint font_page.
Proof.
  apply (removal_exact sel_script_or_hint font_page). apply shallow_sel_script_or_hint.
Defined.

Lemma lower_name_char_not_space (c : ascii) :
  is_name_char (lower_char c) = true ->
  forallb (fun w => negb (startsWith (String c "") w)) white_space = true.
Proof.
  destruct c as [[] [] [] [] [] [] [] []]; vm_compute; congruence.
Qed.

(** A value that is a word of letters, digits and hyphens in some letter
    case is its own single word. *)
Lemma split_ws_word (v : string) :
  chars_all is_name_char (toLowerCase v) = true ->
  forall in_sep, split_ws_from O in_sep v = [v].
Proof.
  unfold chars_all. induction v as [|c v IH]; intros H in_sep; [reflexivity |].
  simpl in H. apply andb_true_iff in H as [Hc Hv].
  pose proof (starts_nonspace_byte c v (lower_name_char_not_space c Hc)) as Hs.
  unfold starts_nonspace in Hs. apply Nat.eqb_eq in Hs.
  simpl split_ws_from. rewrite Hs. now rewrite (IH Hv).
Qed.

Lemma font_link_not_hint (n : node) :
  sel_script_or_hint n = true -> sel_font_link n = false.
Proof.
  unfold sel_script_or_hint, sel_font_link, sel_stylesheet_link, has_tag,
    attr_is_ci, attr_has_word_ci.
  destruct n as [t a cs | d]; [| reflexivity]. simpl.
  destruct (String.eqb_spec t "link") as [-> | Hl]; [| reflexivity].
  simpl. destruct (assoc "rel" a) as [v |]; [| reflexivity].
  intros H.
  assert (Hv : toLowerCase v = "preload" \/ toLowerCase v = "prefetch" \/
               toLowerCase v = "dns-prefetch").
  { destruct (String.eqb_spec (toLowerCase v) "preload"); [now left |].
    destruct (String.eqb_spec (toLowerCase v) "prefetch"); [now right; left |].
    destruct (String.eqb_spec (toLowerCase v) "dns-prefetch");
      [now right; right | discriminate]. }
  unfold split_ws. rewrite split_ws_word.
  - simpl. destruct Hv as [-> | [-> | ->]]; reflexivity.
  - destruct Hv as [-> | [-> | ->]]; reflexivity.
Qed.

Lemma font_link_not_other (n : node) :
  sel_other_link n = true -> sel_font_link n = false.
Proof.
  unfold sel_other_link, sel_font_link. intros H.
  apply andb_true_iff in H as [_ H]. apply negb_true_iff in H.
  rewrite H. apply andb_false_r.
Qed.

(** Under [--keep-font-links] every stylesheet link to the web-font family
    is kept: the assembled document has as many of them as the parsed
    one. *)
Theorem font_links_kept_under_flag (doc : document) (css : string) (h : node) :
  doc_head doc = Some h ->
  forallb void_links_and_scripts doc = true ->
  exists out,
    assemble true doc css = Ok out /\
    count sel_font_link out = count sel_font_link doc.
Proof.
  intros Hhead Hvoid.
  destruct (assemble_adds true doc css h (doc_head_head_at _ _ Hhead))
    as [out [h' [Hok [_ [_ Hcount]]]]].
  exists out. split; [exact Hok |].
  rewrite (Hcount _ shallow_sel_font_link).
  assert (Hsb : length (select sel_font_link (style_block css)) = 0).
  { unfold style_block. destruct (truthy css); reflexivity. }
  rewrite Hsb.
  assert (Hst : count sel_font_link (stripped true doc) = count sel_font_link doc).
  { unfold stripped.
    rewrite removal_keeps_count_doc;
      auto using font_link_not_hint, removal_keeps_void_doc with dom.
    rewrite removal_keeps_count_doc; auto using font_link_not_other with dom. }
  rewrite Hst.
  destruct (exists_match sel_meta_charset (stripped true doc));
    destruct (exists_match sel_meta_viewport (stripped true doc)); simpl; lia.
Qed.

Lemma font_links_kept_under_flag_witness :
  exists out,
    assemble true font_page "p{margin:0}" = Ok out /\
    count sel_font_link out = count sel_font_link font_page.
Proof.
  apply (font_links_kept_under_flag font_page "p{margin:0}"
           (Element "head" []
              [stylesheet_link "https://fonts.googleapis.com/css?family=Roboto" [];
               stylesheet_link "b.css" [];
               Element "style" [] [Text "p{margin:0}"];
               Element "script" [("src", "app.js")] []]));
    reflexivity.
Defined.

(** The assembled document holds no script element and no [preload],
    [prefetch] or [dns-prefetch] link, whatever the parsed document holds
    and whatever the font flag. *)
Theorem no_script_or_hint_left (keepFonts : bool) (doc : document) (css : string)
    (h : node) :
  doc_head doc = Some h ->
  exists out,
    assemble keepFonts doc css = Ok out /\
    count sel_script_or_hint out = 0.
Proof.
  intros Hhead.
  destruct (assemble_adds keepFonts doc css h (doc_head_head_at _ _ Hhead))
    as [out [h' [Hok [_ [_ Hcount]]]]].
  exists out. split; [exact Hok |].
  rewrite (Hcount _ shallow_sel_script_or_hint).
  assert (Hsb : length (select sel_script_or_hint (style_block css)) = 0).
  { unfold style_block. destruct (truthy css); reflexivity. }
  rewrite Hsb.
  assert (Hst : count sel_script_or_hint (stripped keepFonts doc) = 0).
  { unfold stripped. apply removed_none_left_doc; auto with dom. }
  rewrite Hst.
  destruct (exists_match sel_meta_charset (stripped keepFonts doc));
    destruct (exists_match sel_meta_viewport (stripped keepFonts doc)); reflexivity.
Qed.

Lemma no_script_or_hint_left_witness :
  exists out,
    assemble true font_page "p{margin:0}" = Ok out /\
    count sel_script_or_hint out = 0.
Proof.
  apply (no_script_or_hint_left true font_page "p{margin:0}"
           (Element "head" []
              [stylesheet_link "https://fonts.googleapis.com/css?family=Roboto" [];
               stylesheet_link "b.css" [];
               Element "style" [] [Text "p{margin:0}"];
               Element "script" [("src", "app.js")] []])).
  reflexivity.
Defined.

Lemma remove_all_head_at_children (r : node -> bool) (doc : document) (h : node) :
  (forall n, r n = true -> tag_of n = "link" \/ tag_of n = "script") ->
  head_at doc h ->
  head_at (remove_all r doc) (map_children (remove_all r) h).
Proof.
  intros Htag [pre a before h' after post Hpre Hbefore Hh].
  destruct (head_is_element h' Hh) as [ah [hc ->]].
  assert (Hhtml : forall cs, r (Element "html" a cs) = false).
  { intros cs. destruct (r (Element "html" a cs)) eqn:E; [| reflexivity].
    destruct (Htag _ E); discriminate. }
  assert (Hhd : forall cs, r (Element "head" ah cs) = false).
  { intros cs. destruct (r (Element "head" ah cs)) eqn:E; [| reflexivity].
    destruct (Htag _ E); discriminate. }
  unfold remove_all.
  rewrite flat_map_app, flat_map_step, remove_in_element, Hhtml.
  rewrite flat_map_app, flat_map_step, remove_in_element, Hhd.
  simpl app. simpl map_children.
  constructor.
  - now apply (remove_in_keeps_root r is_element shallow_is_element).
  - now apply (remove_in_keeps_root r (has_tag "head") (shallow_has_tag "head")).
  - reflexivity.
Qed.

Lemma stripped_head_at_children (keepFonts : bool) (doc : document) (h : node) :
  head_at doc h ->
  exists h3, head_at (stripped keepFonts doc) h3 /\
             has_tag "head" h3 = true /\
             children_of h3 = stripped keepFonts (children_of h).
Proof.
  intros H.
  assert (Hh : has_tag "head" h = true) by (now destruct H).
  destruct (head_is_element h Hh) as [ah [hc ->]].
  exists (Element "head" ah (stripped keepFonts hc)).
  split; [| split; reflexivity].
  unfold stripped. destruct keepFonts.
  - apply (remove_all_head_at_children sel_script_or_hint _ _ sel_script_or_hint_tag
             (remove_all_head_at_children sel_other_link _ _ sel_other_link_tag H)).
  - apply (remove_all_head_at_children sel_script_or_hint _ _ sel_script_or_hint_tag
             (remove_all_head_at_children sel_other_link _ _ sel_other_link_tag
                (remove_all_head_at_children sel_font_link _ _ sel_font_link_tag H))).
Qed.

Lemma with_head_children (f : list node -> list node) (doc : document) (h : node) :
  head_at doc h -> has_tag "head" h = true ->
  exists doc' h',
    with_head f doc = Ok doc' /\
    head_at doc' h' /\ has_tag "head" h' = true /\
    children_of h' = f (children_of h) /\
    forall q, shallow q ->
      count q doc' + count q (children_of h) = count q doc + count q (f (children_of h)).
Proof.
  intros Hat Hh. destruct (with_head_head_at f doc h Hat) as (doc' & Hok & Hat' & Hc).
  destruct (head_is_element h Hh) as [ah [hc ->]].
  exists doc', (map_children f (Element "head" ah hc)). now repeat split.
Qed.

(** The children of the head of the assembled document, in order: the new
    charset meta element if the document has none, then the children of the
    parsed head without the removed links and scripts, then the new viewport
    meta element if the document has none, then the new style block. *)
Theorem head_children_layout (keepFonts : bool) (doc : document) (css : string)
    (h : node) :
  doc_head doc = Some h ->
  exists out h',
    assemble keepFonts doc css = Ok out /\
    doc_head out = Some h' /\
    children_of h' =
      (if exists_match sel_meta_charset (stripped keepFonts doc)
       then [] else [meta_charset])
      ++ stripped keepFonts (children_of h)
      ++ (if exists_match sel_meta_viewport (stripped keepFonts doc)
          then [] else [meta_viewport])
      ++ [style_block css].
Proof.
  intros Hhead. apply doc_head_head_at in Hhead.
  destruct (stripped_head_at_children keepFonts doc h Hhead) as (h3 & H3 & T3 & C3).
  unfold assemble. fold (stripped keepFonts doc).
  set (doc3 := stripped keepFonts doc) in *.
  assert (H4 : exists doc4 h4,
             (if exists_match sel_meta_charset doc3 then Ok doc3
              else head_prepend meta_charset doc3) = Ok doc4 /\
             head_at doc4 h4 /\ has_tag "head" h4 = true /\
             children_of h4 =
               (if exists_match sel_meta_charset doc3 then [] else [meta_charset])
               ++ children_of h3 /\
             count sel_meta_viewport doc4 = count sel_meta_viewport doc3).
  { destruct (exists_match sel_meta_charset doc3).
    - exists doc3, h3. now repeat split.
    - destruct (with_head_children (fun cs => meta_charset :: cs) doc3 h3 H3 T3)
        as (doc4 & h4 & Hok & Hat4 & T4 & C4 & Hcount).
      exists doc4, h4. repeat split; try assumption.
      specialize (Hcount _ shallow_sel_meta_viewport).
      rewrite count_cons in Hcount. simpl in Hcount. lia. }
  destruct H4 as (doc4 & h4 & Hok4 & Hat4 & T4 & C4 & Hv4). rewrite Hok4.
  assert (Hview : exists_match sel_meta_viewport doc4
                  = exists_match sel_meta_viewport doc3).
  { now rewrite !exists_match_count, Hv4. }
  rewrite Hview.
  assert (H5 : exists doc5 h5,
             (if exists_match sel_meta_viewport doc3 then Ok doc4
              else head_append meta_viewport doc4) = Ok doc5 /\
             head_at doc5 h5 /\ has_tag "head" h5 = true /\
             children_of h5 =
               children_of h4
               ++ (if exists_match sel_meta_viewport doc3 then [] else [meta_viewport])).
  { destruct (exists_match sel_meta_viewport doc3).
    - exists doc4, h4. repeat split; try assumption. now rewrite app_nil_r.
    - destruct (with_head_children (fun cs => cs ++ [meta_viewport]) doc4 h4 Hat4 T4)
        as (doc5 & h5 & Hok & Hat5 & T5 & C5 & _).
      exists doc5, h5. now repeat split. }
  destruct H5 as (doc5 & h5 & Hok5 & Hat5 & T5 & C5). rewrite Hok5.
  destruct (with_head_children (fun cs => cs ++ [style_block css]) doc5 h5 Hat5 T5)
    as (out & h' & Hok & Hat6 & _ & C6 & _).
  exists out, h'. split; [exact Hok |]. split; [now apply head_at_doc_head |].
  rewrite C6, C5, C4, C3. now rewrite <- !app_assoc.
Qed.

Lemma head_children_layout_witness :
  exists out h',
    assemble false font_page "p{margin:0}" = Ok out /\
    doc_head out = Some h' /\
    children_of h' =
      [meta_charset; Element "style" [] [Text "p{margin:0}"]; meta_viewport;
       style_block "p{margin:0}"].
Proof.
  apply (head_children_layout false font_page "p{margin:0}"
           (Element "head" []
              [stylesheet_link "https://fonts.googleapis.com/css?family=Roboto" [];
               stylesheet_link "b.css" [];
               Element "style" [] [Text "p{margin:0}"];
               Element "script" [("src", "app.js")] []])).
  reflexivity.
Defined.

(** ** More on the visual guard *)

(** Without any viewport (every entry of the list is blank) the guard, once
    its collaborators are loaded, the browser is launched and the two
    temporary pages are written, takes no picture and accepts. *)
Theorem guard_without_viewports (env : Collab) (cfg : Config)
    (originalHtml slimHtml viewportsCsv : string) (w : world) :
  deps_installed env = true ->
  puppeteer_launch env = Ok tt ->
  fs_writable env (file_key env (tmp_orig env)) = true ->
  fs_writable env (file_key env (tmp_slim env)) = true ->
  parse_viewports viewportsCsv = [] ->
  visualGuard env cfg originalHtml slimHtml viewportsCsv w
  = (World (<[file_key env (tmp_slim env) := slimHtml]>
              (<[file_key env (tmp_orig env) := originalHtml]> (files w)))
           (trace w ++ [Launched; Closed]),
     Ok true).
Proof.
  intros Hdeps Hlaunch Ho Hs Hvps.
  unfold visualGuard. rewrite Hdeps, Hvps.
  unfold bind, lift, emit, writeFile, ret. rewrite Hlaunch. simpl.
  rewrite Ho, Hs. simpl. now rewrite <- app_assoc.
Qed.

Lemma guard_without_viewports_witness :
  snd (visualGuard (demo_env (fun _ => font_page) true 700) (demo_cfg true "slim.html")
                   "<html>" "<html>" " , " empty_world) = Ok true.
Proof.
  rewrite (guard_without_viewports (demo_env (fun _ => font_page) true 700)
             (demo_cfg true "slim.html") "<html>" "<html>" " , " empty_world);
    reflexivity.
Defined.

Lemma compared_counts_app (t1 t2 : list event) :
  compared_counts (t1 ++ t2) = compared_counts t1 ++ compared_counts t2.
Proof. unfold compared_counts. apply flat_map_app. Qed.

Lemma compared_counts_render (t : list event) :
  compared_counts (render_events t) = compared_counts t.
Proof.
  induction t as [|e t IH]; [reflexivity |].
  destruct e; simpl; try exact IH; now rewrite IH.
Qed.

Lemma compared_counts_zip (tmp1 tmp2 : string) (vps : list string) :
  forall counts, length counts = length vps ->
    compared_counts
      (flat_map (fun vn : string * N =>
                   [Snapped (fst vn) tmp1; Snapped (fst vn) tmp2;
                    Compared (fst vn) (snd vn)])
                (zip vps counts)) = counts.
Proof.
  induction vps as [|vp vps IH]; intros [|n counts] Hlen; simpl in *;
    try discriminate; [reflexivity |].
  f_equal. apply IH. lia.
Qed.

Lemma max_within (b : N) (l : list N) :
  (fold_right N.max 0 l <=? b)%N = forallb (fun n => (n <=? b)%N) l.
Proof.
  induction l as [|n l IH]; simpl; [apply N.leb_le; lia |].
  rewrite <- IH.
  destruct (N.leb_spec n b), (N.leb_spec (fold_right N.max 0%N l) b),
    (N.leb_spec (N.max n (fold_right N.max 0%N l)) b); simpl; try reflexivity; lia.
Qed.

(** The answer of the guard, viewport by viewport: the guard reports one
    count for each configured viewport, and it accepts exactly when every
    one of them is at most 500. *)
Theorem guard_verdict_per_viewport (env : Collab) (cfg : Config)
    (originalHtml slimHtml viewportsCsv : string) (ok : bool) (w w' : world) :
  deps_installed env = true ->
  visualGuard env cfg originalHtml slimHtml viewportsCsv w = (w', Ok ok) ->
  exists t,
    trace w' = trace w ++ t /\
    length (compared_counts t) = length (parse_viewports viewportsCsv) /\
    (ok = true <-> Forall (fun n => (n <= 500)%N) (compared_counts t)).
Proof.
  intros Hdeps Hguard.
  destruct (visualGuard_inv env cfg _ _ _ ok w w' Hdeps Hguard)
    as (counts & t & Hlen & T & R & Hok).
  assert (Hc : compared_counts t = counts).
  { rewrite <- compared_counts_render, R. now apply compared_counts_zip. }
  exists t. rewrite Hc. split; [exact T |]. split; [exact Hlen |].
  rewrite Hok, max_within, forallb_forall, List.Forall_forall.
  split; intros H n Hn; specialize (H n Hn).
  - now apply N.leb_le.
  - now apply N.leb_le.
Qed.

Lemma guard_verdict_per_viewport_witness :
  exists t,
    trace (fst (visualGuard (demo_env (fun _ => font_page) true 700)
                  (demo_cfg true "slim.html") "<html>" "<html>x" "800x600" empty_world))
    = trace empty_world ++ t /\
    length (compared_counts t) = 1 /\
    (false = true <-> Forall (fun n => (n <= 500)%N) (compared_counts t)).
Proof.
  apply (guard_verdict_per_viewport (demo_env (fun _ => font_page) true 700)
           (demo_cfg true "slim.html") "<html>" "<html>x" "800x600" false empty_world).
  - reflexivity.
  - vm_compute. reflexivity.
Defined.

Lemma never_closes_ret {A} (a : A) : never_closes (ret a).
Proof. intros w. exists []. simpl. now rewrite app_nil_r. Qed.

Lemma never_closes_lift {A} (r : result A) : never_closes (lift r).
Proof. intros w. exists []. simpl. now rewrite app_nil_r. Qed.

Lemma never_closes_emit (e : event) : e <> Closed -> never_closes (emit e).
Proof.
  intros He w. exists [e]. simpl. split; [reflexivity |].
  intros [H | []]. now apply He.
Qed.

Lemma never_closes_bind {A B} (m : io A) (f : A -> io B) :
  never_closes m -> (forall a, never_closes (f a)) -> never_closes (bind m f).
Proof.
  intros Hm Hf w. unfold bind. destruct (Hm w) as (t1 & T1 & N1).
  destruct (m w) as [w1 [a | e]]; simpl in *; [| now exists t1].
  destruct (Hf a w1) as (t2 & T2 & N2). exists (t1 ++ t2).
  rewrite T2, T1, <- app_assoc. split; [reflexivity |].
  rewrite in_app_iff. tauto.
Qed.

Lemma open_on_throw_bind {A B} (m : io A) (f : A -> io B) :
  never_closes m -> (forall a, open_on_throw (f a)) -> open_on_throw (bind m f).
Proof.
  intros Hm Hf w w' e. unfold bind. destruct (Hm w) as (t1 & T1 & N1).
  destruct (m w) as [w1 [a | e1]]; simpl in *.
  - intros H. destruct (Hf a w1 w' e H) as (t2 & T2 & N2). exists (t1 ++ t2).
    rewrite T2, T1, <- app_assoc. split; [reflexivity |].
    rewrite in_app_iff. tauto.
  - intros [= <- <-]. now exists t1.
Qed.

Section Browser.
Variable env : Collab.
Variable cfg : Config.

Lemma never_closes_log (msg : string) : never_closes (log cfg msg).
Proof.
  unfold log. destruct (verbose cfg);
    [now apply never_closes_emit | apply never_closes_ret].
Qed.

Lemma never_closes_readFile (p : string) : never_closes (readFile env p).
Proof.
  intros w. exists []. unfold readFile.
  destruct (files w !! file_key env p); simpl; now rewrite app_nil_r.
Qed.

Lemma never_closes_writeFile (p c : string) : never_closes (writeFile env p c).
Proof.
  intros w. exists []. unfold writeFile.
  destruct (fs_writable env (file_key env p)); simpl; now rewrite app_nil_r.
Qed.

Ltac closes_step :=
  first
    [ apply never_closes_ret | apply never_closes_lift | apply never_closes_log
    | apply never_closes_readFile | apply never_closes_writeFile
    | apply never_closes_emit; discriminate | apply never_closes_bind ].

Ltac closes_steps := repeat (intros; closes_step).

Lemma never_closes_compare_viewport (tmp1 tmp2 vp : string) (worst : N) :
  never_closes (compare_viewport env cfg tmp1 tmp2 vp worst).
Proof. unfold compare_viewport, snap. closes_steps. Qed.

Lemma never_closes_guard_loop (tmp1 tmp2 : string) (vps : list string) :
  forall worst, never_closes (guard_loop env cfg tmp1 tmp2 vps worst).
Proof.
  induction vps as [|vp vps IH]; intros worst; simpl; [closes_steps |].
  apply never_closes_bind; [apply never_closes_compare_viewport | apply IH].
Qed.

(** The rest of the guard after the launch of the browser. *)
Lemma guard_after_launch (originalHtml slimHtml viewportsCsv : string) :
  open_on_throw
    (writeFile env (tmp_orig env) originalHtml ;;
     writeFile env (tmp_slim env) slimHtml ;;
     do worst <- guard_loop env cfg (tmp_orig env) (tmp_slim env)
                   (parse_viewports viewportsCsv) 0%N;
     emit Closed ;;
     ret (worst <=? budget)%N).
Proof.
  apply open_on_throw_bind; [apply never_closes_writeFile | intros _].
  apply open_on_throw_bind; [apply never_closes_writeFile | intros _].
  apply open_on_throw_bind; [apply never_closes_guard_loop | intros worst].
  intros w w' e H. discriminate H.
Qed.
End Browser.

(** The browser is closed only at the end of the loop: when the guard has
    launched the browser and then ends with an exception (a page that is not
    rendered, a picture that is not decoded, images of different sizes, a
    file that cannot be written), it ends without having closed it. *)
Theorem browser_left_open_on_exception (env : Collab) (cfg : Config)
    (originalHtml slimHtml viewportsCsv e : string) (w w' : world) :
  puppeteer_launch env = Ok tt ->
  visualGuard env cfg originalHtml slimHtml viewportsCsv w = (w', Throw e) ->
  exists t, trace w' = trace w ++ Launched :: t /\ ~ In Closed t.
Proof.
  intros Hlaunch. unfold visualGuard.
  destruct (deps_installed env); [| discriminate].
  unfold bind at 1, lift at 1. rewrite Hlaunch.
  unfold bind at 1, emit at 1. intros H.
  destruct (guard_after_launch env cfg originalHtml slimHtml viewportsCsv _ _ _ H)
    as (t & T & Hn).
  exists t. simpl in T. rewrite T, <- app_assoc. now split.
Qed.

Lemma browser_left_open_on_exception_witness :
  exists t,
    trace (fst (visualGuard blind_env (demo_cfg true "slim.html")
                  "<html>" "<html>" "800x600" empty_world))
    = trace empty_world ++ Launched :: t /\ ~ In Closed t.
Proof.
  apply (browser_left_open_on_exception blind_env (demo_cfg true "slim.html")
           "<html>" "<html>" "800x600" "Protocol error: target closed" empty_world).
  - reflexivity.
  - vm_compute. reflexivity.
Defined.

(** ** More on the run *)

Section Run.
Variable env : Collab.
Variable cfg : Config.

(** The four ways the last two steps can end. *)
Lemma guard_and_write_cases (html slim : string) (w w' : world) (r : result nat) :
  guard_and_write env cfg html slim w = (w', r) ->
  let G := if doVisual cfg then visualGuard env cfg html slim (vpsArg cfg)
           else ret true in
  (exists e, G w = (w', Throw e) /\ r = Throw e) \/
  (exists w1, G w = (w1, Ok false) /\ r = Ok 2 /\
              w' = World (files w1) (trace w1 ++ [ConsoleError (error_visual)])) \/
  (exists e, G w = (w', Ok true) /\ r = Throw e /\
             fs_writable env (file_key env (outPath cfg)) = false) \/
  (exists w1, G w = (w1, Ok true) /\ r = Ok 0 /\
              w' = World (<[file_key env (outPath cfg) := slim]> (files w1))
                         (trace w1 ++ [ConsoleLog ("✔ Wrote " +:+ outPath cfg)])).
Proof.
  unfold guard_and_write. cbv zeta.
  set (G := if doVisual cfg then visualGuard env cfg html slim (vpsArg cfg)
            else ret true).
  unfold bind at 1. destruct (G w) as [w1 [[|] | e]].
  - unfold bind, writeFile, emit, ret.
    destruct (fs_writable env (file_key env (outPath cfg))); simpl.
    + intros [= <- <-]. right. right. right. now exists w1.
    + intros [= <- <-]. right. right. left. eauto.
  - unfold bind, emit, ret. simpl. intros [= <- <-]. right. left. now exists w1.
  - intros [= <- <-]. left. eauto.
Qed.

Lemma main_cases (w w' : world) (code : nat) :
  main env cfg w = (w', code) ->
  (exists w2 e, (do pages <- slim_stages env cfg;
                 guard_and_write env cfg (fst pages) (snd pages)) w = (w2, Throw e) /\
                code = 1 /\ files w' = files w2 /\
                trace w' = trace w2 ++ [ConsoleError ("Failed: " +:+ e)]
                                    ++ (if verbose cfg then [ConsoleErrorObject e]
                                        else [])) \/
  (do pages <- slim_stages env cfg;
   guard_and_write env cfg (fst pages) (snd pages)) w = (w', Ok code).
Proof.
  unfold main.
  destruct ((do pages <- slim_stages env cfg;
             guard_and_write env cfg (fst pages) (snd pages)) w)
    as [w2 [c | e]].
  - intros [= <- <-]. now right.
  - intros [= <- <-]. left. exists w2, e. now repeat split.
Qed.
End Run.

(** Exit code 0 means that the output file holds the slimmed page: a run
    that ends with code 0 has computed the slimmed page, has written it at
    the output path and has printed the line that names this path last. *)
Theorem success_writes_output (env : Collab) (cfg : Config) (w w' : world) :
  main env cfg w = (w', 0) ->
  exists w1 html slim t,
    slim_stages env cfg w = (w1, Ok (html, slim)) /\
    files w' !! file_key env (outPath cfg) = Some slim /\
    trace w' = t ++ [ConsoleLog ("✔ Wrote " +:+ outPath cfg)].
Proof.
  intros H. apply main_cases in H as [(w2 & e & _ & Hc & _) | H]; [discriminate |].
  apply bind_ok_inv in H as (w1 & [html slim] & Hs & Hg). simpl in Hg.
  apply guard_and_write_cases in Hg
    as [(e & _ & Hr) | [(w3 & _ & Hr & _) | [(e & _ & Hr & _) | (w3 & _ & _ & ->)]]];
    try discriminate.
  exists w1, html, slim, (trace w3). split; [exact Hs |]. split; [| reflexivity].
  simpl. apply lookup_insert_eq.
Qed.

Lemma success_writes_output_witness :
  exists w1 html slim t,
    slim_stages (demo_env (fun _ => font_page) true 0) (demo_cfg false "slim.html")
                empty_world = (w1, Ok (html, slim)) /\
    files (fst (main (demo_env (fun _ => font_page) true 0) (demo_cfg false "slim.html")
                     empty_world))
      !! file_key (demo_env (fun _ => font_page) true 0)
                  (outPath (demo_cfg false "slim.html")) = Some slim /\
    trace (fst (main (demo_env (fun _ => font_page) true 0) (demo_cfg false "slim.html")
                     empty_world))
    = t ++ [ConsoleLog ("✔ Wrote " +:+ outPath (demo_cfg false "slim.html"))].
Proof.
  apply (success_writes_output (demo_env (fun _ => font_page) true 0)
           (demo_cfg false "slim.html") empty_world).
  vm_compute. reflexivity.
Defined.

(** With [--no-visual] the run ends with exit code 0 or 1, never 2, and
    changes no file but the output file; if [--verbose] is not set, the one
    line it prints itself is the last one: the line that names the output
    path when the code is 0, the line of the failure when it is 1.  What
    comes before it are the reports of jsdom, on the error stream, so that
    with a jsdom that has nothing to report this line is all that is
    printed. *)
Theorem run_without_guard (env : Collab) (cfg : Config) (w w' : world) (code : nat) :
  doVisual cfg = false ->
  main env cfg w = (w', code) ->
  (code = 0 \/ code = 1) /\
  (forall k, k <> file_key env (outPath cfg) -> files w' !! k = files w !! k) /\
  (verbose cfg = false ->
   exists msgs last,
     trace w' = trace w ++ map ConsoleError msgs ++ [last] /\
     Forall (jsdom_report env) msgs /\
     ((forall text, jsdom_errors env text = [] /\ jsdom_style_errors env text = []) ->
      msgs = []) /\
     ((code = 0 /\ last = ConsoleLog ("✔ Wrote " +:+ outPath cfg)) \/
      (code = 1 /\ exists e, last = ConsoleError ("Failed: " +:+ e)))).
Proof.
  intros Hvis H.
  pose proof (stages_files := fun k => keeps_file_slim_stages env cfg k w).
  assert (stages_quiet : verbose cfg = false ->
            exists msgs,
              trace (fst (slim_stages env cfg w)) = trace w ++ map ConsoleError msgs /\
              Forall (jsdom_report env) msgs /\
              ((forall text, jsdom_errors env text = [] /\
                             jsdom_style_errors env text = []) -> msgs = [])).
  { intros Hq. destruct (reports_only_slim_stages env cfg Hq w) as (msgs & Hw & Hmsgs).
    exists msgs. split; [now rewrite Hw |]. split; [exact Hmsgs |].
    intros Hnone. destruct msgs as [|msg msgs]; [reflexivity |].
    inversion Hmsgs as [| ? ? [text [Hin | Hin]] _]; subst;
      destruct (Hnone text) as [H1 H2]; rewrite ?H1, ?H2 in Hin; destruct Hin. }
  apply main_cases in H as [(w2 & e & H & -> & Hf & Ht) | H].
  - unfold bind in H.
    destruct (slim_stages env cfg w) as [w1 [[html slim] | e1]] eqn:Es; simpl in *.
    + apply guard_and_write_cases in H
        as [(e2 & HG & _) | [(w3 & _ & Hr & _) | [(e2 & HG & _ & _) | (w3 & _ & Hr & _)]]];
        try discriminate; rewrite Hvis in HG; try discriminate.
      apply ret_inv in HG as [-> _].
      split; [now right |]. split.
      * intros k _. rewrite Hf. apply stages_files.
      * intros Hq. destruct (stages_quiet Hq) as (msgs & Hm & Hrep & Hnone).
        exists msgs, (ConsoleError ("Failed: " +:+ e)).
        split; [rewrite Ht, Hq, Hm, <- app_assoc; reflexivity |].
        split; [exact Hrep |]. split; [exact Hnone |]. right. split; eauto.
    + injection H as <- <-. split; [now right |]. split.
      * intros k _. rewrite Hf. apply stages_files.
      * intros Hq. destruct (stages_quiet Hq) as (msgs & Hm & Hrep & Hnone).
        exists msgs, (ConsoleError ("Failed: " +:+ e1)).
        split; [rewrite Ht, Hq, Hm, <- app_assoc; reflexivity |].
        split; [exact Hrep |]. split; [exact Hnone |]. right. split; eauto.
  - apply bind_ok_inv in H as (w1 & [html slim] & Hs & Hg). simpl in Hg.
    rewrite Hs in stages_files, stages_quiet. simpl in *.
    apply guard_and_write_cases in Hg
      as [(e & _ & Hr) | [(w3 & HG & _ & _) | [(e & _ & Hr & _) | (w3 & HG & Hr & ->)]]];
      try discriminate; rewrite Hvis in HG.
    + apply ret_inv in HG as [_ HG]. discriminate.
    + apply ret_inv in HG as [-> _]. injection Hr as <-.
      split; [now left |]. split.
      * intros k Hk. simpl. rewrite lookup_insert_ne by congruence. apply stages_files.
      * intros Hq. destruct (stages_quiet Hq) as (msgs & Hm & Hrep & Hnone).
        exists msgs, (ConsoleLog ("✔ Wrote " +:+ outPath cfg)).
        split; [simpl; rewrite Hm, <- app_assoc; reflexivity |].
        split; [exact Hrep |]. split; [exact Hnone |]. left. split; reflexivity.
Qed.

Lemma run_without_guard_witness :
  snd (main (demo_env (fun _ => font_page) true 0) (demo_cfg false "slim.html")
            empty_world) = 0 \/
  snd (main (demo_env (fun _ => font_page) true 0) (demo_cfg false "slim.html")
            empty_world) = 1.
Proof.
  apply (run_without_guard (demo_env (fun _ => font_page) true 0)
           (demo_cfg false "slim.html") empty_world
           (fst (main (demo_env (fun _ => font_page) true 0) (demo_cfg false "slim.html")
                      empty_world))).
  - reflexivity.
  - vm_compute. reflexivity.
Defined.

(** A run that ends with exit code 1 has not written the output: when the
    guard is off, or when the output path is none of the files the guard
    writes, the file at the output path is as it was before the run. *)
Theorem failure_leaves_output (env : Collab) (cfg : Config) (w w' : world) :
  main env cfg w = (w', 1) ->
  doVisual cfg = false \/
  Forall (fun p => file_key env p <> file_key env (outPath cfg))
         (guard_paths env (parse_viewports (vpsArg cfg))) ->
  files w' !! file_key env (outPath cfg) = files w !! file_key env (outPath cfg).
Proof.
  intros H Hpaths.
  assert (HG : forall html slim,
             keeps_file (file_key env (outPath cfg))
               (if doVisual cfg then visualGuard env cfg html slim (vpsArg cfg)
                else ret true)).
  { intros html slim. destruct (doVisual cfg).
    - destruct Hpaths as [Hp | Hp]; [discriminate |].
      now apply keeps_file_visualGuard.
    - apply keeps_file_ret. }
  pose proof (keeps_file_slim_stages env cfg (file_key env (outPath cfg)) w) as Hs.
  apply main_cases in H as [(w2 & e & H & _ & Hf & _) | H].
  - rewrite Hf. unfold bind in H.
    destruct (slim_stages env cfg w) as [w1 [[html slim] | e1]]; simpl in *.
    + specialize (HG html slim w1).
      apply guard_and_write_cases in H
        as [(e2 & Hg & _) | [(w3 & _ & Hr & _) | [(e2 & Hg & _ & _) | (w3 & _ & Hr & _)]]];
        try discriminate; rewrite Hg in HG; simpl in HG; congruence.
    + injection H as <- <-. exact Hs.
  - apply bind_ok_inv in H as (w1 & [html slim] & _ & Hg). simpl in Hg.
    apply guard_and_write_cases in Hg
      as [(e & _ & Hr) | [(w3 & _ & Hr & _) | [(e & _ & Hr & _) | (w3 & _ & Hr & _)]]];
      discriminate.
Qed.

Lemma failure_leaves_output_witness :
  files (fst (main blind_env (demo_cfg true "slim.html") empty_world))
    !! file_key blind_env (outPath (demo_cfg true "slim.html"))
  = files empty_world !! file_key blind_env (outPath (demo_cfg true "slim.html")).
Proof.
  apply (failure_leaves_output blind_env (demo_cfg true "slim.html") empty_world
           (fst (main blind_env (demo_cfg true "slim.html") empty_world))).
  - vm_compute. reflexivity.
  - right. repeat constructor; vm_compute; discriminate.
Defined.

(** ** Tokens of the extractor *)

Lemma matchAll_from_Forall (P : rmatch -> Prop) (re : string -> option rmatch) :
  (forall s m, re s = Some m -> P m) ->
  forall s skip, Forall P (matchAll_from re skip s).
Proof.
  intros Hre. induction s as [|c s IH]; intros skip.
  - simpl. destruct skip; [| constructor].
    destruct (re "") eqn:E; [| constructor].
    constructor; [now apply (Hre "") | constructor].
  - destruct skip as [|k]; [| exact (IH k)].
    rewrite matchAll_from_cons.
    destruct (re (String c s)) eqn:E; [| exact (IH O)].
    constructor; [now apply (Hre (String c s)) | apply IH].
Qed.

Lemma re_quoted_attr_group (name s : string) (m : rmatch) :
  re_quoted_attr name s = Some m ->
  group1 m <> "" /\ chars_all (fun c => negb (is_quote c)) (group1 m) = true.
Proof.
  unfold re_quoted_attr. destruct (startsWith (name +:+ "=") s); [| discriminate].
  destruct (drop (String.length name + 1) s) as [|q r]; [discriminate |].
  destruct (is_quote q); [| discriminate].
  destruct (span (fun c => negb (is_quote c)) r) as [run rest] eqn:E.
  destruct run as [|c v]; [discriminate |].
  destruct rest as [|q' rest]; [discriminate |].
  intros [= <-]. simpl group1. split; [discriminate |].
  exact (span_run _ _ _ _ E).
Qed.

Lemma chars_all_cons_head (p : ascii -> bool) (c : ascii) (l : list string) :
  p c = true ->
  Forall (fun t => chars_all p t = true) l ->
  Forall (fun t => chars_all p t = true) (cons_head c l).
Proof.
  intros Hc Hl. destruct Hl as [|h t Hh Ht]; simpl.
  - constructor; [| constructor]. unfold chars_all. simpl. now rewrite Hc.
  - constructor; [| exact Ht]. unfold chars_all in *. simpl. now rewrite Hc.
Qed.

Lemma space_byte_white_space (c : ascii) :
  is_space c = true -> In (String c "") white_space.
Proof.
  intros H.
  assert (Hex : existsb (String.eqb (String c "")) white_space = true).
  { destruct c as [[] [] [] [] [] [] [] []]; try discriminate H; reflexivity. }
  apply existsb_exists in Hex as (x & Hx & Heq).
  apply String.eqb_eq in Heq. now rewrite Heq.
Qed.

Lemma split_ws_from_parts (p : ascii -> bool) (s : string) :
  chars_all p s = true ->
  forall skip in_sep,
    Forall (fun t => chars_all (fun c => negb (is_space c) && p c) t = true)
           (split_ws_from skip in_sep s).
Proof.
  unfold chars_all at 1.
  induction s as [|c s IH]; intros H skip in_sep.
  - simpl. constructor; [reflexivity | constructor].
  - simpl in H. apply andb_true_iff in H as [Hc Hs].
    destruct skip as [|k]; [| exact (IH Hs k in_sep)].
    cbn [split_ws_from].
    destruct (space_width (String c s)) as [|k] eqn:E.
    + apply chars_all_cons_head; [| now apply IH].
      rewrite Hc, andb_true_r. apply negb_true_iff.
      destruct (is_space c) eqn:Ec; [| reflexivity]. exfalso.
      apply (space_width_zero _ (String c "") s E); [| reflexivity].
      now apply space_byte_white_space.
    + destruct in_sep; [now apply IH |].
      constructor; [reflexivity | now apply IH].
Qed.

Lemma re_tag_group (s : string) (m : rmatch) :
  re_tag s = Some m ->
  group1 m <> "" /\ chars_all is_name_char (group1 m) = true.
Proof.
  unfold re_tag. destruct s as [|a r]; [discriminate |].
  destruct (Ascii.eqb_spec a "<"%char) as [-> | Hne].
  - set (sr := match r with String "/" r' => ("/", r') | _ => ("", r) end).
    destruct sr as [slash r'].
    destruct (span is_name_char r') as [run rest] eqn:E.
    destruct run as [|c name]; [discriminate |].
    intros [= <-]. simpl group1. split; [discriminate |].
    exact (span_run _ _ _ _ E).
  - intros H. exfalso.
    destruct a as [[] [] [] [] [] [] [] []]; try discriminate H. now apply Hne.
Qed.

Lemma re_data_token (s : string) (m : rmatch) :
  re_data s = Some m ->
  startsWith_ci "data-" (trim (whole m)) = true /\
  starts_nonspace (trim (whole m)) = true /\
  ends_nonspace (trim (whole m)) = true.
Proof.
  intros H.
  split; [| split; [apply trim_starts | apply trim_ends]].
  revert H. unfold re_data.
  destruct (space_width s) as [|k] eqn:Ew; [discriminate |].
  destruct (space_width_pos _ _ Ew) as (sp & r0 & Hsp & -> & Hk).
  rewrite <- Hk, drop_app, take_app. cbv zeta.
  destruct (startsWith_ci "data-" r0) eqn:Ed; [| discriminate].
  destruct (startsWith_ci_inv _ _ Ed) as (d & r' & -> & Hd).
  assert (Hlen : String.length d = 5)
    by (rewrite <- toLowerCase_length, Hd; reflexivity).
  rewrite <- Hlen, drop_app, take_app.
  destruct (span is_name_char r') as [run rest] eqn:E.
  destruct run as [|c name]; [discriminate |].
  intros [= <-].
  change (startsWith_ci "data-"
            (trim (sp +:+ d +:+ String c name +:+ re_data_value rest)) = true).
  rewrite data_token_trim;
    [| exact Hsp | exact Hd | discriminate | exact (span_run _ _ _ _ E) | right; eauto].
  rewrite <- Hd. apply startsWith_ci_lower.
Qed.

(** What the extractor hands to the pruner, kind by kind: a class token
    holds neither white space nor a quote character; an id token is the
    whole value of the attribute, not empty and free of quote characters; a
    tag token is a non-empty run of letters, digits and hyphens; a data token
    starts with [data-] in some letter case and has no white space at either
    end. *)
Theorem extractor_token_shapes (content : string) :
  Forall (fun t => chars_all (fun c => negb (is_space c) && negb (is_quote c)) t = true)
         (extract_classes content) /\
  Forall (fun t => t <> "" /\ chars_all (fun c => negb (is_quote c)) t = true)
         (extract_ids content) /\
  Forall (fun t => t <> "" /\ chars_all is_name_char t = true)
         (extract_tags content) /\
  Forall (fun t => startsWith_ci "data-" t = true /\
                   starts_nonspace t = true /\ ends_nonspace t = true)
         (extract_data content).
Proof.
  repeat split.
  - unfold extract_classes, matchAll.
    pose proof (matchAll_from_Forall _ _ (re_quoted_attr_group "class") content O) as H.
    induction H as [|m l [_ Hm] _ IH]; simpl; [constructor |].
    apply Forall_app. split; [| exact IH].
    now apply (split_ws_from_parts _ _ Hm).
  - unfold extract_ids, matchAll. apply List.Forall_map.
    exact (matchAll_from_Forall _ _ (re_quoted_attr_group "id") content O).
  - unfold extract_tags, matchAll. apply List.Forall_map.
    exact (matchAll_from_Forall _ _ re_tag_group content O).
  - unfold extract_data, matchAll. apply List.Forall_map.
    exact (matchAll_from_Forall _ _ re_data_token content O).
Qed.

(** ** Names of the pictures *)

Lemma strip_suffix_app (suffix p : string) :
  strip_suffix suffix (p +:+ suffix) = p.
Proof.
  induction p as [|a p IH].
  - destruct suffix; simpl; [reflexivity |].
    now rewrite Ascii.eqb_refl, String.eqb_refl.
  - change (String a p +:+ suffix) with (String a (p +:+ suffix)).
    assert (Hne : String.eqb (String a (p +:+ suffix)) suffix = false).
    { apply String.eqb_neq. intros H. apply (f_equal String.length) in H.
      simpl in H. rewrite length_append in H. lia. }
    destruct suffix as [|b suffix].
    + simpl. simpl in IH. now rewrite IH.
    + unfold strip_suffix; fold strip_suffix. rewrite Hne. now rewrite IH.
Qed.

(** The picture of a page whose path ends in [.html] is named by the path
    without this ending, followed by the viewport and [.png]; for one page,
    two viewports never share a picture. *)
Theorem picture_names (p file vp vp' : string) :
  png_path (p +:+ ".html") vp = p +:+ "." +:+ vp +:+ ".png" /\
  (png_path file vp = png_path file vp' -> vp = vp').
Proof.
  unfold png_path. split.
  - now rewrite strip_suffix_app.
  - intros H. apply append_cancel_l in H. apply (append_cancel_l ".") in H.
    now apply append_cancel_r in H.
Qed.

Lemma picture_names_witness :
  png_path ("/cwd/.orig__tmp" +:+ ".html") "800x600"
  = "/cwd/.orig__tmp" +:+ "." +:+ "800x600" +:+ ".png" /\
  (png_path "/cwd/.slim__tmp.html" "800x600" = png_path "/cwd/.slim__tmp.html" "800x600" ->
   "800x600" = "800x600").
Proof.
  exact (picture_names "/cwd/.orig__tmp" "/cwd/.slim__tmp.html" "800x600" "800x600").
Defined.

(** ** Stylesheets beside a local page *)

(** For a page read from a file, a stylesheet whose address is no web
    address is read from the directory of the page, under the reference
    without its query string; a file that cannot be read counts as an empty
    stylesheet and never ends the run, and no file is changed. *)
Theorem local_stylesheet_tolerant (env : Collab) (cfg : Config)
    (inp name query href url : string) (w : world) :
  inputPath cfg = Some inp -> inp <> "" ->
  re_http url = false ->
  no_char "?" name = true ->
  href = name \/ href = name +:+ String "?" query ->
  snd (read_stylesheet env cfg href url w)
  = Ok (match files w !! file_key env (path_resolve env [path_dirname env inp; name]) with
        | Some css => css
        | None => ""
        end) /\
  files (fst (read_stylesheet env cfg href url w)) = files w.
Proof.
  intros Hin Hne Hurl Hname Hhref.
  assert (Hhd : hd "" (split "?"%char href) = name).
  { destruct Hhref as [-> | ->].
    - now rewrite split_no_separator.
    - now apply split_hd_app. }
  unfold read_stylesheet. rewrite Hurl, Hin. unfold or_null.
  assert (Ht : truthy inp = true).
  { unfold truthy. apply negb_true_iff. now apply String.eqb_neq. }
  rewrite Ht, Hhd.
  unfold bind, log, try_catch, readFile, emit, ret.
  destruct (verbose cfg); simpl;
    destruct (files w !! file_key env (path_resolve env [path_dirname env inp; name]));
    simpl; split; reflexivity.
Qed.

Lemma local_stylesheet_tolerant_witness :
  snd (read_stylesheet (demo_env (fun _ => font_page) true 0) local_cfg
         "theme.css?ver=6.4" "file:///cwd/theme.css?ver=6.4" empty_world)
  = Ok "" /\
  files (fst (read_stylesheet (demo_env (fun _ => font_page) true 0) local_cfg
                "theme.css?ver=6.4" "file:///cwd/theme.css?ver=6.4" empty_world))
  = files empty_world.
Proof.
  apply (local_stylesheet_tolerant (demo_env (fun _ => font_page) true 0) local_cfg
           "index.html" "theme.css" "ver=6.4").
  - reflexivity.
  - discriminate.
  - reflexivity.
  - reflexivity.
  - right. reflexivity.
Defined.
